(** * Route search and route statistics over an OSMnx road network

    A shallow embedding of [src/source.py]: the vehicle constants, the two
    core functions [calculate_route_statistics] and [find_best_route], and
    the parts of the libraries they call into (networkx's multigraph
    adjacency, its weight convention and its bidirectional Dijkstra search,
    OSMnx's [shortest_path] and [route_to_gdf]); then [save_route_map] up
    to what the plotting library draws, and the script's loop over the
    criteria. The comparative chart and the PDF report are built by pandas,
    matplotlib and FPDF from the lists the loop fills, and are not
    embedded.

    Conventions.
    - A number is kept as the rational it stands for ([Q]). The search and
      the order of the statistics are stated over these exact numbers, with
      [round(x, 4)] as rounding to four decimals, ties to even.
    - The program computes in binary64. Where a statement depends on the
      last digit (what [round] returns, whether two products are equal) the
      statistics and the two weight lambdas are written a second time, in
      [Float64], over the kernel's binary64 numbers, an attribute [q] being
      the binary64 number nearest to [q].
    - A Python [dict] of edge attributes is a [gmap string Q]; only the
      numeric attributes are kept, the routing code reads no other.
    - Exceptions are values of [exn]; a call returns [Ok v] or [Raise e].
    - The graph is one shared mutable object: functions that touch it are
      written in a state-and-error monad over [world]. *)

From Stdlib Require Import Floats.
From Stdlib Require Import QArith Qround ZArith String List Lia Lqa.
From stdpp Require Import gmap strings list fin_maps.

Local Open Scope Q_scope.
Local Open Scope string_scope.

(** ** Exceptions and results *)

Inductive exn :=
| ValueError (msg : string)
| KeyError (key : string)
| NodeNotFound (msg : string)
| NetworkXNoPath (msg : string)
| LibraryError (msg : string).

Inductive result (A : Type) :=
| Ok (a : A)
| Raise (e : exn).
Arguments Ok {A} a.
Arguments Raise {A} e.

Definition rbind {A B} (r : result A) (k : A -> result B) : result B :=
  match r with
  | Ok a => k a
  | Raise e => Raise e
  end.

#[global] Instance result_ret : MRet result := @Ok.
#[global] Instance result_bind : MBind result := fun A B k r => rbind r k.

(** ** Numbers *)

(** Nearest integer to an exact number, ties to even. *)
Definition rint (x : Q) : Z :=
  let f := Qfloor x in
  match Qcompare (x - inject_Z f) (1 # 2) with
  | Lt => f
  | Gt => (f + 1)%Z
  | Eq => if Z.even f then f else (f + 1)%Z
  end.

(** [round(x, ndigits)] for [ndigits >= 0], on exact numbers. *)
Definition py_round (x : Q) (ndigits : nat) : Q :=
  let p := inject_Z (10 ^ Z.of_nat ndigits) in
  Qred (inject_Z (rint (x * p)) / p).

(** [sum(...)] of a sequence of numbers. *)
Definition qsum (l : list Q) : Q := fold_right Qplus 0 l.

(** [min(...)] of a non-empty sequence; the first least element wins. *)
Definition qmin (a b : Q) : Q := if Qle_bool a b then a else b.
Definition qmin_list (x : Q) (l : list Q) : Q := fold_left qmin l x.

(** ** Vehicle parameters (source lines 16-18) *)

Definition AVERAGE_SPEED_KMH : Q := 30.
Definition FUEL_CONSUMPTION_PER_KM : Q := 0.1.
Definition FUEL_COST_PER_LITER : Q := 5.5.

(** ** Edge attribute dictionaries *)

Abbreviation attrs := (gmap string Q).

(** [d.get(k, dflt)] *)
Definition attr_get (d : attrs) (k : string) (dflt : Q) : Q :=
  match d !! k with
  | Some v => v
  | None => dflt
  end.

(** [d.setdefault(k, v)]: inserts only when the key is absent. *)
Definition setdefault (k : string) (v : Q) (d : attrs) : attrs :=
  match d !! k with
  | Some _ => d
  | None => <[k := v]> d
  end.

(** ** The road network: a networkx [MultiDiGraph] *)

Definition node := Z.
Bind Scope Z_scope with node.

Record node_data := { node_id : node; node_x : Q; node_y : Q }.

(** One directed edge [(u, v, key)] with its attribute dictionary. Parallel
    edges between the same pair differ by [e_key]. *)
Record edge := { e_u : node; e_v : node; e_key : Z; e_data : attrs }.

Record graph := { g_nodes : list node_data; g_edges : list edge }.

(** [G[u][v]]: the parallel edges from [u] to [v], key to attributes, in
    insertion order. *)
Abbreviation keydict := (list (Z * attrs)).

Definition edge_from (u : node) (e : edge) : bool := (e_u e =? u)%Z.
Definition edge_to (v : node) (e : edge) : bool := (e_v e =? v)%Z.
Definition edge_between (u v : node) (e : edge) : bool :=
  edge_from u e && edge_to v e.

Definition key_item (e : edge) : Z * attrs := (e_key e, e_data e).

Definition parallel_edges (g : graph) (u v : node) : keydict :=
  map key_item (List.filter (edge_between u v) (g_edges g)).

Definition has_node (g : graph) (n : node) : bool :=
  existsb (fun d => (node_id d =? n)%Z) (g_nodes g).

(** A route is a sequence of node identifiers. *)
Abbreviation route := (list node).

(** ** OSMnx: [route_to_gdf] *)

(** The edge table OSMnx builds for a route: one row per chosen edge, and
    the column names of the table it was selected from. *)
Record geodataframe := { gdf_columns : gset string; gdf_rows : list attrs }.

(** [zip(route[:-1], route[1:])] *)
Fixpoint pairs (r : route) : list (node * node) :=
  match r with
  | u :: ((v :: _) as tl) => (u, v) :: pairs tl
  | _ => []
  end.

(** [i[1][weight]] for every item of [G[u][v]]; a missing attribute is a
    [KeyError]. *)
Fixpoint item_weights (name : string) (kd : keydict) : result (list Q) :=
  match kd with
  | [] => Ok []
  | (_, d) :: rest =>
      match d !! name with
      | None => Raise (KeyError name)
      | Some w => ws ← item_weights name rest; Ok (w :: ws)
      end
  end.

(** First item of [kd] whose weight is least, scanning left to right as
    Python's [min] does. *)
Fixpoint min_item (best : Z * attrs) (wbest : Q) (kd : keydict) (ws : list Q)
  : Z * attrs :=
  match kd, ws with
  | it :: kd', w :: ws' =>
      if Qle_bool wbest w then min_item best wbest kd' ws'
      else min_item it w kd' ws'
  | _, _ => best
  end.

(** [min(G[u][v].items(), key=lambda i: i[1][weight])] *)
Definition min_parallel_edge (g : graph) (name : string) (uv : node * node)
  : result (Z * attrs) :=
  match parallel_edges g (fst uv) (snd uv) with
  | [] => Raise (KeyError "G[u][v]")
  | it :: rest =>
      ws ← item_weights name (it :: rest);
      match ws with
      | w :: ws' => Ok (min_item it w rest ws')
      | [] => Raise (KeyError name)
      end
  end.

Fixpoint mapM {A B} (f : A -> result B) (l : list A) : result (list B) :=
  match l with
  | [] => Ok []
  | a :: l' => b ← f a; bs ← mapM f l'; Ok (b :: bs)
  end.

(** Edges of [G.subgraph(route)]: both endpoints on the route. *)
Definition on_route (r : route) (e : edge) : bool :=
  existsb (Z.eqb (e_u e)) r && existsb (Z.eqb (e_v e)) r.

Definition subgraph_edges (g : graph) (r : route) : list edge :=
  List.filter (on_route r) (g_edges g).

Definition columns_of (es : list edge) : gset string :=
  foldr (fun e acc => dom (e_data e) ∪ acc) ∅ es.

(** [ox.routing.route_to_gdf(G, route)], with its default [weight="length"]:
    the table of all edges among the route's nodes, restricted to the
    shortest parallel edge of each consecutive pair. *)
Definition route_to_gdf (g : graph) (r : route) : result geodataframe :=
  match subgraph_edges g r with
  | [] => Raise (ValueError "graph contains no edges")
  | es =>
      chosen ← mapM (min_parallel_edge g "length") (pairs r);
      Ok {| gdf_columns := columns_of es; gdf_rows := map snd chosen |}
  end.

(** [gdf[name].sum()]: a [KeyError] when the column does not exist; cells
    that are empty for a row are skipped. *)
Definition column_sum (t : geodataframe) (name : string) : result Q :=
  if decide (name ∈ gdf_columns t)
  then Ok (qsum (map (fun d => attr_get d name 0) (gdf_rows t)))
  else Raise (KeyError name).

(** ** Route statistics (source lines 32-46) *)

(** The returned dictionary, one field per key. *)
Record route_statistics := {
  distancia_km : Q;                     (* "Distância (km)" *)
  tempo_min : Q;                        (* "Tempo (min)" *)
  custo_rs : Q;                         (* "Custo (R$)" *)
  consumo_combustivel_litros : Q;       (* "Consumo de Combustível (litros)" *)
  ganho_elevacao_m : Q                  (* "Ganho de Elevação (m)" *)
}.

(** The function on exact numbers; [Float64.calculate_route_statistics]
    below is the same lines in binary64. *)
Definition calculate_route_statistics (g : graph) (r : route)
  : result route_statistics :=
  route_gdf ← route_to_gdf g r;
  length_sum ← column_sum route_gdf "length";
  let total_distance_km := py_round (length_sum / 1000) 4 in
  let total_time_min := py_round ((total_distance_km / AVERAGE_SPEED_KMH) * 60) 4 in
  let fuel_used_liters := py_round (total_distance_km * FUEL_CONSUMPTION_PER_KM) 4 in
  let total_fuel_cost := py_round (fuel_used_liters * FUEL_COST_PER_LITER) 4 in
  elevation_gain ←
    (if decide ("grade_abs" ∈ gdf_columns route_gdf)
     then s ← column_sum route_gdf "grade_abs"; Ok (py_round s 4)
     else Ok 0);
  Ok {| distancia_km := total_distance_km;
        tempo_min := total_time_min;
        custo_rs := total_fuel_cost;
        consumo_combustivel_litros := fuel_used_liters;
        ganho_elevacao_m := elevation_gain |}.

(** ** networkx: edge weights *)

(** The third argument a weight callable receives. For a plain graph it is
    the attribute dictionary of the edge; for a multigraph networkx passes
    [G[u][v]], the dictionary from integer edge keys to attribute
    dictionaries. *)
Inductive pydict :=
| DictAttrs (d : attrs)
| DictKeys (kd : keydict).

(** [d.get(name, dflt)] with a string [name]: a dictionary indexed by edge
    keys has no string key, so the default comes back. *)
Definition dict_get (d : pydict) (name : string) (dflt : Q) : Q :=
  match d with
  | DictAttrs a => attr_get a name dflt
  | DictKeys _ => dflt
  end.

(** The [weight] argument of a search: an attribute name or a callable. *)
Inductive weight :=
| WeightAttr (name : string)
| WeightFn (f : node -> node -> pydict -> Q).

(** The two lambdas of [find_best_route] (source lines 65 and 68), on exact
    numbers. *)
Definition combustivel_weight (u v : node) (d : pydict) : Q :=
  dict_get d "length" 0 * FUEL_CONSUMPTION_PER_KM
  + (dict_get d "grade_abs" 0 / 100) * dict_get d "length" 0
    * FUEL_CONSUMPTION_PER_KM.

Definition custo_weight (u v : node) (d : pydict) : Q :=
  (dict_get d "length" 0 * FUEL_CONSUMPTION_PER_KM * FUEL_COST_PER_LITER)
  + ((dict_get d "grade_abs" 0 / 100) * dict_get d "length" 0
     * FUEL_CONSUMPTION_PER_KM * FUEL_COST_PER_LITER).

(** [attr.get(weight, 1)]: in networkx's words, "if no such edge attribute
    exists, the weight of the edge is assumed to be one". *)
Definition attr_weight (name : string) (d : attrs) : Q := attr_get d name 1.

(** networkx's [_weight_function(G, weight)] on a multigraph: a callable is
    used as it is; an attribute name stands for
    [min(attr.get(weight, 1) for attr in d.values())]. *)
Definition weight_function (w : weight) (u v : node) (d : keydict) : result Q :=
  match w with
  | WeightFn f => Ok (f u v (DictKeys d))
  | WeightAttr name =>
      match map (fun it => attr_weight name (snd it)) d with
      | [] => Raise (ValueError "min() arg is an empty sequence")
      | x :: xs => Ok (qmin_list x xs)
      end
  end.

(** ** The numbers as Python has them: binary64

    Lengths, grades and every number computed from them are binary64
    numbers in the program, and [round] on them is numpy's. The definitions
    above read each number as the rational it stands for, which serves for
    which route is found and which statistics are larger. Where the last
    digit matters, the same source lines are written here over the
    kernel's binary64 numbers, operation for operation. *)

Module Float64.

(** The binary64 number nearest to a rational, ties to even: the value of
    a decimal written in the source, or of an attribute read as a float. *)
Definition of_Q (q : Q) : float :=
  SF2Prim match Qnum q with
          | Z0 => S754_zero false
          | Zpos n =>
              SFdiv prec emax (S754_finite false n 0) (S754_finite false (Qden q) 0)
          | Zneg n =>
              SFdiv prec emax (S754_finite true n 0) (S754_finite false (Qden q) 0)
          end.

(** [numpy.rint]: the nearest integer, ties to even, the sign kept; the
    integer is found on the exact value [m / 2^k] of the number, by the
    [rint] of exact numbers above. A number with no fractional binary digit
    is left as it is, as are the infinities and NaN. *)
Definition rint (x : float) : float :=
  match Prim2SF x with
  | S754_finite s m (Zneg k) =>
      let n := rint (Zpos m # Pos.pow 2 k) in
      SF2Prim (binary_normalize prec emax (cond_Zopp s n) 0 s)
  | _ => x
  end.

(** [round(x, ndigits)] for [x] a [numpy.float64], as pandas' [sum] returns
    and every number computed from it is: numpy rounds by
    [rint(x * 10**ndigits) / 10**ndigits]. *)
Definition round (x : float) (ndigits : nat) : float :=
  let p := of_Q (inject_Z (10 ^ Z.of_nat ndigits)) in
  (rint (x * p) / p)%float.

#[warnings="-inexact-float"]
Definition FUEL_CONSUMPTION_PER_KM : float := 0.1.
Definition AVERAGE_SPEED_KMH : float := 30.
Definition FUEL_COST_PER_LITER : float := 5.5.

(** A cell of the edge table; pandas skips the empty ones when it adds a
    column up, which is adding 0. *)
Definition cell (name : string) (d : attrs) : float := of_Q (attr_get d name 0).

(** [sum] of a column: the cells are added to 0 from the first row on, as
    numpy does for the few rows of a short route (a long column it adds in
    interleaved partial sums, which can differ in the last digit). *)
Definition sum (l : list float) : float := fold_left PrimFloat.add l 0%float.

Definition column_sum (t : geodataframe) (name : string) : result float :=
  if decide (name ∈ gdf_columns t)
  then Ok (sum (map (cell name) (gdf_rows t)))
  else Raise (KeyError name).

Record route_statistics := {
  distancia_km : float;
  tempo_min : float;
  custo_rs : float;
  consumo_combustivel_litros : float;
  ganho_elevacao_m : float
}.

(** Source lines 32-46. *)
Definition calculate_route_statistics (g : graph) (r : route)
  : result route_statistics :=
  route_gdf ← route_to_gdf g r;
  length_sum ← column_sum route_gdf "length";
  let total_distance_km := round (length_sum / 1000) 4 in
  let total_time_min := round ((total_distance_km / AVERAGE_SPEED_KMH) * 60) 4 in
  let fuel_used_liters := round (total_distance_km * FUEL_CONSUMPTION_PER_KM) 4 in
  let total_fuel_cost := round (fuel_used_liters * FUEL_COST_PER_LITER) 4 in
  elevation_gain ←
    (if decide ("grade_abs" ∈ gdf_columns route_gdf)
     then s ← column_sum route_gdf "grade_abs"; Ok (round s 4)
     else Ok 0%float);
  Ok {| distancia_km := total_distance_km;
        tempo_min := total_time_min;
        custo_rs := total_fuel_cost;
        consumo_combustivel_litros := fuel_used_liters;
        ganho_elevacao_m := elevation_gain |}.

(** [d.get(name, dflt)], as [dict_get] above. *)
Definition dict_get (d : pydict) (name : string) (dflt : float) : float :=
  match d with
  | DictAttrs a =>
      match a !! name with
      | Some q => of_Q q
      | None => dflt
      end
  | DictKeys _ => dflt
  end.

(** The two lambdas (source lines 65 and 68). *)
Definition combustivel_weight (u v : node) (d : pydict) : float :=
  (dict_get d "length" 0 * FUEL_CONSUMPTION_PER_KM
   + (dict_get d "grade_abs" 0 / 100) * dict_get d "length" 0
     * FUEL_CONSUMPTION_PER_KM)%float.

Definition custo_weight (u v : node) (d : pydict) : float :=
  ((dict_get d "length" 0 * FUEL_CONSUMPTION_PER_KM * FUEL_COST_PER_LITER)
   + ((dict_get d "grade_abs" 0 / 100) * dict_get d "length" 0
      * FUEL_CONSUMPTION_PER_KM * FUEL_COST_PER_LITER))%float.

(** [0 <= x]; false of NaN. *)
Definition nonneg (x : float) : Prop := (0 <=? x)%float = true.

End Float64.

(** ** networkx: adjacency *)

(** First occurrences, in order: the key order of a dictionary filled by
    successive insertions. *)
Fixpoint dedup (l : list node) : list node :=
  match l with
  | [] => []
  | x :: l' => x :: List.filter (fun y => negb (y =? x)%Z) (dedup l')
  end.

(** [G._succ[v].items()] *)
Definition successors (g : graph) (v : node) : list (node * keydict) :=
  map (fun w => (w, parallel_edges g v w))
      (dedup (map e_v (List.filter (edge_from v) (g_edges g)))).

(** [G._pred[v].items()] *)
Definition predecessors (g : graph) (v : node) : list (node * keydict) :=
  map (fun u => (u, parallel_edges g u v))
      (dedup (map e_u (List.filter (edge_to v) (g_edges g)))).

(** ** networkx: [bidirectional_dijkstra] *)

Inductive direction := Forward | Backward.

Definition flip (d : direction) : direction :=
  match d with Forward => Backward | Backward => Forward end.

(** A heap entry [(distance, count, node)]. *)
Abbreviation entry := (Q * nat * node)%type.

Definition qlt (a b : Q) : bool := negb (Qle_bool b a).

(** Tuple order on entries; counts are unique, so nodes are never compared. *)
Definition entry_le (a b : entry) : bool :=
  let '(da, ca, _) := a in
  let '(db, cb, _) := b in
  qlt da db || (Qeq_bool da db && (ca <=? cb)%nat).

(** [heappop]: the least entry and the remaining heap. *)
Fixpoint heappop (h : list entry) : option (entry * list entry) :=
  match h with
  | [] => None
  | x :: h' =>
      match heappop h' with
      | None => Some (x, [])
      | Some (m, rest) =>
          if entry_le x m then Some (x, h') else Some (m, x :: rest)
      end
  end.

(** The per-direction variables [dists[dir]], [paths[dir]], [fringe[dir]]
    and [seen[dir]]. *)
Record frontier := {
  dists : gmap node Q;
  paths : gmap node route;
  fringe : list entry;
  seen : gmap node Q
}.

Record search := {
  fwd : frontier;
  bwd : frontier;
  counter : nat;
  finaldist : Q;
  finalpath : route;
  dir : direction
}.

Definition side (d : direction) (st : search) : frontier :=
  match d with Forward => fwd st | Backward => bwd st end.

Definition set_side (d : direction) (f : frontier) (st : search) : search :=
  match d with
  | Forward => {| fwd := f; bwd := bwd st; counter := counter st;
                  finaldist := finaldist st; finalpath := finalpath st;
                  dir := dir st |}
  | Backward => {| fwd := fwd st; bwd := f; counter := counter st;
                   finaldist := finaldist st; finalpath := finalpath st;
                   dir := dir st |}
  end.

(** [neighs[dir][v].items()] with [neighs = [G._succ, G._pred]]. *)
Definition neighs (g : graph) (d : direction) (v : node) : list (node * keydict) :=
  match d with
  | Forward => successors g v
  | Backward => predecessors g v
  end.

(** [m[k]]: a [KeyError] when the key is absent. *)
Definition getitem {A} (m : gmap node A) (k : node) : result A :=
  match m !! k with
  | Some a => Ok a
  | None => Raise (KeyError "node")
  end.

(** The block under [# relaxing]: record the better distance and path to
    [w], push it, and when [w] has now been seen from both ends keep the
    better complete path. *)
Definition relaxing (d : direction) (v w : node) (vwLength : Q) (st : search)
  : result search :=
  let s := side d st in
  pv ← getitem (paths s) v;
  let s' := {| dists := dists s;
               paths := <[w := (pv ++ [w])%list]> (paths s);
               fringe := (vwLength, counter st, w) :: fringe s;
               seen := <[w := vwLength]> (seen s) |} in
  let st1 := set_side d s' st in
  let st2 := {| fwd := fwd st1; bwd := bwd st1; counter := S (counter st1);
                finaldist := finaldist st1; finalpath := finalpath st1;
                dir := dir st1 |} in
  match seen (fwd st2) !! w, seen (bwd st2) !! w with
  | Some d0, Some d1 =>
      let totaldist := d0 + d1 in
      if bool_decide (finalpath st2 = []) || qlt totaldist (finaldist st2) then
        p0 ← getitem (paths (fwd st2)) w;
        p1 ← getitem (paths (bwd st2)) w;
        Ok {| fwd := fwd st2; bwd := bwd st2; counter := counter st2;
              finaldist := totaldist;
              finalpath := (p0 ++ List.tl (rev p1))%list;
              dir := dir st2 |}
      else Ok st2
  | _, _ => Ok st2
  end.

(** One turn of the [for w, d in neighs[dir][v].items()] loop; [dist] is
    [dists[dir][v]]. *)
Definition relax (wf : node -> node -> keydict -> result Q)
    (d : direction) (v : node) (dist : Q) (st : search) (nb : node * keydict)
  : result search :=
  let '(w, kd) := nb in
  cost ← match d with Forward => wf v w kd | Backward => wf w v kd end;
  let vwLength := dist + cost in
  match dists (side d st) !! w with
  | Some dw =>
      if qlt vwLength dw
      then Raise (ValueError "Contradictory paths found: negative weights?")
      else Ok st
  | None =>
      match seen (side d st) !! w with
      | None => relaxing d v w vwLength st
      | Some sw => if qlt vwLength sw then relaxing d v w vwLength st else Ok st
      end
  end.

Fixpoint foldM {A B} (f : A -> B -> result A) (a : A) (l : list B) : result A :=
  match l with
  | [] => Ok a
  | b :: l' => a' ← f a b; foldM f a' l'
  end.

(** What one turn of the [while] loop does: go on with a new state, or
    return the shortest path found. *)
Inductive turn :=
| Continue (st : search)
| Return (r : Q * route).

Definition step (g : graph) (wf : node -> node -> keydict -> result Q)
    (st : search) : result turn :=
  let d := flip (dir st) in
  match heappop (fringe (side d st)) with
  | None => Raise (LibraryError "heappop from an empty heap")
  | Some ((dist, _, v), rest) =>
      let s := side d st in
      let popped := {| dists := dists s; paths := paths s; fringe := rest;
                       seen := seen s |} in
      let st0 := set_side d popped st in
      let st1 := {| fwd := fwd st0; bwd := bwd st0; counter := counter st0;
                    finaldist := finaldist st0; finalpath := finalpath st0;
                    dir := d |} in
      match dists popped !! v with
      | Some _ => Ok (Continue st1)
      | None =>
          let settled := {| dists := <[v := dist]> (dists popped);
                            paths := paths popped; fringe := fringe popped;
                            seen := seen popped |} in
          let st2 := set_side d settled st1 in
          match dists (side (flip d) st2) !! v with
          | Some _ => Ok (Return (finaldist st2, finalpath st2))
          | None =>
              st3 ← foldM (relax wf d v dist) st2 (neighs g d v);
              Ok (Continue st3)
          end
      end
  end.

(** The [while fringe[0] and fringe[1]] loop; when either heap runs empty
    the search raises [NetworkXNoPath]. [None] means the fuel ran out. *)
Fixpoint search_loop (fuel : nat) (g : graph)
    (wf : node -> node -> keydict -> result Q) (st : search)
  : option (result (Q * route)) :=
  match fuel with
  | O => None
  | S fuel' =>
      match fringe (fwd st), fringe (bwd st) with
      | _ :: _, _ :: _ =>
          match step g wf st with
          | Raise e => Some (Raise e)
          | Ok (Return r) => Some (Ok r)
          | Ok (Continue st') => search_loop fuel' g wf st'
          end
      | _, _ => Some (Raise (NetworkXNoPath "No path between source and target."))
      end
  end.

Definition search_init (source target : node) : search :=
  {| fwd := {| dists := ∅; paths := {[source := [source]]};
               fringe := [(0, 0%nat, source)]; seen := {[source := 0]} |};
     bwd := {| dists := ∅; paths := {[target := [target]]};
               fringe := [(0, 1%nat, target)]; seen := {[target := 0]} |};
     counter := 2;
     finaldist := 0;
     finalpath := [];
     dir := Backward |}.

(** Every turn of the loop pops one heap entry, and an entry is pushed at
    most once per adjacency item of a node being settled: this many turns
    always suffice. *)
Definition search_fuel (g : graph) : nat := 3 + 2 * length (g_edges g).

Definition bidirectional_dijkstra (g : graph) (source target : node) (w : weight)
  : result (Q * route) :=
  if negb (has_node g source && has_node g target)
  then Raise (NodeNotFound "Either source or target is not in G")
  else if (source =? target)%Z then Ok (0, [source])
  else
    match search_loop (search_fuel g) g (weight_function w)
                      (search_init source target) with
    | Some r => r
    | None => Raise (LibraryError "search did not finish")
    end.

(** ** OSMnx: [shortest_path] *)

(** What OSMnx's check of the weight attribute raises on a graph without
    edges: it slices the array of all edges' values, and an empty array has
    no such column. *)
Definition no_edges : exn :=
  LibraryError "IndexError: too many indices for array".

(** [ox.shortest_path(G, orig, dest, weight)] for a single pair. OSMnx first
    looks the weight up on every edge ([_verify_edge_attribute]): values
    that are missing only draw a warning, but on a graph without edges the
    lookup itself fails. Then comes networkx's [shortest_path] with
    [method="dijkstra"], wrapped in
    [try ... except nx.exception.NetworkXNoPath], where OSMnx logs the
    failure and returns [None] ("if a path cannot be solved, this will
    return None for that path"). Other exceptions pass through. *)
Definition shortest_path (g : graph) (orig dest : node) (w : weight)
  : result (option route) :=
  match g_edges g with
  | [] => Raise no_edges
  | _ :: _ =>
      match bidirectional_dijkstra g orig dest w with
      | Ok (_, p) => Ok (Some p)
      | Raise (NetworkXNoPath _) => Ok None
      | Raise e => Raise e
      end
  end.

(** ** The shared graph object and the calls made on it *)

(** Library calls and graph traversals, in the order they happen. *)
Inductive event :=
| NearestNodes (x y : Q)
| AddEdgeSpeeds
| AddEdgeTravelTimes
| DefaultLengths
| ShortestPath (orig dest : node).

Record world := { w_graph : graph; w_trace : list event }.

(** Computations that read and update the graph and may raise; what was
    done to the graph before an exception stays done. *)
Definition M (A : Type) : Type := world -> result A * world.

#[global] Instance M_ret : MRet M := fun A a w => (Ok a, w).
#[global] Instance M_bind : MBind M := fun A B k m w =>
  match m w with
  | (Ok a, w') => k a w'
  | (Raise e, w') => (Raise e, w')
  end.

Definition record (ev : event) : M unit := fun w =>
  (Ok tt, {| w_graph := w_graph w; w_trace := (w_trace w ++ [ev])%list |}).

(** A plain computation, run without touching the graph. *)
Definition lift {A} (r : result A) : M A := fun w => (r, w).

(** A call that only reads the graph. *)
Definition reading {A} (f : graph -> result A) : M A := fun w =>
  (f (w_graph w), w).

(** A call that updates the graph in place. *)
Definition updating (f : graph -> result graph) : M unit := fun w =>
  match f (w_graph w) with
  | Ok g' => (Ok tt, {| w_graph := g'; w_trace := w_trace w |})
  | Raise e => (Raise e, w)
  end.

(** ** OSMnx entry points taken as given

    Nearest-node lookup and the speed and travel-time imputation are
    outside the routing core; the development is parametric in them. *)
Record osmnx := {
  nearest_nodes : graph -> Q -> Q -> result node;
  add_edge_speeds : graph -> result graph;
  add_edge_travel_times : graph -> result graph
}.

(** ** Length defaulting (source lines 73-74) *)

Definition map_edge_data (f : attrs -> attrs) (g : graph) : graph :=
  {| g_nodes := g_nodes g;
     g_edges := map (fun e => {| e_u := e_u e; e_v := e_v e; e_key := e_key e;
                                 e_data := f (e_data e) |}) (g_edges g) |}.

(** [for u, v, data in graph.edges(data=True): data.setdefault('length', 0)] *)
Definition default_lengths (g : graph) : graph :=
  map_edge_data (setdefault "length" 0) g.

(** ** Route search (source lines 49-77) *)

Definition invalid_priority : exn :=
  ValueError "Prioridade inválida. Escolha entre 'distancia', 'tempo', 'combustivel' ou 'custo'.".

(** The criteria the program runs (source line 161). *)
Definition criteria : list string := ["distancia"; "tempo"; "combustivel"; "custo"].

(** The [if]/[elif] chain of lines 59-70. *)
Definition select_weight (priority : string) : result weight :=
  if String.eqb priority "distancia" then Ok (WeightAttr "length")
  else if String.eqb priority "tempo" then Ok (WeightAttr "travel_time")
  else if String.eqb priority "combustivel" then Ok (WeightFn combustivel_weight)
  else if String.eqb priority "custo" then Ok (WeightFn custo_weight)
  else Raise invalid_priority.

Definition find_best_route (ox : osmnx) (point_a point_b : Q * Q)
    (priority : string) : M (option route) :=
  orig_node ← (record (NearestNodes (snd point_a) (fst point_a));;
               reading (fun g => nearest_nodes ox g (snd point_a) (fst point_a)));
  dest_node ← (record (NearestNodes (snd point_b) (fst point_b));;
               reading (fun g => nearest_nodes ox g (snd point_b) (fst point_b)));
  (if String.eqb priority "tempo"
   then record AddEdgeSpeeds;; updating (add_edge_speeds ox);;
        record AddEdgeTravelTimes;; updating (add_edge_travel_times ox)
   else mret tt);;
  weight ← lift (select_weight priority);
  record DefaultLengths;; updating (fun g => Ok (default_lengths g));;
  record (ShortestPath orig_node dest_node);;
  reading (fun g => shortest_path g orig_node dest_node weight).

(** ** A stand-in for the OSMnx entry points

    Enough to run scenarios: the nearest node by planar distance, the speed
    limit recorded on each edge as its speed, and travel time in seconds
    from length and speed. The stand-in answers as OSMnx does on the graphs
    the scenarios use; what it does not cover it refuses.  *)

Definition sqdist (n : node_data) (x y : Q) : Q :=
  (node_x n - x) * (node_x n - x) + (node_y n - y) * (node_y n - y).

Definition planar_nearest_nodes (g : graph) (x y : Q) : result node :=
  match g_nodes g with
  | [] => Raise (ValueError "graph contains no nodes")
  | n :: ns =>
      Ok (node_id (fold_left (fun best m =>
            if qlt (sqdist m x y) (sqdist best x y) then m else best) ns n))
  end.

(** The edge carries the attribute. *)
Definition has_attr (name : string) (e : edge) : bool :=
  bool_decide (is_Some (e_data e !! name)).

Definition speed_of (d : attrs) : attrs :=
  match d !! "maxspeed" with
  | Some s => <["speed_kph" := s]> d
  | None => d
  end.

(** [ox.add_edge_speeds(G)] where every edge has a road class ([highway],
    kept here as a numeric code) and a speed limit ([maxspeed]): the limit
    becomes the edge's [speed_kph]. Without any [highway] on the edges the
    library fails on the missing column, without any [maxspeed] it has no
    speed to start from, and without any edge it fails on the empty edge
    table. Averaging the limits of a road class for the edges that have
    none is left out. *)
Definition recorded_edge_speeds (g : graph) : result graph :=
  match g_edges g with
  | [] => Raise (ValueError "graph contains no edges")
  | es =>
      if negb (existsb (has_attr "highway") es) then Raise (KeyError "highway")
      else if negb (existsb (has_attr "maxspeed") es)
      then Raise (ValueError "this graph's edges have no preexisting `maxspeed` attribute values so you must pass `hwy_speeds` or `fallback` arguments.")
      else if forallb (fun e => has_attr "highway" e && has_attr "maxspeed" e) es
      then Ok (map_edge_data speed_of g)
      else Raise (LibraryError "imputing the speed of an edge without maxspeed is left out")
  end.

(** [distance_km / speed_km_sec], in seconds. *)
Definition travel_time_of (d : attrs) : attrs :=
  <["travel_time" := (attr_get d "length" 0 / 1000)
                     / (attr_get d "speed_kph" 1 / (60 * 60))]> d.

(** [ox.add_edge_travel_times(G)]: a [KeyError] when no edge has a [length]
    or none a [speed_kph], a [ValueError] when some edge lacks one of them.
    A speed of zero, for which the library stores an infinite time, is left
    out. *)
Definition recorded_edge_travel_times (g : graph) : result graph :=
  match g_edges g with
  | [] => Raise (ValueError "graph contains no edges")
  | es =>
      if negb (existsb (has_attr "length") es && existsb (has_attr "speed_kph") es)
      then Raise (KeyError "all edges must have `length` and `speed_kph` attributes.")
      else if negb (forallb (fun e => has_attr "length" e && has_attr "speed_kph" e) es)
      then Raise (ValueError "edge `length` and `speed_kph` values must be non-null.")
      else if existsb (fun e => Qeq_bool (attr_get (e_data e) "speed_kph" 1) 0) es
      then Raise (LibraryError "a speed of zero is left out")
      else Ok (map_edge_data travel_time_of g)
  end.

Definition planar_osmnx : osmnx :=
  {| nearest_nodes := planar_nearest_nodes;
     add_edge_speeds := recorded_edge_speeds;
     add_edge_travel_times := recorded_edge_travel_times |}.

(** ** Scenario graphs *)

Definition edge_attrs (len grade : Q) : attrs :=
  <["length" := len]> (<["grade_abs" := grade]> ∅).

(** Three nodes A=1, B=2, C=3 on a line, A -> B of 1000 m and B -> C of
    2000 m, both flat. *)
Definition line_graph : graph :=
  {| g_nodes := [ {| node_id := 1; node_x := 0; node_y := 0 |};
                  {| node_id := 2; node_x := 1; node_y := 0 |};
                  {| node_id := 3; node_x := 3; node_y := 0 |} ];
     g_edges := [ {| e_u := 1; e_v := 2; e_key := 0; e_data := edge_attrs 1000 0 |};
                  {| e_u := 2; e_v := 3; e_key := 0; e_data := edge_attrs 2000 0 |} ] |}.

(** Two roads that do not meet: 1 -> 2 and 3 -> 4. *)
Definition islands_graph : graph :=
  {| g_nodes := [ {| node_id := 1; node_x := 0; node_y := 0 |};
                  {| node_id := 2; node_x := 1; node_y := 0 |};
                  {| node_id := 3; node_x := 5; node_y := 0 |};
                  {| node_id := 4; node_x := 6; node_y := 0 |} ];
     g_edges := [ {| e_u := 1; e_v := 2; e_key := 0; e_data := edge_attrs 1000 0 |};
                  {| e_u := 3; e_v := 4; e_key := 0; e_data := edge_attrs 1000 0 |} ] |}.

(** The attributes of a road of a given length, grade and speed limit; the
    road class is kept as a code. *)
Definition road_attrs (len grade maxspeed : Q) : attrs :=
  <["highway" := 1]> (<["maxspeed" := maxspeed]> (edge_attrs len grade)).

(** The three nodes on a line again, the two roads now with a class and a
    speed limit of 30 km/h. *)
Definition road_graph : graph :=
  {| g_nodes := g_nodes line_graph;
     g_edges := [ {| e_u := 1; e_v := 2; e_key := 0; e_data := road_attrs 1000 0 30 |};
                  {| e_u := 2; e_v := 3; e_key := 0; e_data := road_attrs 2000 0 30 |} ] |}.

(** Two ways from 1 to 3: through 2 by two flat roads of 10 m each, or
    directly by a road of 100 km with a grade of 5. *)
Definition detour_graph : graph :=
  {| g_nodes := g_nodes line_graph;
     g_edges := [ {| e_u := 1; e_v := 2; e_key := 0; e_data := edge_attrs 10 0 |};
                  {| e_u := 2; e_v := 3; e_key := 0; e_data := edge_attrs 10 0 |};
                  {| e_u := 1; e_v := 3; e_key := 0; e_data := edge_attrs 100000 5 |} ] |}.

(** A single short segment of 12.3 m. *)
Definition short_graph : graph :=
  {| g_nodes := [ {| node_id := 1; node_x := 0; node_y := 0 |};
                  {| node_id := 2; node_x := 1; node_y := 0 |} ];
     g_edges := [ {| e_u := 1; e_v := 2; e_key := 0; e_data := edge_attrs 12.3 0 |} ] |}.

Definition empty_graph : graph := {| g_nodes := []; g_edges := [] |}.

(** A graph nothing has been done to yet. *)
Definition fresh (g : graph) : world := {| w_graph := g; w_trace := [] |}.

(** ** Python's [min] and [max] *)

(** [max] keeps the first greatest element, as [min] keeps the first
    least. *)
Definition qmax (a b : Q) : Q := if qlt a b then b else a.
Definition qmax_list (x : Q) (l : list Q) : Q := fold_left qmax l x.

(** [min(l)] and [max(l)] of a list: a [ValueError] when it is empty. *)
Definition py_min (l : list Q) : result Q :=
  match l with
  | [] => Raise (ValueError "min() arg is an empty sequence")
  | x :: xs => Ok (qmin_list x xs)
  end.

Definition py_max (l : list Q) : result Q :=
  match l with
  | [] => Raise (ValueError "max() arg is an empty sequence")
  | x :: xs => Ok (qmax_list x xs)
  end.

(** ** The map of a route (source lines 80-101) *)

(** [graph.nodes[node]]: a [KeyError] for a node the graph does not have. *)
Definition node_attrs (g : graph) (n : node) : result node_data :=
  match List.find (fun d => (node_id d =? n)%Z) (g_nodes g) with
  | Some d => Ok d
  | None => Raise (KeyError "node")
  end.

(** What [ox.plot_graph_route] draws is taken as given; it may raise. *)
Record plotting := {
  plot_graph_route : graph -> route -> result unit
}.

(** The figure as [fig.savefig] writes it: the file name, the axis limits
    and the title set on it. *)
Record route_map := {
  map_file : string;
  map_xlim : Q * Q;
  map_ylim : Q * Q;
  map_title : string
}.

(** The limits are computed in the order the arguments are evaluated:
    [min] and [max] of the x coordinates, then of the y coordinates. *)
Definition save_route_map (px : plotting) (g : graph) (r : route)
    (filename : string) : result route_map :=
  plot_graph_route px g r;;
  route_nodes ← mapM (node_attrs g) r;
  let x_coords := map node_x route_nodes in
  let y_coords := map node_y route_nodes in
  x_min ← py_min x_coords;
  x_max ← py_max x_coords;
  y_min ← py_min y_coords;
  y_max ← py_max y_coords;
  Ok {| map_file := filename;
        map_xlim := (x_min - 0.01, x_max + 0.01);
        map_ylim := (y_min - 0.01, y_max + 0.01);
        map_title := "Rota de A para B | Santo André" |}.

(** A stand-in for the plot, to run scenarios. It draws nothing and raises
    where [ox.plot_graph_route] does on its way: the graph itself is
    plotted first and needs an edge; the first and last node of the route
    are marked ([route[0]], [G.nodes[...]]); then the shortest parallel edge
    of every consecutive pair is looked up. *)
Definition plot_edge (g : graph) (uv : node * node) : result unit :=
  match parallel_edges g (fst uv) (snd uv) with
  | [] => Raise (LibraryError "AttributeError: 'NoneType' object has no attribute 'values'")
  | kd => item_weights "length" kd;; Ok tt
  end.

Definition checked_plot (g : graph) (r : route) : result unit :=
  match g_edges g with
  | [] => Raise (ValueError "graph contains no edges")
  | _ :: _ =>
      match head r, last r with
      | Some first, Some final =>
          node_attrs g first;; node_attrs g final;;
          mapM (plot_edge g) (pairs r);; Ok tt
      | _, _ => Raise (LibraryError "IndexError: list index out of range")
      end
  end.

Definition checked_plotting : plotting :=
  {| plot_graph_route := checked_plot |}.

(** ** The script's loop over the criteria (source lines 161-173) *)

(** The two reference points (lines 28-29), latitude first. *)
Definition POINT_A : Q * Q := (-23.6531797, -46.5313029).
Definition POINT_B : Q * Q := (-20.0228668, -44.7984994).

(** [f'route_map_{crit}.png'] *)
Definition map_filename (crit : string) : string :=
  "route_map_" ++ crit ++ ".png".

(** The two lists the loop fills, and the maps it has written. *)
Record outputs := {
  stats_list : list route_statistics;
  route_map_paths : list string;
  saved_maps : list route_map
}.

Definition no_outputs : outputs :=
  {| stats_list := []; route_map_paths := []; saved_maps := [] |}.

(** What slicing [None] raises in [route_to_gdf] when the search found no
    path: a [TypeError]. *)
Definition none_route : exn :=
  LibraryError "TypeError: 'NoneType' object is not subscriptable".

(** One turn of the loop (lines 166-173): search, statistics, map. Both
    later calls get the graph as the search left it. With [None] for a
    route, [calculate_route_statistics] raises at once, in [route_to_gdf].
    What the turn appends to the two lists shows only when it completes:
    an exception ends the script. *)
Definition route_for (ox : osmnx) (px : plotting) (point_a point_b : Q * Q)
    (crit : string) (out : outputs) : M outputs :=
  found ← find_best_route ox point_a point_b crit;
  match found with
  | None => lift (Raise none_route)
  | Some r =>
      stats ← reading (fun g => calculate_route_statistics g r);
      saved ← reading (fun g => save_route_map px g r (map_filename crit));
      mret {| stats_list := (stats_list out ++ [stats])%list;
              route_map_paths := (route_map_paths out ++ [map_filename crit])%list;
              saved_maps := (saved_maps out ++ [saved])%list |}
  end.

Fixpoint route_loop (ox : osmnx) (px : plotting) (point_a point_b : Q * Q)
    (crits : list string) (out : outputs) : M outputs :=
  match crits with
  | [] => mret out
  | crit :: rest =>
      out' ← route_for ox px point_a point_b crit out;
      route_loop ox px point_a point_b rest out'
  end.

(** Lines 161-173 on the graph the script has built. *)
Definition script (ox : osmnx) (px : plotting) : M outputs :=
  route_loop ox px POINT_A POINT_B criteria no_outputs.

(** ** Scenario graphs at the script's two points *)

(** Node 1 at the script's point A and node 2 at its point B, with one
    road of 450 km from A to B, limited to 90 km/h. *)
Definition towns_graph : graph :=
  {| g_nodes := [ {| node_id := 1; node_x := snd POINT_A; node_y := fst POINT_A |};
                  {| node_id := 2; node_x := snd POINT_B; node_y := fst POINT_B |} ];
     g_edges := [ {| e_u := 1; e_v := 2; e_key := 0;
                     e_data := road_attrs 450000 0 90 |} ] |}.

(** The same two nodes with the road running from B to A only. *)
Definition one_way_graph : graph :=
  {| g_nodes := g_nodes towns_graph;
     g_edges := [ {| e_u := 2; e_v := 1; e_key := 0;
                     e_data := road_attrs 450000 0 90 |} ] |}.

(** * Vocabulary of the statements *)

(** ** Attributes and weights *)

(** An attribute that is never negative on the graph's edges. *)
Definition nonneg_attr (name : string) (g : graph) : Prop :=
  forall e, In e (g_edges g) ->
  forall q, e_data e !! name = Some q -> 0 <= q.

(** The same, as a check that can be run on a given graph. *)
Definition check_nonneg_attr (name : string) (g : graph) : bool :=
  forallb (fun e => match e_data e !! name with
                    | Some q => Qle_bool 0 q
                    | None => true
                    end) (g_edges g).

(** The weight the search is given is non-negative on every edge of the
    graph. *)
Definition weight_nonneg (g : graph) (w : weight) : Prop :=
  match w with
  | WeightAttr name => nonneg_attr name g
  | WeightFn f => forall u v kd, 0 <= f u v (DictKeys kd)
  end.

(** The graph as lines 54-56 leave it: with speeds and travel times when
    the priority is [tempo], untouched otherwise. *)
Definition derive (ox : osmnx) (priority : string) (g : graph) : result graph :=
  if String.eqb priority "tempo"
  then g1 ← add_edge_speeds ox g; add_edge_travel_times ox g1
  else Ok g.

(** ** Edges and reachability *)

(** There is an edge from [u] to [v]. *)
Definition edge_rel (g : graph) (u v : node) : Prop :=
  exists e, In e (g_edges g) /\ e_u e = u /\ e_v e = v.

(** [v] can be reached from [u] along directed edges. *)
Definition reachable (g : graph) : node -> node -> Prop := rtc (edge_rel g).

(** A nearest-node lookup, as opposed to any other call on the graph. *)
Definition is_lookup (ev : event) : Prop :=
  match ev with
  | NearestNodes _ _ => True
  | _ => False
  end.

(** [p] is a path of the graph from its first node [u] to its last node
    [v]: every two consecutive nodes are joined by an edge. *)
Inductive is_path (g : graph) : node -> node -> route -> Prop :=
| path_end (u : node) : is_path g u u [u]
| path_edge (u v w : node) (p : route) :
    edge_rel g u v -> is_path g v w p -> is_path g u w (u :: p).

(** No edge leaves the set of nodes [inside]. *)
Definition closed_set (g : graph) (inside : node -> bool) : bool :=
  forallb (fun e => implb (inside (e_u e)) (inside (e_v e))) (g_edges g).

(** The end of an edge a search direction leaves from. *)
Definition endpoint (d : direction) (e : edge) : node :=
  match d with Forward => e_u e | Backward => e_v e end.

Definition edges_at (g : graph) (d : direction) (v : node) : list edge :=
  List.filter (fun e => (endpoint d e =? v)%Z) (g_edges g).

(** One step of a search direction: along an edge forward, against it
    backward. *)
Definition link (g : graph) (d : direction) (v w : node) : Prop :=
  match d with Forward => edge_rel g v w | Backward => edge_rel g w v end.

(** ** Invariant and measure of the bidirectional search *)

Definition entry_dist (x : entry) : Q := fst (fst x).

(** The state of one side after [# relaxing] towards [w]. *)
Definition pushed (s : frontier) (pv : route) (w : node) (len : Q) (c : nat) : frontier :=
  {| dists := dists s;
     paths := <[w := (pv ++ [w])%list]> (paths s);
     fringe := (len, c, w) :: fringe s;
     seen := <[w := len]> (seen s) |}.

(** What a side's recorded path to [n] is: forward, a path from the
    source to [n]; backward, a path from [n] to the target written in
    reverse. *)
Definition path_dir (g : graph) (source target : node) (d : direction)
    (n : node) (p : route) : Prop :=
  match d with
  | Forward => is_path g source n p
  | Backward => is_path g n target (rev p)
  end.

(** One side of the search: every node in the heap, with a final or a
    tentative distance has a recorded path and the other way round; the
    recorded paths are paths of the graph; no final distance exceeds a
    distance still in the heap. *)
Record frontier_ok (g : graph) (source target : node) (d : direction) (s : frontier)
  : Prop := {
  ok_fringe : forall x c n, In (x, c, n) (fringe s) -> is_Some (paths s !! n);
  ok_dists : forall n, is_Some (dists s !! n) -> is_Some (paths s !! n);
  ok_seen : forall n, is_Some (seen s !! n) -> is_Some (paths s !! n);
  ok_known : forall n, is_Some (paths s !! n) -> is_Some (seen s !! n);
  ok_walk : forall n p, paths s !! n = Some p -> path_dir g source target d n p;
  ok_order : forall x c n m dm,
    In (x, c, n) (fringe s) -> dists s !! m = Some dm -> dm <= x
}.
Arguments ok_fringe {g source target d s} _ _ _ _ _.
Arguments ok_dists {g source target d s} _ _ _.
Arguments ok_seen {g source target d s} _ _ _.
Arguments ok_known {g source target d s} _ _ _.
Arguments ok_walk {g source target d s} _ _ _ _.
Arguments ok_order {g source target d s} _ _ _ _ _ _ _ _.

Definition sides_ok (g : graph) (source target : node) (st : search) : Prop :=
  frontier_ok g source target Forward (fwd st)
  /\ frontier_ok g source target Backward (bwd st).

(** The best complete path found so far: it is a path from the source to
    the target, and there is one as soon as some node has been seen from
    both ends. *)
Definition final_ok (g : graph) (source target : node) (st : search) : Prop :=
  (finalpath st = [] \/ is_path g source target (finalpath st))
  /\ (forall n, is_Some (seen (fwd st) !! n) -> is_Some (seen (bwd st) !! n) ->
       finalpath st <> []).

Definition search_ok (g : graph) (source target : node) (st : search) : Prop :=
  sides_ok g source target st /\ final_ok g source target st.

(** What holds while the neighbours of the node [v] just settled at
    distance [dist] are being relaxed. *)
Definition relax_ready (g : graph) (source target : node) (d : direction)
    (v : node) (dist : Q) (st : search) : Prop :=
  search_ok g source target st
  /\ is_Some (paths (side d st) !! v)
  /\ forall m dm, dists (side d st) !! m = Some dm -> dm <= dist.

(** An edge whose end on this side has no final distance yet. *)
Definition unsettled (d : direction) (m : gmap node Q) (e : edge) : bool :=
  negb (bool_decide (is_Some (m !! endpoint d e))).

Definition side_measure (g : graph) (d : direction) (s : frontier) : nat :=
  length (fringe s) + length (List.filter (unsettled d (dists s)) (g_edges g)).

(** Heap entries left to pop plus adjacency still to scan: it drops with
    every turn of the loop. *)
Definition search_measure (g : graph) (st : search) : nat :=
  side_measure g Forward (fwd st) + side_measure g Backward (bwd st).

(** What the [for] loop over the neighbours of a node leaves alone and how
    much it may push. *)
Definition grown (d : direction) (n : nat) (st st' : search) : Prop :=
  fringe (side (flip d) st') = fringe (side (flip d) st)
  /\ dists (side (flip d) st') = dists (side (flip d) st)
  /\ dists (side d st') = dists (side d st)
  /\ (length (fringe (side d st')) <= length (fringe (side d st)) + n)%nat.

(** ** Graphs with a length on every edge *)

Definition has_lengths (g : graph) : Prop :=
  forall e, In e (g_edges g) -> is_Some (e_data e !! "length").

Definition check_has_lengths (g : graph) : bool :=
  forallb (fun e => bool_decide (is_Some (e_data e !! "length"))) (g_edges g).

(** The edge [e'] is the edge [e] with, at most, a length of 0 added. *)
Definition defaulted (e e' : edge) : Prop :=
  e_u e' = e_u e /\ e_v e' = e_v e /\ e_key e' = e_key e
  /\ (forall k, k <> "length" -> e_data e' !! k = e_data e !! k)
  /\ e_data e' !! "length" = Some (attr_get (e_data e) "length" 0).

(** ** Exploration of the bidirectional search *)

(** The node has an entry in the heap. *)
Definition in_fringe (s : frontier) (n : node) : Prop :=
  exists x c, In (x, c, n) (fringe s).

(** One side of the search keeps up with what it has seen: its starting
    node was seen; every node seen has its final distance or waits in the
    heap; and every neighbour of a node with a final distance has been
    seen, but for the neighbours [pending] of the node [v] being
    relaxed. *)
Record frontier_full (g : graph) (d : direction) (start : node)
    (v : node) (pending : list node) (s : frontier) : Prop := {
  full_start : is_Some (seen s !! start);
  full_seen : forall n, is_Some (seen s !! n) ->
    is_Some (dists s !! n) \/ in_fringe s n;
  full_neighs : forall n m, is_Some (dists s !! n) -> link g d n m ->
    is_Some (seen s !! m) \/ (n = v /\ In m pending)
}.
Arguments full_start {g d start v pending s} _.
Arguments full_seen {g d start v pending s} _ _ _.
Arguments full_neighs {g d start v pending s} _ _ _ _ _.

(** Where a side starts from. *)
Definition start_of (source target : node) (d : direction) : node :=
  match d with Forward => source | Backward => target end.

(** The first entry of a side's heap. *)
Definition first_entry (source target : node) (d : direction) : entry :=
  match d with
  | Forward => (0, 0%nat, source)
  | Backward => (0, 1%nat, target)
  end.

(** Each side has given its starting node a final distance or has not yet
    been popped at all. *)
Definition started (source target : node) (d : direction) (st : search) : Prop :=
  is_Some (dists (side d st) !! start_of source target d)
  \/ fringe (side d st) = [first_entry source target d].

(** While the loop runs, neither side has given a final distance to the
    other side's starting node, and the sides take turns, the forward side
    first. *)
Record search_full (g : graph) (source target : node) (st : search) : Prop := {
  full_fwd : frontier_full g Forward source source [] (fwd st);
  full_bwd : frontier_full g Backward target target [] (bwd st);
  full_started : forall d, started source target d st;
  full_turn_fwd : dir st = Forward -> is_Some (dists (fwd st) !! source);
  full_turn_bwd : dir st = Backward -> is_Some (dists (fwd st) !! source) ->
    is_Some (dists (bwd st) !! target);
  full_target : dists (fwd st) !! target = None;
  full_source : dists (bwd st) !! source = None
}.
Arguments full_fwd {g source target st} _.
Arguments full_bwd {g source target st} _.
Arguments full_started {g source target st} _ _.
Arguments full_turn_fwd {g source target st} _ _.
Arguments full_turn_bwd {g source target st} _ _ _.
Arguments full_target {g source target st} _.
Arguments full_source {g source target st} _.

(** ** Searches that run alike *)

(** Equal results, distances compared as numbers. *)
Definition same_dist (a b : option Q) : Prop :=
  match a, b with
  | Some x, Some y => x == y
  | None, None => True
  | _, _ => False
  end.

Definition same_entry (x y : entry) : Prop :=
  entry_dist x == entry_dist y /\ snd (fst x) = snd (fst y) /\ snd x = snd y.

Record same_frontier (s s' : frontier) : Prop := {
  same_dists : forall n, same_dist (dists s !! n) (dists s' !! n);
  same_paths : paths s = paths s';
  same_fringe : Forall2 same_entry (fringe s) (fringe s');
  same_seen : forall n, same_dist (seen s !! n) (seen s' !! n)
}.
Arguments same_dists {s s'} _ _.
Arguments same_paths {s s'} _.
Arguments same_fringe {s s'} _.
Arguments same_seen {s s'} _ _.

Record same_search (st st' : search) : Prop := {
  same_fwd : same_frontier (fwd st) (fwd st');
  same_bwd : same_frontier (bwd st) (bwd st');
  same_counter : counter st = counter st';
  same_finaldist : finaldist st == finaldist st';
  same_finalpath : finalpath st = finalpath st';
  same_dir : dir st = dir st'
}.
Arguments same_fwd {st st'} _.
Arguments same_bwd {st st'} _.
Arguments same_counter {st st'} _.
Arguments same_finaldist {st st'} _.
Arguments same_finalpath {st st'} _.
Arguments same_dir {st st'} _.

(** Two computations fail alike or succeed with related values. *)
Definition same_result {A} (R : A -> A -> Prop) (r r' : result A) : Prop :=
  match r, r' with
  | Ok a, Ok a' => R a a'
  | Raise e, Raise e' => e = e'
  | _, _ => False
  end.

Definition same_turn (t t' : turn) : Prop :=
  match t, t' with
  | Continue st, Continue st' => same_search st st'
  | Return r, Return r' => fst r == fst r' /\ snd r = snd r'
  | _, _ => False
  end.

(** The cost of the edges from [v] to the neighbour [nb], as [relax]
    computes it. *)
Definition cost_of (wf : node -> node -> keydict -> result Q) (d : direction)
    (v : node) (nb : node * keydict) : result Q :=
  match d with
  | Forward => wf v (fst nb) (snd nb)
  | Backward => wf (fst nb) v (snd nb)
  end.

(** The same neighbour at the same cost. *)
Definition same_neighbour (wf wf' : node -> node -> keydict -> result Q)
    (d : direction) (v : node) (nb nb' : node * keydict) : Prop :=
  fst nb = fst nb' /\ same_result Qeq (cost_of wf d v nb) (cost_of wf' d v nb').

(** Two weighted graphs a search cannot tell apart. *)
Definition same_neighbours (g g' : graph)
    (wf wf' : node -> node -> keydict -> result Q) : Prop :=
  forall d v, Forall2 (same_neighbour wf wf' d v) (neighs g d v) (neighs g' d v).

(** ** Routes and their edges *)

(** The least length among the parallel edges of a pair of nodes; an edge
    without a length counts as 0, no edge at all as 0. *)
Definition shortest_parallel (g : graph) (uv : node * node) : Q :=
  match map (fun it => attr_get (snd it) "length" 0)
            (parallel_edges g (fst uv) (snd uv)) with
  | [] => 0
  | x :: xs => qmin_list x xs
  end.

(** The length of a route: the shortest parallel edge of every two
    consecutive nodes. *)
Definition route_length (g : graph) (r : route) : Q :=
  qsum (map (shortest_parallel g) (pairs r)).

(** Two consecutive nodes of the route that no edge joins. *)
Definition has_gap (g : graph) (r : route) : Prop :=
  exists uv, In uv (pairs r) /\ parallel_edges g (fst uv) (snd uv) = [].

(** ** Costs of paths, and the bookkeeping of a shortest-path search *)

(** What the search charges for going from [u] to [v]: the weight of
    their parallel edges. *)
Definition edge_cost (g : graph) (wf : node -> node -> keydict -> result Q)
    (u v : node) : Q :=
  match wf u v (parallel_edges g u v) with
  | Ok c => c
  | Raise _ => 0
  end.

(** The cost of one step of a search direction. *)
Definition link_cost (g : graph) (wf : node -> node -> keydict -> result Q)
    (d : direction) (n m : node) : Q :=
  match d with
  | Forward => edge_cost g wf n m
  | Backward => edge_cost g wf m n
  end.

(** The cost of a sequence of nodes walked in a search direction. *)
Definition dcost (g : graph) (wf : node -> node -> keydict -> result Q)
    (d : direction) (p : route) : Q :=
  qsum (map (fun nm => link_cost g wf d (fst nm) (snd nm)) (pairs p)).

(** The total weight of a route. *)
Definition walk_cost (g : graph) (wf : node -> node -> keydict -> result Q)
    (p : route) : Q :=
  dcost g wf Forward p.

(** A sequence of nodes from [u] to [v], each step a step of the search
    direction: forward a path of the graph, backward a path written from
    its end. *)
Inductive walk (g : graph) (d : direction) : node -> node -> route -> Prop :=
| walk_end (u : node) : walk g d u u [u]
| walk_step (u v w : node) (p : route) :
    link g d u v -> walk g d v w p -> walk g d u w (u :: p).

(** One side of the search keeps its books: the tentative distance of a
    node is the cost of its recorded path; a final distance is the
    tentative one, and no walk from the side's start reaches the node for
    less; every node seen and not yet final waits in the heap under its
    tentative distance, and no heap entry of such a node is below it;
    every step out of a node with a final distance has been relaxed, but
    for the steps to [pending] out of the node [v] being relaxed. *)
Record frontier_opt (g : graph) (wf : node -> node -> keydict -> result Q)
    (d : direction) (start v : node) (pending : list node) (s : frontier)
  : Prop := {
  opt_start : exists x, seen s !! start = Some x /\ x <= 0;
  opt_seen : forall n x, seen s !! n = Some x ->
    exists p, paths s !! n = Some p /\ x == dcost g wf d p;
  opt_dists : forall n x, dists s !! n = Some x ->
    exists sx, seen s !! n = Some sx /\ x == sx;
  opt_fringe : forall x c n, In (x, c, n) (fringe s) -> dists s !! n = None ->
    exists sx, seen s !! n = Some sx /\ sx <= x;
  opt_waiting : forall n sx, seen s !! n = Some sx -> dists s !! n = None ->
    exists x c, In (x, c, n) (fringe s) /\ x == sx;
  opt_relaxed : forall n m x, dists s !! n = Some x -> link g d n m ->
    (exists sm, seen s !! m = Some sm /\ sm <= x + link_cost g wf d n m)
    \/ (n = v /\ In m pending);
  opt_least : forall n x p, dists s !! n = Some x -> walk g d start n p ->
    x <= dcost g wf d p
}.
Arguments opt_start {g wf d start v pending s} _.
Arguments opt_seen {g wf d start v pending s} _ _ _ _.
Arguments opt_dists {g wf d start v pending s} _ _ _ _.
Arguments opt_fringe {g wf d start v pending s} _ _ _ _ _ _.
Arguments opt_waiting {g wf d start v pending s} _ _ _ _ _.
Arguments opt_relaxed {g wf d start v pending s} _ _ _ _ _ _.
Arguments opt_least {g wf d start v pending s} _ _ _ _ _ _.

(** The best complete path so far costs what is recorded for it, and it
    is no worse than meeting at any node seen from both ends. *)
Record search_opt (g : graph) (wf : node -> node -> keydict -> result Q)
    (st : search) : Prop := {
  opt_final : finalpath st <> [] -> finaldist st == walk_cost g wf (finalpath st);
  opt_meet : forall w x y,
    seen (fwd st) !! w = Some x -> seen (bwd st) !! w = Some y ->
    finalpath st <> [] /\ finaldist st <= x + y
}.
Arguments opt_final {g wf st} _ _.
Arguments opt_meet {g wf st} _ _ _ _ _ _.

(** The two sides of a search that keeps its books. *)
Definition sides_opt (g : graph) (wf : node -> node -> keydict -> result Q)
    (source target : node) (st : search) : Prop :=
  forall d, frontier_opt g wf d (start_of source target d)
              (start_of source target d) [] (side d st).

(** The total weight a criterion's search minimises, read off the
    attribute or callable it selects. *)
Definition route_weight (g : graph) (w : weight) (p : route) : Q :=
  walk_cost g (weight_function w) p.

(** ** Binary64 numbers *)

(** A binary64 number that is not NaN, by its sign. *)
Definition sf_signed (sx : bool) (s : spec_float) : Prop :=
  match s with
  | S754_zero s' | S754_finite s' _ _ | S754_infinity s' => s' = sx
  | S754_nan => False
  end.

(** Zero of either sign, a positive number or plus infinity. *)
Definition sf_nonneg (s : spec_float) : Prop :=
  match s with
  | S754_zero _ | S754_finite false _ _ | S754_infinity false => True
  | _ => False
  end.

(** A positive finite number, as the constants of the program are. *)
Definition sf_positive (s : spec_float) : Prop :=
  match s with
  | S754_finite false _ _ => True
  | _ => False
  end.

(** The lengths a route is made of, as binary64 numbers: the shortest
    parallel edge of every two consecutive nodes. *)
Definition route_lengths (g : graph) (r : route) : list float :=
  map (fun uv => Float64.of_Q (shortest_parallel g uv)) (pairs r).

(** ** Calls of a search *)

(** A call made before lengths are defaulted and a path is searched. *)
Definition before_search (ev : event) : Prop :=
  match ev with
  | DefaultLengths | ShortestPath _ _ => False
  | _ => True
  end.

(** ** The rows of the script's loop *)

(** The statistics records and maps of a loop, one per criterion and in the
    order of the criteria: those of a criterion are computed for the route
    its search returned, on the graph that search left, and the next
    criterion is searched on that same graph. *)
Inductive rows_in_order (ox : osmnx) (px : plotting) (a b : Q * Q)
  : world -> list string -> list route_statistics -> list route_map -> Prop :=
| rows_done (w : world) : rows_in_order ox px a b w [] [] []
| rows_next (w : world) (crit : string) (crits : list string) (r : route)
    (st : route_statistics) (sts : list route_statistics)
    (m : route_map) (ms : list route_map) :
    fst (find_best_route ox a b crit w) = Ok (Some r) ->
    calculate_route_statistics (w_graph (snd (find_best_route ox a b crit w))) r = Ok st ->
    save_route_map px (w_graph (snd (find_best_route ox a b crit w))) r (map_filename crit)
      = Ok m ->
    rows_in_order ox px a b (snd (find_best_route ox a b crit w)) crits sts ms ->
    rows_in_order ox px a b w (crit :: crits) (st :: sts) (m :: ms).

(** * Properties *)

(** ** Scenarios *)

Example line_graph_statistics :
  calculate_route_statistics line_graph [1; 2; 3]%Z
  = Ok {| distancia_km := 3; tempo_min := 6; custo_rs := 33 # 20;
          consumo_combustivel_litros := 3 # 10; ganho_elevacao_m := 0 |}.
Proof. vm_compute. reflexivity. Qed.

Example line_graph_search :
  shortest_path line_graph 1 3 (WeightAttr "length") = Ok (Some [1; 2; 3]%Z).
Proof. vm_compute. reflexivity. Qed.

Example line_graph_route :
  fst (find_best_route planar_osmnx (0, 0) (0, 3) "distancia" (fresh line_graph))
  = Ok (Some [1; 2; 3]%Z).
Proof. vm_compute. reflexivity. Qed.

Example islands_no_route :
  fst (find_best_route planar_osmnx (0, 0) (0, 6) "distancia" (fresh islands_graph))
  = Ok None.
Proof. vm_compute. reflexivity. Qed.

Example short_graph_statistics :
  calculate_route_statistics short_graph [1; 2]%Z
  = Ok {| distancia_km := 123 # 10000; tempo_min := 123 # 5000;
          custo_rs := 33 # 5000;
          consumo_combustivel_litros := 3 # 2500; ganho_elevacao_m := 0 |}.
Proof. vm_compute. reflexivity. Qed.

Example tempo_route :
  fst (find_best_route planar_osmnx (0, 0) (0, 3) "tempo" (fresh road_graph))
  = Ok (Some [1; 2; 3]%Z).
Proof. vm_compute. reflexivity. Qed.

Example tempo_without_road_classes :
  fst (find_best_route planar_osmnx (0, 0) (0, 3) "tempo" (fresh line_graph))
  = Raise (KeyError "highway").
Proof. vm_compute. reflexivity. Qed.

Example combustivel_route :
  fst (find_best_route planar_osmnx (0, 0) (0, 3) "combustivel" (fresh line_graph))
  = Ok (Some [1; 2; 3]%Z).
Proof. vm_compute. reflexivity. Qed.

Example search_without_edges :
  fst (find_best_route planar_osmnx (0, 0) (0, 3) "distancia"
         (fresh {| g_nodes := g_nodes line_graph; g_edges := [] |}))
  = Raise no_edges.
Proof. vm_compute. reflexivity. Qed.

Example invalid_route :
  find_best_route planar_osmnx (0, 0) (0, 3) "rapido" (fresh line_graph)
  = (Raise invalid_priority,
     {| w_graph := line_graph;
        w_trace := [NearestNodes 0 0; NearestNodes 3 0] |}).
Proof. vm_compute. reflexivity. Qed.

(** ** Weight functions *)

(** Read as exact numbers, the cost lambda is the fuel lambda times
    [FUEL_COST_PER_LITER], whatever dictionary the two are given. *)
Lemma custo_weight_any_dict (u v : node) (d : pydict) :
  custo_weight u v d == combustivel_weight u v d * FUEL_COST_PER_LITER.
Proof. unfold custo_weight, combustivel_weight. ring. Qed.

(** On a multigraph both callables see the key-indexed dictionary and find
    neither attribute in it. *)
Lemma callable_weights_on_keydict (u v : node) (kd : keydict) :
  weight_function (WeightFn combustivel_weight) u v kd = Ok (combustivel_weight u v (DictKeys kd))
  /\ combustivel_weight u v (DictKeys kd) == 0
  /\ custo_weight u v (DictKeys kd) == 0.
Proof. repeat split. Qed.

(** The lambdas in binary64, on an attribute dictionary: the fuel lambda
    of line 65 is not the product [length * rate * (1 + grade_abs / 100)]
    to the last digit. *)
Example fuel_lambda_in_binary64 :
  Float64.combustivel_weight 1 2 (DictAttrs (edge_attrs 1 9)) = Float64.of_Q 0.109
  /\ (1 * Float64.FUEL_CONSUMPTION_PER_KM * (1 + 9 / 100))%float
     = 0x1.be76c8b439582p-4%float
  /\ (Float64.combustivel_weight 1 2 (DictAttrs (edge_attrs 1 9))
      =? 1 * Float64.FUEL_CONSUMPTION_PER_KM * (1 + 9 / 100))%float = false.
Proof. vm_compute. repeat split. Qed.

(** C3. The fuel weight the search uses is not the claim's formula: on the
    multigraph the lambda of line 65 is handed the dictionary of parallel
    edges, finds neither [length] nor [grade_abs] in it, and weighs every
    edge 0. On [detour_graph] the direct road of 100 km with a grade of 5
    should weigh [100000 * 0.1 * (1 + 5 / 100)], which is 10500, against 2
    for the way through node 2; it weighs 0, and the fuel search returns
    the direct road. *)
Theorem fuel_weight_is_zero_on_graph_edges :
  select_weight "combustivel" = Ok (WeightFn combustivel_weight)
  /\ map snd (parallel_edges detour_graph 1 3) = [edge_attrs 100000 5]
  /\ (exists c, weight_function (WeightFn combustivel_weight) 1 3
                  (parallel_edges detour_graph 1 3) = Ok c /\ c == 0)
  /\ Float64.combustivel_weight 1 3 (DictKeys (parallel_edges detour_graph 1 3)) = 0%float
  /\ 100000 * FUEL_CONSUMPTION_PER_KM * (1 + 5 / 100) == 10500
  /\ fst (find_best_route planar_osmnx (0, 0) (0, 3) "combustivel" (fresh detour_graph))
     = Ok (Some [1; 3]%Z)
  /\ fst (find_best_route planar_osmnx (0, 0) (0, 3) "distancia" (fresh detour_graph))
     = Ok (Some [1; 2; 3]%Z).
Proof.
  split; [reflexivity|]. split; [reflexivity|].
  split; [eexists; split; [reflexivity | reflexivity]|].
  split; [reflexivity|]. split; [reflexivity|].
  split; vm_compute; reflexivity.
Qed.



(** ** Length defaulting *)

Lemma setdefault_idempotent (k : string) (v : Q) (d : attrs) :
  setdefault k v (setdefault k v d) = setdefault k v d.
Proof.
  unfold setdefault. destruct (d !! k) eqn:Hk.
  - by rewrite Hk.
  - by rewrite lookup_insert_eq.
Qed.

(** C9. Running the length-defaulting pass a second time changes nothing:
    every edge keeps exactly the attributes it had after the first pass. *)
Theorem default_lengths_idempotent (g : graph) :
  default_lengths (default_lengths g) = default_lengths g.
Proof.
  unfold default_lengths, map_edge_data. destruct g as [ns es]. simpl. f_equal.
  rewrite map_map. apply map_ext. intros [eu ev ek ed]. simpl.
  by rewrite setdefault_idempotent.
Qed.

(** ** Weights given by name *)

(** An attribute-name weight never raises on the parallel edges of a pair
    that has an edge. *)
Lemma weight_function_attr_total (name : string) (u v : node) (kd : keydict) :
  kd <> [] -> exists c, weight_function (WeightAttr name) u v kd = Ok c.
Proof. destruct kd as [|it kd]; [done|]. intros _. by eexists. Qed.

(** ** Unrecognised criteria *)

Lemma eqb_outside (p s : string) : p <> s -> String.eqb p s = false.
Proof. intros Hne. by apply String.eqb_neq. Qed.

Lemma select_weight_outside (p : string) :
  p ∉ criteria -> select_weight p = Raise invalid_priority.
Proof.
  intros Hout. unfold select_weight.
  rewrite !eqb_outside; [done | | | |];
    intros ->; apply Hout; unfold criteria; set_solver.
Qed.

Lemma not_tempo_outside (p : string) : p ∉ criteria -> String.eqb p "tempo" = false.
Proof. intros Hout. apply eqb_outside. intros ->. apply Hout. unfold criteria. set_solver. Qed.

(** What [find_best_route] does with a criterion outside [criteria]: both
    nearest-node lookups run first, then the exception is raised. *)
Lemma find_best_route_outside (ox : osmnx) (a b : Q * Q) (p : string) (w : world) :
  p ∉ criteria ->
  find_best_route ox a b p w =
    let w1 := {| w_graph := w_graph w;
                 w_trace := (w_trace w ++ [NearestNodes (snd a) (fst a)])%list |} in
    match nearest_nodes ox (w_graph w) (snd a) (fst a) with
    | Raise e => (Raise e, w1)
    | Ok _ =>
        let w2 := {| w_graph := w_graph w;
                     w_trace := (w_trace w1 ++ [NearestNodes (snd b) (fst b)])%list |} in
        match nearest_nodes ox (w_graph w) (snd b) (fst b) with
        | Raise e => (Raise e, w2)
        | Ok _ => (Raise invalid_priority, w2)
        end
    end.
Proof.
  intros Hout. unfold find_best_route.
  rewrite (not_tempo_outside p Hout), (select_weight_outside p Hout).
  unfold mbind, M_bind, mret, M_ret, record, reading, lift. simpl.
  destruct (nearest_nodes ox (w_graph w) (snd a) (fst a)); [|done].
  destruct (nearest_nodes ox (w_graph w) (snd b) (fst b)); done.
Qed.

(** C10. A search with a criterion outside [criteria] leaves the graph as
    it was, and the only calls it has made are nearest-node lookups: neither
    the speed and travel-time derivation nor the length defaulting has been
    applied. *)
Theorem invalid_priority_leaves_graph (ox : osmnx) (a b : Q * Q) (p : string) (w : world) :
  p ∉ criteria ->
  w_graph (snd (find_best_route ox a b p w)) = w_graph w
  /\ exists calls,
       w_trace (snd (find_best_route ox a b p w)) = (w_trace w ++ calls)%list
       /\ Forall is_lookup calls.
Proof.
  intros Hout. rewrite (find_best_route_outside ox a b p w Hout). simpl.
  destruct (nearest_nodes ox (w_graph w) (snd a) (fst a)); simpl.
  - destruct (nearest_nodes ox (w_graph w) (snd b) (fst b)); simpl;
      (split; [done|]; eexists; split; [by rewrite <- app_assoc|];
       repeat constructor).
  - split; [done|]. eexists. split; [done | repeat constructor].
Qed.

Lemma rapido_outside : "rapido" ∉ criteria.
Proof. apply (bool_decide_unpack _). vm_compute. exact I. Qed.

Lemma invalid_priority_leaves_graph_witness :
  w_graph (snd (find_best_route planar_osmnx (0, 0) (0, 3) "rapido" (fresh line_graph)))
  = line_graph.
Proof.
  apply (invalid_priority_leaves_graph planar_osmnx (0, 0) (0, 3) "rapido" (fresh line_graph)).
  apply (bool_decide_unpack _). vm_compute. exact I.
Defined.

(** C5, as stated, fails: when the criterion is rejected the two
    nearest-node lookups have already run, and on a graph where the lookup
    itself fails it is that failure the caller sees. *)
Lemma invalid_priority_not_checked_first :
  ("rapido" ∉ criteria)
  /\ (find_best_route planar_osmnx (0, 0) (0, 3) "rapido" (fresh line_graph)
      = (Raise invalid_priority,
         {| w_graph := line_graph;
            w_trace := [NearestNodes 0 0; NearestNodes 3 0] |}))
  /\ (find_best_route planar_osmnx (0, 0) (0, 3) "rapido" (fresh line_graph)
      <> (Raise invalid_priority, fresh line_graph))
  /\ (fst (find_best_route planar_osmnx (0, 0) (0, 3) "rapido" (fresh empty_graph))
      = Raise (ValueError "graph contains no nodes")).
Proof.
  split; [exact rapido_outside|].
  split; [vm_compute; reflexivity|].
  split; [vm_compute; discriminate | vm_compute; reflexivity].
Qed.

(** C5, amended. With a criterion outside [criteria], once both
    nearest-node lookups have succeeded the search fails with the
    invalid-priority [ValueError]; at that point the graph is untouched and
    the two lookups are the only calls made: no derivation, no defaulting,
    no path search. *)
Theorem invalid_priority_raises_after_lookup
    (ox : osmnx) (a b : Q * Q) (p : string) (w : world) (orig dest : node) :
  p ∉ criteria ->
  nearest_nodes ox (w_graph w) (snd a) (fst a) = Ok orig ->
  nearest_nodes ox (w_graph w) (snd b) (fst b) = Ok dest ->
  find_best_route ox a b p w =
    (Raise invalid_priority,
     {| w_graph := w_graph w;
        w_trace := (w_trace w ++ [NearestNodes (snd a) (fst a);
                                  NearestNodes (snd b) (fst b)])%list |}).
Proof.
  intros Hout Ha Hb. rewrite (find_best_route_outside ox a b p w Hout). simpl.
  rewrite Ha, Hb. by rewrite <- app_assoc.
Qed.

Lemma invalid_priority_raises_after_lookup_witness :
  find_best_route planar_osmnx (0, 0) (0, 3) "rapido" (fresh line_graph) =
    (Raise invalid_priority,
     {| w_graph := line_graph;
        w_trace := [NearestNodes 0 0; NearestNodes 3 0] |}).
Proof.
  apply (invalid_priority_raises_after_lookup planar_osmnx (0, 0) (0, 3) "rapido"
           (fresh line_graph) 1 3).
  - apply (bool_decide_unpack _). vm_compute. exact I.
  - reflexivity.
  - reflexivity.
Defined.

(** ** The three-node scenario *)

(** C1. On the graph A -> B -> C (nodes 1, 2, 3) with lengths 1000 m and
    2000 m and zero grade, with the vehicle constants 30 km/h, 0.1 l/km and
    5.5 per litre, a distance search between points that resolve to A and C
    returns the route [A, B, C], and the statistics of that route are 3.0 km,
    6.0 min, 0.3 l, 1.65 of cost and 0 of elevation gain. *)
Theorem line_graph_distance_scenario (ox : osmnx) (a b : Q * Q) :
  nearest_nodes ox line_graph (snd a) (fst a) = Ok 1%Z ->
  nearest_nodes ox line_graph (snd b) (fst b) = Ok 3%Z ->
  AVERAGE_SPEED_KMH = 30 /\ FUEL_CONSUMPTION_PER_KM = 0.1 /\ FUEL_COST_PER_LITER = 5.5
  /\ exists w' st,
       find_best_route ox a b "distancia" (fresh line_graph)
         = (Ok (Some [1; 2; 3]%Z), w')
       /\ calculate_route_statistics (w_graph w') [1; 2; 3]%Z = Ok st
       /\ distancia_km st == 3.0
       /\ tempo_min st == 6.0
       /\ consumo_combustivel_litros st == 0.3
       /\ custo_rs st == 1.65
       /\ ganho_elevacao_m st == 0.
Proof.
  intros Ha Hb. do 3 (split; [reflexivity|]).
  eexists _, _. split; [|split].
  - unfold find_best_route, mbind, M_bind, mret, M_ret, record, reading, updating, lift.
    cbn [w_graph w_trace fresh fst snd]. rewrite Ha. cbn [w_graph w_trace]. rewrite Hb.
    vm_compute. reflexivity.
  - vm_compute. reflexivity.
  - vm_compute. repeat split.
Qed.

Lemma line_graph_distance_scenario_witness :
  exists w' st,
    find_best_route planar_osmnx (0, 0) (0, 3) "distancia" (fresh line_graph)
      = (Ok (Some [1; 2; 3]%Z), w')
    /\ calculate_route_statistics (w_graph w') [1; 2; 3]%Z = Ok st
    /\ distancia_km st == 3.0
    /\ tempo_min st == 6.0
    /\ consumo_combustivel_litros st == 0.3
    /\ custo_rs st == 1.65
    /\ ganho_elevacao_m st == 0.
Proof.
  apply (line_graph_distance_scenario planar_osmnx (0, 0) (0, 3)); reflexivity.
Defined.

(** ** Rounding *)

Lemma rint_comp (x y : Q) : x == y -> rint x = rint y.
Proof.
  intros Hxy. unfold rint. rewrite (Qfloor_comp x y Hxy).
  assert (x - inject_Z (Qfloor y) == y - inject_Z (Qfloor y)) as Hd by (rewrite Hxy; reflexivity).
  by rewrite (Qcompare_comp _ _ Hd (1 # 2) (1 # 2) (Qeq_refl _)).
Qed.

Lemma inject_Z_succ (z : Z) : inject_Z (z + 1) == inject_Z z + 1.
Proof. rewrite inject_Z_plus. reflexivity. Qed.

(** The nearest integer is within one half. *)
Lemma rint_close (x : Q) :
  x - (1 # 2) <= inject_Z (rint x) /\ inject_Z (rint x) <= x + (1 # 2).
Proof.
  unfold rint.
  pose proof (Qfloor_le x) as Hlo.
  pose proof (Qlt_floor x) as Hhi. rewrite inject_Z_succ in Hhi.
  destruct (Qcompare_spec (x - inject_Z (Qfloor x)) (1 # 2)) as [Heq | Hlt | Hgt].
  - destruct (Z.even (Qfloor x)); [|rewrite inject_Z_succ]; lra.
  - lra.
  - rewrite inject_Z_succ. lra.
Qed.

Lemma rint_nonneg (x : Q) : 0 <= x -> (0 <= rint x)%Z.
Proof.
  intros Hx. unfold rint.
  assert (0 <= Qfloor x)%Z as Hf.
  { change 0%Z with (Qfloor (inject_Z 0)). by apply Qfloor_resp_le. }
  destruct (Qcompare _ _); [destruct (Z.even _)| |]; lia.
Qed.

Lemma rint_inject_Z (z : Z) : rint (inject_Z z) = z.
Proof.
  unfold rint. rewrite Qfloor_Z.
  destruct (Qcompare_spec (inject_Z z - inject_Z z) (1 # 2)) as [Heq | Hlt | Hgt];
    [exfalso; lra | reflexivity | exfalso; lra].
Qed.

(** [round(x, 4)] as a fraction over ten thousand. *)
Lemma py_round_4 (x : Q) : py_round x 4 == inject_Z (rint (x * 10000)) / 10000.
Proof. unfold py_round. apply Qred_correct. Qed.

Lemma py_round_4_nonneg (x : Q) : 0 <= x -> 0 <= py_round x 4.
Proof.
  intros Hx. rewrite py_round_4.
  assert (0 <= rint (x * 10000))%Z as Hr by (apply rint_nonneg; lra).
  apply Qle_shift_div_l; [reflexivity|].
  rewrite Qmult_0_l. change 0 with (inject_Z 0). by rewrite <- Zle_Qle.
Qed.

(** Rounding to four decimals moves a number by at most half of 0.0001. *)
Lemma py_round_4_close (x : Q) :
  x - (1 # 20000) <= py_round x 4 /\ py_round x 4 <= x + (1 # 20000).
Proof.
  rewrite py_round_4. destruct (rint_close (x * 10000)) as [Hlo Hhi].
  split.
  - apply Qle_shift_div_l; [reflexivity | lra].
  - apply Qle_shift_div_r; [reflexivity | lra].
Qed.

(** A number with four decimals is left alone. *)
Lemma py_round_4_fixed (x : Q) (k : Z) :
  x == inject_Z k / 10000 -> py_round x 4 == x.
Proof.
  intros Hx. rewrite py_round_4.
  assert (x * 10000 == inject_Z k) as Hk by (rewrite Hx; field).
  rewrite (rint_comp _ _ Hk), rint_inject_Z. by rewrite Hx.
Qed.

Lemma py_round_4_decimals (x : Q) : exists k : Z, py_round x 4 == inject_Z k / 10000.
Proof. exists (rint (x * 10000)). apply py_round_4. Qed.

(** ** Route statistics *)

Lemma mapM_ok_In {A B} (f : A -> result B) (l : list A) (bs : list B) :
  mapM f l = Ok bs -> forall b, In b bs -> exists a, In a l /\ f a = Ok b.
Proof.
  revert bs. induction l as [|a l IH]; intros bs Hm b Hb; simpl in Hm.
  - inversion Hm; subst. contradiction.
  - unfold mbind, result_bind, rbind in Hm.
    destruct (f a) as [b0|] eqn:Hfa; [|discriminate].
    destruct (mapM f l) as [bs0|] eqn:Hrest; [|discriminate].
    inversion Hm; subst. destruct Hb as [<- | Hb].
    + exists a. split; [by left | done].
    + destruct (IH bs0 eq_refl b Hb) as (a' & Ha' & Hfa').
      exists a'. split; [by right | done].
Qed.

Lemma min_item_In (best : Z * attrs) (wbest : Q) (kd : keydict) (ws : list Q) :
  In (min_item best wbest kd ws) (best :: kd).
Proof.
  revert best wbest ws. induction kd as [|it kd IH]; intros best wbest ws; simpl.
  - by left.
  - destruct ws as [|w ws]; [by left|].
    destruct (Qle_bool wbest w).
    + destruct (IH best wbest ws) as [<- | Hin]; [by left | by right; right].
    + destruct (IH it w ws) as [<- | Hin]; [by right; left | by right; right].
Qed.

Lemma parallel_edges_In (g : graph) (u v : node) (it : Z * attrs) :
  In it (parallel_edges g u v) ->
  exists e, In e (g_edges g) /\ e_u e = u /\ e_v e = v /\ e_data e = snd it.
Proof.
  unfold parallel_edges. intros Hin. apply in_map_iff in Hin as (e & <- & He).
  apply filter_In in He as [He Hb]. unfold edge_between, edge_from, edge_to in Hb.
  apply andb_prop in Hb as [Hu Hv]. exists e. repeat split; [done | lia | lia].
Qed.

Lemma min_parallel_edge_In (g : graph) (name : string) (uv : node * node) (it : Z * attrs) :
  min_parallel_edge g name uv = Ok it -> In it (parallel_edges g (fst uv) (snd uv)).
Proof.
  unfold min_parallel_edge. destruct (parallel_edges g (fst uv) (snd uv)) as [|it0 rest]; [done|].
  unfold mbind, result_bind, rbind.
  destruct (item_weights name (it0 :: rest)) as [[|w ws]|]; [done | | done].
  intros Hok. inversion Hok; subst. apply min_item_In.
Qed.

(** Every row of the route's edge table is the attribute dictionary of an
    edge of the graph. *)
Lemma route_to_gdf_rows (g : graph) (r : route) (t : geodataframe) :
  route_to_gdf g r = Ok t ->
  forall d, In d (gdf_rows t) -> exists e, In e (g_edges g) /\ e_data e = d.
Proof.
  unfold route_to_gdf. destruct (subgraph_edges g r) as [|e0 es]; [done|].
  unfold mbind, result_bind, rbind.
  destruct (mapM (min_parallel_edge g "length") (pairs r)) as [chosen|] eqn:Hm; [|done].
  intros Ht d Hd. inversion Ht; subst. simpl in Hd.
  apply in_map_iff in Hd as (it & <- & Hit).
  destruct (mapM_ok_In _ _ _ Hm it Hit) as (uv & _ & Hmin).
  apply min_parallel_edge_In, parallel_edges_In in Hmin as (e' & He' & _ & _ & Hdata).
  by exists e'.
Qed.

Lemma qsum_nonneg (l : list Q) : (forall q, In q l -> 0 <= q) -> 0 <= qsum l.
Proof.
  induction l as [|q l IH]; intros Hl; simpl; [lra|].
  assert (0 <= q) by (apply Hl; by left).
  assert (0 <= qsum l) by (apply IH; intros; apply Hl; by right).
  lra.
Qed.

Lemma column_sum_nonneg (g : graph) (r : route) (t : geodataframe) (name : string) (s : Q) :
  nonneg_attr name g ->
  route_to_gdf g r = Ok t ->
  column_sum t name = Ok s ->
  0 <= s.
Proof.
  intros Hnn Ht. unfold column_sum. destruct (decide _) as [_|_]; [|done].
  intros Hs. inversion Hs; subst. apply qsum_nonneg. intros q Hq.
  apply in_map_iff in Hq as (d & <- & Hd).
  destruct (route_to_gdf_rows g r t Ht d Hd) as (ed & Hed & <-).
  unfold attr_get. destruct (e_data ed !! name) as [q'|] eqn:Hq'; [by eapply Hnn | lra].
Qed.

(** What a successful call computed, line by line. *)
Lemma calculate_route_statistics_inv (g : graph) (r : route) (st : route_statistics) :
  calculate_route_statistics g r = Ok st ->
  exists t length_sum,
    route_to_gdf g r = Ok t
    /\ column_sum t "length" = Ok length_sum
    /\ distancia_km st = py_round (length_sum / 1000) 4
    /\ tempo_min st = py_round ((distancia_km st / AVERAGE_SPEED_KMH) * 60) 4
    /\ consumo_combustivel_litros st = py_round (distancia_km st * FUEL_CONSUMPTION_PER_KM) 4
    /\ custo_rs st = py_round (consumo_combustivel_litros st * FUEL_COST_PER_LITER) 4
    /\ (ganho_elevacao_m st = 0
        \/ exists s, column_sum t "grade_abs" = Ok s /\ ganho_elevacao_m st = py_round s 4).
Proof.
  unfold calculate_route_statistics, mbind, result_bind, rbind.
  destruct (route_to_gdf g r) as [t|] eqn:Ht; [|done].
  destruct (column_sum t "length") as [length_sum|] eqn:Hlen; [|done].
  destruct (decide ("grade_abs" ∈ gdf_columns t)).
  - destruct (column_sum t "grade_abs") as [s|] eqn:Hs; [|done].
    intros [= <-]. exists t, length_sum.
    cbn [distancia_km tempo_min custo_rs consumo_combustivel_litros ganho_elevacao_m].
    do 6 (split; [first [assumption | exact eq_refl]|]). right. exists s. by split.
  - intros [= <-]. exists t, length_sum.
    cbn [distancia_km tempo_min custo_rs consumo_combustivel_litros ganho_elevacao_m].
    do 6 (split; [first [assumption | exact eq_refl]|]). by left.
Qed.

Lemma check_nonneg_attr_sound (name : string) (g : graph) :
  check_nonneg_attr name g = true -> nonneg_attr name g.
Proof.
  unfold check_nonneg_attr. rewrite forallb_forall. intros Hall e He q Hq.
  specialize (Hall e He). rewrite Hq in Hall. by apply Qle_bool_iff.
Qed.

(** ** Binary64: signs *)

Lemma sf_signed_nonneg (s : spec_float) : sf_signed false s -> sf_nonneg s.
Proof. destruct s as [[]|[]| |[] m e]; simpl; intros H; done. Qed.

Lemma nonneg_spec (x : float) : Float64.nonneg x <-> sf_nonneg (Prim2SF x).
Proof.
  unfold Float64.nonneg. rewrite leb_spec.
  change (Prim2SF 0%float) with (S754_zero false).
  destruct (Prim2SF x) as [[]|[]| |[] m e]; simpl; unfold SFleb; simpl; split; done.
Qed.

Lemma iter_pos_keeps {A} (P : A -> Prop) (f : A -> A) :
  (forall a, P a -> P (f a)) -> forall n a, P a -> P (SpecFloat.iter_pos f n a).
Proof.
  intros Hf. induction n as [n IH | n IH |]; intros a Ha; simpl; auto.
Qed.

Lemma shr_1_nonneg (mrs : shr_record) : (0 <= shr_m mrs)%Z -> (0 <= shr_m (shr_1 mrs))%Z.
Proof.
  destruct mrs as [m r s]. simpl. destruct m as [|[p|p|]|p]; simpl; lia.
Qed.

Lemma shr_nonneg (mrs : shr_record) (e n : Z) :
  (0 <= shr_m mrs)%Z -> (0 <= shr_m (fst (shr mrs e n)))%Z.
Proof.
  intros Hm. unfold shr. destruct n as [|p|p]; simpl; [done | | done].
  by apply (iter_pos_keeps (fun r => (0 <= shr_m r)%Z) shr_1 shr_1_nonneg).
Qed.

Lemma shr_fexp_nonneg (m e : Z) (l : location) :
  (0 <= m)%Z -> (0 <= shr_m (fst (shr_fexp prec emax m e l)))%Z.
Proof.
  intros Hm. unfold shr_fexp. apply shr_nonneg.
  destruct l as [|[]]; simpl; done.
Qed.

Lemma round_nearest_even_nonneg (m : Z) (l : location) :
  (0 <= m)%Z -> (0 <= round_nearest_even m l)%Z.
Proof.
  intros Hm. unfold round_nearest_even. destruct l as [|[]]; [done| |done|lia].
  destruct (Z.even m); lia.
Qed.

(** Rounding a mantissa that is not negative to the format gives a number
    of the sign asked for, never a NaN. *)
Lemma binary_round_aux_signed (sx : bool) (mx ex : Z) (lx : location) :
  (0 <= mx)%Z -> sf_signed sx (binary_round_aux prec emax sx mx ex lx).
Proof.
  intros Hm. unfold binary_round_aux.
  pose proof (shr_fexp_nonneg mx ex lx Hm) as H1.
  destruct (shr_fexp prec emax mx ex lx) as [mrs' e'] eqn:E1. simpl in H1.
  pose proof (shr_fexp_nonneg (round_nearest_even (shr_m mrs') (loc_of_shr_record mrs')) e'
                loc_Exact (round_nearest_even_nonneg _ _ H1)) as H2.
  destruct (shr_fexp prec emax _ e' loc_Exact) as [mrs'' e''] eqn:E2. simpl in H2.
  destruct (shr_m mrs'') as [|p|p]; simpl; [done | | lia].
  destruct (Z.leb _ _); done.
Qed.

Lemma binary_round_signed (sx : bool) (m : positive) (e : Z) :
  sf_signed sx (binary_round prec emax sx m e).
Proof.
  unfold binary_round. destruct (shl_align _ _ _) as [mz ez].
  by apply binary_round_aux_signed.
Qed.

Lemma binary_normalize_nonneg (m e : Z) (szero : bool) :
  (0 <= m)%Z -> sf_nonneg (binary_normalize prec emax m e szero).
Proof.
  intros Hm. destruct m as [|p|p]; simpl; [done | | lia].
  apply sf_signed_nonneg, binary_round_signed.
Qed.

Lemma SFadd_nonneg (x y : spec_float) :
  sf_nonneg x -> sf_nonneg y -> sf_nonneg (SF64add x y).
Proof.
  unfold SF64add.
  destruct x as [[]|[]| |[] mx ex], y as [[]|[]| |[] my ey]; simpl; try done.
  intros _ _. apply sf_signed_nonneg, binary_round_signed.
Qed.

Lemma SFmul_nonneg (x c : spec_float) :
  sf_nonneg x -> sf_positive c -> sf_nonneg (SF64mul x c).
Proof.
  unfold SF64mul.
  destruct x as [[]|[]| |[] mx ex], c as [[]|[]| |[] mc ec]; simpl; try done.
  intros _ _. apply sf_signed_nonneg, binary_round_aux_signed. lia.
Qed.

Lemma div_eucl_nonneg (a : Z) (b : positive) :
  (0 <= a)%Z -> (0 <= fst (Z.div_eucl a (Zpos b)))%Z.
Proof.
  intros Ha. change (fst (Z.div_eucl a (Zpos b))) with (a / Zpos b)%Z.
  apply Z.div_pos; lia.
Qed.

Lemma SFdiv_signed (s : bool) (mx : positive) (ex : Z) (mc : positive) (ec : Z) :
  sf_signed s (SFdiv prec emax (S754_finite s mx ex) (S754_finite false mc ec)).
Proof.
  simpl. unfold SFdiv_core_binary.
  set (m' := match (ex - ec - _)%Z with Z0 => _ | Zpos _ => _ | Zneg _ => _ end).
  assert (0 <= m')%Z as Hm'.
  { subst m'. destruct (ex - ec - _)%Z; [lia | | lia]. apply Z.shiftl_nonneg. lia. }
  pose proof (div_eucl_nonneg m' mc Hm') as Hq.
  destruct (Z.div_eucl m' (Zpos mc)) as [q r]. simpl in Hq.
  replace (xorb s false) with s by (by destruct s).
  by apply binary_round_aux_signed.
Qed.

Lemma SFdiv_nonneg (x c : spec_float) :
  sf_nonneg x -> sf_positive c -> sf_nonneg (SF64div x c).
Proof.
  unfold SF64div.
  destruct x as [[]|[]| |[] mx ex], c as [[]|[]| |[] mc ec]; try done.
  intros _ _. apply sf_signed_nonneg, SFdiv_signed.
Qed.

Lemma add_nonneg (x y : float) :
  Float64.nonneg x -> Float64.nonneg y -> Float64.nonneg (x + y)%float.
Proof. rewrite !nonneg_spec, add_spec. apply SFadd_nonneg. Qed.

Lemma mul_nonneg (x c : float) :
  Float64.nonneg x -> sf_positive (Prim2SF c) -> Float64.nonneg (x * c)%float.
Proof. rewrite !nonneg_spec, mul_spec. apply SFmul_nonneg. Qed.

Lemma div_nonneg (x c : float) :
  Float64.nonneg x -> sf_positive (Prim2SF c) -> Float64.nonneg (x / c)%float.
Proof. rewrite !nonneg_spec, div_spec. apply SFdiv_nonneg. Qed.

(** [SF2Prim] keeps the sign. *)
Lemma SF2Prim_nonneg (s : spec_float) : sf_nonneg s -> Float64.nonneg (SF2Prim s).
Proof.
  destruct s as [[]|[]| |[] m e]; simpl; try done; intros _.
  apply nonneg_spec. rewrite Z_ldexp_spec, of_uint63_spec.
  pose proof (Uint63.to_Z_bounded (Uint63Axioms.of_pos m)) as [Hlo _].
  change Uint63.to_Z with Uint63Axioms.to_Z in Hlo.
  destruct (Uint63Axioms.to_Z (Uint63Axioms.of_pos m)) as [|p|p]; simpl; [done| |lia].
  pose proof (binary_round_signed false p 0) as Hs.
  destruct (binary_round prec emax false p 0) as [s'|s'| |s' m' e']; simpl in *;
    try done; subst s'; [done|].
  apply sf_signed_nonneg, binary_round_signed.
Qed.

Lemma of_Q_nonneg (q : Q) : 0 <= q -> Float64.nonneg (Float64.of_Q q).
Proof.
  intros Hq. unfold Float64.of_Q. apply SF2Prim_nonneg.
  destruct q as [[|n|n] d]; cbn [Qnum Qden].
  - done.
  - apply sf_signed_nonneg, SFdiv_signed.
  - exfalso. unfold Qle in Hq. cbn in Hq. lia.
Qed.

Lemma float_rint_nonneg (x : float) : Float64.nonneg x -> Float64.nonneg (Float64.rint x).
Proof.
  intros Hx. unfold Float64.rint.
  pose proof (proj1 (nonneg_spec x) Hx) as Hs.
  destruct (Prim2SF x) as [s|s| |s m [|k|k]]; try done.
  destruct s; [done|]. apply SF2Prim_nonneg, binary_normalize_nonneg.
  cbn [cond_Zopp]. apply rint_nonneg. unfold Qle. cbn. lia.
Qed.

Lemma round_4_nonneg (x : float) : Float64.nonneg x -> Float64.nonneg (Float64.round x 4).
Proof.
  intros Hx. unfold Float64.round.
  set (p := Float64.of_Q (inject_Z (10 ^ Z.of_nat 4))).
  assert (sf_positive (Prim2SF p)) as Hp by (vm_compute; exact I).
  apply div_nonneg; [|done]. apply float_rint_nonneg. by apply mul_nonneg.
Qed.

Lemma sum_nonneg (l : list float) :
  Forall Float64.nonneg l -> Float64.nonneg (Float64.sum l).
Proof.
  unfold Float64.sum.
  assert (Float64.nonneg 0%float) as H0 by reflexivity. revert H0.
  generalize 0%float as acc. induction l as [|x l IH]; intros acc Hacc Hl; [done|].
  inversion Hl; subst. cbn [fold_left]. apply IH; [|done]. by apply add_nonneg.
Qed.

(** ** Binary64: the statistics *)

Example rounding_as_numpy_does :
  Float64.round (Float64.of_Q 10.75 / 1000) 4 = Float64.of_Q 0.0107
  /\ Float64.round (Float64.of_Q 0.0125 * Float64.FUEL_CONSUMPTION_PER_KM) 4
     = Float64.of_Q 0.0013
  /\ Float64.round (Float64.of_Q 0.0009 * Float64.FUEL_COST_PER_LITER) 4
     = Float64.of_Q 0.0049.
Proof. vm_compute. repeat split. Qed.

(** The rounding is numpy's, the number rounded being a [numpy.float64]:
    [0.0123 * 5.5] scaled by 10000 is 676.5, which [rint] takes to the even
    676. (The built-in [round] of a Python [float], which rounds the exact
    binary value, would give 0.0677.) *)
Example rounding_of_a_scaled_tie :
  (Float64.of_Q 0.0123 * Float64.FUEL_COST_PER_LITER * 10000)%float = 676.5%float
  /\ Float64.round (Float64.of_Q 0.0123 * Float64.FUEL_COST_PER_LITER) 4
     = Float64.of_Q 0.0676.
Proof. vm_compute. by split. Qed.

Example line_graph_statistics_binary64 :
  Float64.calculate_route_statistics line_graph [1; 2; 3]%Z
  = Ok {| Float64.distancia_km := Float64.of_Q 3.0;
          Float64.tempo_min := Float64.of_Q 6.0;
          Float64.custo_rs := Float64.of_Q 1.65;
          Float64.consumo_combustivel_litros := Float64.of_Q 0.3;
          Float64.ganho_elevacao_m := 0 |}.
Proof. vm_compute. reflexivity. Qed.

(** What a successful call computed, line by line. *)
Lemma float_statistics_inv (g : graph) (r : route) (st : Float64.route_statistics) :
  Float64.calculate_route_statistics g r = Ok st ->
  exists t length_sum,
    route_to_gdf g r = Ok t
    /\ Float64.column_sum t "length" = Ok length_sum
    /\ Float64.distancia_km st = Float64.round (length_sum / 1000) 4
    /\ Float64.tempo_min st
       = Float64.round (Float64.distancia_km st / Float64.AVERAGE_SPEED_KMH * 60) 4
    /\ Float64.consumo_combustivel_litros st
       = Float64.round (Float64.distancia_km st * Float64.FUEL_CONSUMPTION_PER_KM) 4
    /\ Float64.custo_rs st
       = Float64.round (Float64.consumo_combustivel_litros st
                        * Float64.FUEL_COST_PER_LITER) 4
    /\ (Float64.ganho_elevacao_m st = 0%float
        \/ exists s, Float64.column_sum t "grade_abs" = Ok s
                     /\ Float64.ganho_elevacao_m st = Float64.round s 4).
Proof.
  unfold Float64.calculate_route_statistics, mbind, result_bind, rbind.
  destruct (route_to_gdf g r) as [t|] eqn:Ht; [|done].
  destruct (Float64.column_sum t "length") as [length_sum|] eqn:Hlen; [|done].
  destruct (decide ("grade_abs" ∈ gdf_columns t)).
  - destruct (Float64.column_sum t "grade_abs") as [s|] eqn:Hs; [|done].
    intros [= <-]. exists t, length_sum.
    cbn [Float64.distancia_km Float64.tempo_min Float64.custo_rs
         Float64.consumo_combustivel_litros Float64.ganho_elevacao_m].
    do 6 (split; [first [assumption | exact eq_refl]|]). right. exists s. by split.
  - intros [= <-]. exists t, length_sum.
    cbn [Float64.distancia_km Float64.tempo_min Float64.custo_rs
         Float64.consumo_combustivel_litros Float64.ganho_elevacao_m].
    do 6 (split; [first [assumption | exact eq_refl]|]). by left.
Qed.

(** The binary64 statistics are defined for the routes the exact ones are
    defined for. *)
Lemma float_statistics_defined (g : graph) (r : route) :
  (exists st, calculate_route_statistics g r = Ok st)
  <-> (exists st, Float64.calculate_route_statistics g r = Ok st).
Proof.
  unfold calculate_route_statistics, Float64.calculate_route_statistics,
    column_sum, Float64.column_sum, mbind, result_bind, rbind.
  destruct (route_to_gdf g r) as [t|]; [|split; intros [st Hst]; done].
  destruct (decide ("length" ∈ gdf_columns t)); [|split; intros [st Hst]; done].
  destruct (decide ("grade_abs" ∈ gdf_columns t)); split; intros _; by eexists.
Qed.

Lemma float_column_sum_nonneg (g : graph) (r : route) (t : geodataframe)
    (name : string) (s : float) :
  nonneg_attr name g ->
  route_to_gdf g r = Ok t ->
  Float64.column_sum t name = Ok s ->
  Float64.nonneg s.
Proof.
  intros Hnn Ht. unfold Float64.column_sum. destruct (decide _) as [_|_]; [|done].
  intros [= <-]. apply sum_nonneg. apply List.Forall_forall. intros x Hx.
  apply in_map_iff in Hx as (d & <- & Hd).
  destruct (route_to_gdf_rows g r t Ht d Hd) as (ed & Hed & <-).
  apply of_Q_nonneg. unfold attr_get.
  destruct (e_data ed !! name) as [q'|] eqn:Hq'; [by eapply Hnn | lra].
Qed.

(** C7, as stated, fails: for the route the distance search returns on the
    three-node graph the reported distance is 3.0 and the reported time
    6.0, while [distancia_km * AVERAGE_SPEED_KMH / 60] is 1.5. *)
Lemma time_identity_as_stated_fails :
  fst (find_best_route planar_osmnx (0, 0) (0, 3) "distancia" (fresh line_graph))
    = Ok (Some [1; 2; 3]%Z)
  /\ exists st,
       Float64.calculate_route_statistics line_graph [1; 2; 3]%Z = Ok st
       /\ Float64.distancia_km st = Float64.of_Q 3.0
       /\ Float64.tempo_min st = Float64.of_Q 6.0
       /\ (Float64.distancia_km st * Float64.AVERAGE_SPEED_KMH / 60)%float
          = Float64.of_Q 1.5
       /\ (Float64.distancia_km st * Float64.AVERAGE_SPEED_KMH / 60
           =? Float64.tempo_min st)%float = false.
Proof.
  split; [vm_compute; reflexivity|].
  eexists. split; [vm_compute; reflexivity|]. vm_compute. repeat split.
Qed.

(** The rounding of line 35 is part of the identity: on a single edge of
    123.4 m the reported time is 0.2468, and [distancia_km / 30 * 60]
    evaluates to 0.24680000000000002. *)
Example time_is_rounded :
  exists st,
    Float64.calculate_route_statistics
      {| g_nodes := g_nodes short_graph;
         g_edges := [ {| e_u := 1; e_v := 2; e_key := 0;
                         e_data := edge_attrs 123.4 0 |} ] |} [1; 2]%Z = Ok st
    /\ Float64.tempo_min st = Float64.of_Q 0.2468
    /\ (Float64.tempo_min st
        =? Float64.distancia_km st / Float64.AVERAGE_SPEED_KMH * 60)%float = false.
Proof. eexists. split; [vm_compute; reflexivity|]. vm_compute. by split. Qed.

(** C7, amended. On a graph whose [length] and [grade_abs] attributes are
    never negative, the statistics of any route have all five values
    non-negative, and the reported time is
    [distancia_km / AVERAGE_SPEED_KMH * 60] rounded to four decimals,
    whatever criterion the route was found for. *)
Theorem statistics_nonneg_and_time (g : graph) (r : route)
    (st : Float64.route_statistics) :
  nonneg_attr "length" g ->
  nonneg_attr "grade_abs" g ->
  Float64.calculate_route_statistics g r = Ok st ->
  Float64.nonneg (Float64.distancia_km st)
  /\ Float64.nonneg (Float64.tempo_min st)
  /\ Float64.nonneg (Float64.consumo_combustivel_litros st)
  /\ Float64.nonneg (Float64.custo_rs st)
  /\ Float64.nonneg (Float64.ganho_elevacao_m st)
  /\ Float64.tempo_min st
     = Float64.round (Float64.distancia_km st / Float64.AVERAGE_SPEED_KMH * 60) 4.
Proof.
  intros Hlen Hgrade Hst.
  destruct (float_statistics_inv g r st Hst)
    as (t & length_sum & Ht & Hsum & Hd & Htime & Hfuel & Hcost & Hgain).
  pose proof (float_column_sum_nonneg g r t "length" length_sum Hlen Ht Hsum) as Hsum0.
  assert (Float64.nonneg (Float64.distancia_km st)) as Hd0.
  { rewrite Hd. apply round_4_nonneg. apply div_nonneg; [done|]. vm_compute. exact I. }
  assert (Float64.nonneg (Float64.consumo_combustivel_litros st)) as Hfuel0.
  { rewrite Hfuel. apply round_4_nonneg. apply mul_nonneg; [done|]. vm_compute. exact I. }
  repeat split; try done.
  - rewrite Htime. apply round_4_nonneg.
    apply mul_nonneg; [|vm_compute; exact I].
    apply div_nonneg; [done|]. vm_compute. exact I.
  - rewrite Hcost. apply round_4_nonneg. apply mul_nonneg; [done|]. vm_compute. exact I.
  - destruct Hgain as [-> | (s & Hs & ->)]; [reflexivity|].
    apply round_4_nonneg.
    exact (float_column_sum_nonneg g r t "grade_abs" s Hgrade Ht Hs).
Qed.

Lemma statistics_nonneg_and_time_witness :
  exists st,
    Float64.calculate_route_statistics line_graph [1; 2; 3]%Z = Ok st
    /\ Float64.nonneg (Float64.distancia_km st)
    /\ Float64.nonneg (Float64.tempo_min st)
    /\ Float64.nonneg (Float64.consumo_combustivel_litros st)
    /\ Float64.nonneg (Float64.custo_rs st)
    /\ Float64.nonneg (Float64.ganho_elevacao_m st)
    /\ Float64.tempo_min st
       = Float64.round (Float64.distancia_km st / Float64.AVERAGE_SPEED_KMH * 60) 4.
Proof.
  eexists. split; [vm_compute; reflexivity|].
  apply (statistics_nonneg_and_time line_graph [1; 2; 3]%Z).
  - apply check_nonneg_attr_sound. reflexivity.
  - apply check_nonneg_attr_sound. reflexivity.
  - vm_compute. reflexivity.
Defined.

(** C8, as stated, fails: on a single 12.3 m segment the reported distance
    is 0.0123 km and the reported fuel 0.0012 l, which is not
    [0.0123 * 0.1]; and the reported cost, 0.0066, is not the product
    [0.0012 * 5.5] as the program computes it, 0.006599999999999999. *)
Lemma fuel_identity_as_stated_fails :
  fst (find_best_route planar_osmnx (0, 0) (0, 1) "distancia" (fresh short_graph))
    = Ok (Some [1; 2]%Z)
  /\ exists st,
       Float64.calculate_route_statistics short_graph [1; 2]%Z = Ok st
       /\ Float64.distancia_km st = Float64.of_Q 0.0123
       /\ Float64.consumo_combustivel_litros st = Float64.of_Q 0.0012
       /\ (Float64.consumo_combustivel_litros st
           =? Float64.distancia_km st * Float64.FUEL_CONSUMPTION_PER_KM)%float = false
       /\ (Float64.custo_rs st
           =? Float64.consumo_combustivel_litros st * Float64.FUEL_COST_PER_LITER)%float
          = false.
Proof.
  split; [vm_compute; reflexivity|].
  eexists. split; [vm_compute; reflexivity|]. vm_compute. repeat split.
Qed.

(** C8, amended. The reported fuel is [distancia_km * FUEL_CONSUMPTION_PER_KM]
    rounded to four decimals, and the reported cost is
    [fuel * FUEL_COST_PER_LITER] rounded to four decimals, [distancia_km]
    and [fuel] being the reported, already rounded values. *)
Theorem statistics_fuel_and_cost (g : graph) (r : route) (st : Float64.route_statistics) :
  Float64.calculate_route_statistics g r = Ok st ->
  Float64.consumo_combustivel_litros st
  = Float64.round (Float64.distancia_km st * Float64.FUEL_CONSUMPTION_PER_KM) 4
  /\ Float64.custo_rs st
     = Float64.round (Float64.consumo_combustivel_litros st
                      * Float64.FUEL_COST_PER_LITER) 4.
Proof.
  intros Hst.
  by destruct (float_statistics_inv g r st Hst)
    as (t & length_sum & _ & _ & _ & _ & Hfuel & Hcost & _).
Qed.

Lemma statistics_fuel_and_cost_witness :
  exists st,
    Float64.calculate_route_statistics short_graph [1; 2]%Z = Ok st
    /\ Float64.consumo_combustivel_litros st
       = Float64.round (Float64.distancia_km st * Float64.FUEL_CONSUMPTION_PER_KM) 4
    /\ Float64.custo_rs st
       = Float64.round (Float64.consumo_combustivel_litros st
                        * Float64.FUEL_COST_PER_LITER) 4.
Proof.
  eexists. split; [vm_compute; reflexivity|].
  apply (statistics_fuel_and_cost short_graph [1; 2]%Z). vm_compute. reflexivity.
Defined.

(** ** The heap *)

Lemma qlt_true (a b : Q) : qlt a b = true -> a < b.
Proof.
  unfold qlt. intros H. apply negb_true_iff in H.
  apply Qnot_le_lt. intros Hle. apply Qle_bool_iff in Hle. congruence.
Qed.

Lemma qlt_false (a b : Q) : qlt a b = false -> b <= a.
Proof.
  unfold qlt. intros H. apply negb_false_iff in H. by apply Qle_bool_iff.
Qed.

Lemma entry_le_true (a b : entry) : entry_le a b = true -> entry_dist a <= entry_dist b.
Proof.
  destruct a as [[da ca] na], b as [[db cb] nb]. unfold entry_le, entry_dist. simpl.
  intros H. apply orb_prop in H as [H | H].
  - apply qlt_true in H. lra.
  - apply andb_prop in H as [H _]. apply Qeq_bool_eq in H. lra.
Qed.

Lemma entry_le_false (a b : entry) : entry_le a b = false -> entry_dist b <= entry_dist a.
Proof.
  destruct a as [[da ca] na], b as [[db cb] nb]. unfold entry_le, entry_dist. simpl.
  intros H. apply orb_false_elim in H as [H _]. by apply qlt_false.
Qed.

Lemma heappop_None (h : list entry) : heappop h = None -> h = [].
Proof.
  destruct h as [|x h]; [done|]. simpl.
  destruct (heappop h) as [[m rest]|]; [|done]. by destruct (entry_le x m).
Qed.

Lemma heappop_Some (h : list entry) (m : entry) (rest : list entry) :
  heappop h = Some (m, rest) ->
  (forall x, In x h <-> x = m \/ In x rest)
  /\ length h = S (length rest)
  /\ (forall x, In x rest -> entry_dist m <= entry_dist x).
Proof.
  revert m rest. induction h as [|x h IH]; intros m rest Hpop; [done|].
  simpl in Hpop. destruct (heappop h) as [[m' rest']|] eqn:Hh.
  - destruct (IH m' rest' eq_refl) as (Hin & Hlen & Hmin).
    destruct (entry_le x m') eqn:Hle; injection Hpop as <- <-.
    + split; [|split].
      * intros y. simpl. split; [intros [<- | Hy]; [by left | by right] | intros [-> | Hy]; [by left | by right]].
      * done.
      * intros y Hy. apply Hin in Hy as [-> | Hy].
        -- by apply entry_le_true.
        -- apply entry_le_true in Hle. specialize (Hmin y Hy). lra.
    + split; [|split].
      * intros y. simpl. rewrite Hin. intuition auto.
      * simpl. lia.
      * intros y [<- | Hy]; [by apply entry_le_false | by apply Hmin].
  - apply heappop_None in Hh. subst h. injection Hpop as <- <-. split; [|split].
    + intros y. simpl. intuition auto.
    + done.
    + intros y [].
Qed.

(** ** Edges, reachability and adjacency *)

Lemma dedup_In (l : list node) (x : node) : In x (dedup l) -> In x l.
Proof.
  revert x. induction l as [|y l IH]; intros x; simpl; [done|].
  intros [-> | Hx]; [by left|]. apply filter_In in Hx as [Hx _]. right. by apply IH.
Qed.

Lemma filter_length_bound {A} (f : A -> bool) (l : list A) :
  (length (List.filter f l) <= length l)%nat.
Proof. induction l as [|a l IH]; simpl; [lia|]. destruct (f a); simpl; lia. Qed.

Lemma dedup_length (l : list node) : (length (dedup l) <= length l)%nat.
Proof.
  induction l as [|y l IH]; [done|]. cbn [dedup length].
  apply le_n_S. etransitivity; [apply filter_length_bound | exact IH].
Qed.

Lemma parallel_edges_nonempty (g : graph) (u v : node) :
  edge_rel g u v -> parallel_edges g u v <> [].
Proof.
  intros (e & He & Hu & Hv) Hnil.
  assert (In (key_item e) (parallel_edges g u v)) as Hin.
  { unfold parallel_edges. apply in_map. apply filter_In. split; [done|].
    unfold edge_between, edge_from, edge_to. apply andb_true_intro. split; lia. }
  rewrite Hnil in Hin. destruct Hin.
Qed.

Lemma neighs_In (g : graph) (d : direction) (v w : node) (kd : keydict) :
  In (w, kd) (neighs g d v) ->
  link g d v w
  /\ kd = match d with
          | Forward => parallel_edges g v w
          | Backward => parallel_edges g w v
          end.
Proof.
  destruct d; simpl; unfold successors, predecessors; intros Hin;
    apply in_map_iff in Hin as (x & [= <- <-] & Hx);
    apply dedup_In, in_map_iff in Hx as (e & <- & He);
    apply filter_In in He as [He Hb]; (split; [|done]);
    exists e; unfold edge_from, edge_to in Hb; repeat split; try done; lia.
Qed.

Lemma neighs_length (g : graph) (d : direction) (v : node) :
  (length (neighs g d v) <= length (edges_at g d v))%nat.
Proof.
  destruct d; simpl; unfold successors, predecessors, edges_at;
    rewrite length_map;
    etransitivity; [apply dedup_length | by rewrite length_map
                   | apply dedup_length | by rewrite length_map].
Qed.

(** ** Paths *)

Lemma is_path_reachable (g : graph) (u v : node) (p : route) :
  is_path g u v p -> reachable g u v.
Proof. induction 1; [apply rtc_refl | by eapply rtc_l]. Qed.

Lemma is_path_head (g : graph) (u v : node) (p : route) :
  is_path g u v p -> exists q, p = u :: q.
Proof. destruct 1; by eexists. Qed.

Lemma is_path_snoc (g : graph) (u v w : node) (p : route) :
  is_path g u v p -> edge_rel g v w -> is_path g u w (p ++ [w])%list.
Proof.
  induction 1 as [u | u v x p Huv Hp IH]; intros Hw; cbn [app].
  - apply (path_edge g u w w); [done | apply path_end].
  - apply (path_edge g u v w); [done | by apply IH].
Qed.

Lemma is_path_app (g : graph) (u v w : node) (p q : route) :
  is_path g u v p -> is_path g v w (v :: q) -> is_path g u w (p ++ q)%list.
Proof.
  induction 1 as [u | u v x p Huv Hp IH]; intros Hq; cbn [app]; [done|].
  apply (path_edge g u v w); [done | by apply IH].
Qed.

(** The forward path to a node and the reversed backward path from it,
    joined as [bidirectional_dijkstra] joins them. *)
Lemma is_path_join (g : graph) (s t w : node) (p0 p1 : route) :
  is_path g s w p0 -> is_path g w t (rev p1) ->
  is_path g s t (p0 ++ List.tl (rev p1))%list.
Proof.
  intros H0 H1. destruct (is_path_head _ _ _ _ H1) as [q Hq].
  rewrite Hq in *. cbn [List.tl]. by apply (is_path_app g s w t).
Qed.

Lemma path_dir_link (g : graph) (source target : node) (d : direction)
    (v w : node) (pv : route) :
  path_dir g source target d v pv -> link g d v w ->
  path_dir g source target d w (pv ++ [w])%list.
Proof.
  destruct d; cbn [path_dir link]; intros Hp Hvw.
  - by apply (is_path_snoc g source v w).
  - rewrite rev_unit. by apply (path_edge g w v target).
Qed.

(** The final path only depends on what both sides have seen. *)
Lemma final_ok_ext (g : graph) (source target : node) (st st' : search) :
  seen (fwd st') = seen (fwd st) ->
  seen (bwd st') = seen (bwd st) ->
  finalpath st' = finalpath st ->
  final_ok g source target st -> final_ok g source target st'.
Proof. unfold final_ok. by intros -> -> ->. Qed.

(** ** The bidirectional search: invariant, termination and result *)

Lemma side_set_side (d : direction) (f : frontier) (st : search) :
  side d (set_side d f st) = f.
Proof. by destruct d. Qed.

Lemma search_measure_sides (g : graph) (d : direction) (st : search) :
  search_measure g st
  = (side_measure g d (side d st) + side_measure g (flip d) (side (flip d) st))%nat.
Proof. unfold search_measure. destruct d; simpl; lia. Qed.

Lemma settle_count (d : direction) (m : gmap node Q) (v : node) (x : Q) (es : list edge) :
  m !! v = None ->
  (length (List.filter (unsettled d (<[v := x]> m)) es)
   + length (List.filter (fun e => (endpoint d e =? v)%Z) es)
   = length (List.filter (unsettled d m) es))%nat.
Proof.
  intros Hv. induction es as [|e es IH]; [done|]. cbn [List.filter].
  destruct (Z.eqb_spec (endpoint d e) v) as [Heq | Hne].
  - assert (unsettled d (<[v := x]> m) e = false) as ->.
    { unfold unsettled. rewrite Heq, lookup_insert_eq.
      by rewrite bool_decide_eq_true_2 by eauto. }
    assert (unsettled d m e = true) as ->.
    { unfold unsettled. rewrite Heq, Hv.
      by rewrite bool_decide_eq_false_2 by (by intros [? ?]). }
    cbn [length]. lia.
  - assert (unsettled d (<[v := x]> m) e = unsettled d m e) as ->.
    { unfold unsettled. by rewrite lookup_insert_ne. }
    destruct (unsettled d m e); cbn [length]; lia.
Qed.

Section Search.

Variables (g : graph) (source target : node).
Variable wf : node -> node -> keydict -> result Q.

(** Every edge has a weight, and it is not negative. *)
Hypothesis costs : forall u v, edge_rel g u v ->
  exists c, wf u v (parallel_edges g u v) = Ok c /\ 0 <= c.

(** The search proper starts only for two different nodes. *)
Hypothesis distinct : source <> target.

Lemma sides_ok_sides (d : direction) (st : search) :
  sides_ok g source target st <->
  frontier_ok g source target d (side d st)
  /\ frontier_ok g source target (flip d) (side (flip d) st).
Proof. unfold sides_ok. destruct d; simpl; tauto. Qed.

Lemma pushed_ok (d : direction) (s : frontier) (pv : route) (v w : node)
    (len : Q) (c : nat) :
  frontier_ok g source target d s ->
  paths s !! v = Some pv ->
  link g d v w ->
  (forall m dm, dists s !! m = Some dm -> dm <= len) ->
  frontier_ok g source target d (pushed s pv w len c).
Proof.
  intros [Hf Hd Hs Hk Hw Ho] Hv Hvw Hbound. split; unfold pushed; simpl.
  - intros x c' n [[= _ _ <-] | Hin]; apply lookup_insert_is_Some'; [by left | right; eauto].
  - intros n Hn. apply lookup_insert_is_Some'. right. eauto.
  - intros n Hn. apply lookup_insert_is_Some' in Hn as [<- | Hn];
      apply lookup_insert_is_Some'; [by left | right; eauto].
  - intros n Hn. apply lookup_insert_is_Some' in Hn as [<- | Hn];
      apply lookup_insert_is_Some'; [by left | right; eauto].
  - intros n p Hn. apply lookup_insert_Some in Hn as [[<- <-] | [_ Hn]]; [|eauto].
    apply (path_dir_link g source target d v); [by apply Hw | done].
  - intros x c' n m dm [[= <- _ _] | Hin] Hm; eauto.
Qed.

(** How [# relaxing] leaves the best complete path in order. *)
Lemma final_ok_relaxed (st st' : search) (w : node) :
  final_ok g source target st ->
  (forall n, n <> w -> is_Some (seen (fwd st') !! n) -> is_Some (seen (fwd st) !! n)) ->
  (forall n, n <> w -> is_Some (seen (bwd st') !! n) -> is_Some (seen (bwd st) !! n)) ->
  is_path g source target (finalpath st')
  \/ (finalpath st' = finalpath st
      /\ (finalpath st <> []
          \/ seen (fwd st') !! w = None \/ seen (bwd st') !! w = None)) ->
  final_ok g source target st'.
Proof.
  intros [Hpath Hboth] Hf Hb [Hnew | [Heq Hcase]].
  - split; [by right|]. intros n _ _ Hnil. rewrite Hnil in Hnew.
    by destruct (is_path_head _ _ _ _ Hnew).
  - unfold final_ok. rewrite Heq. split; [done|]. intros n Hn0 Hn1.
    destruct Hcase as [Hne | Hnone]; [done|].
    destruct (decide (n = w)) as [-> | Hnw].
    + destruct Hnone as [Hnone | Hnone]; rewrite Hnone in *;
        [by destruct Hn0 | by destruct Hn1].
    + by apply (Hboth n); [apply Hf | apply Hb].
Qed.

(** After [# relaxing] towards [w] only [w] is newly seen, on the side
    that was relaxed. *)
Ltac seen_only_at w Hfinal :=
  apply (final_ok_relaxed _ _ w Hfinal); cbn [fwd bwd seen finalpath];
  [ first [done | intros n Hn; by rewrite lookup_insert_ne]
  | first [done | intros n Hn; by rewrite lookup_insert_ne]
  | ].

Lemma relaxing_spec (d : direction) (v w : node) (len : Q) (st : search) (pv : route) :
  search_ok g source target st ->
  paths (side d st) !! v = Some pv ->
  link g d v w ->
  (forall m dm, dists (side d st) !! m = Some dm -> dm <= len) ->
  exists st',
    relaxing d v w len st = Ok st'
    /\ side d st' = pushed (side d st) pv w len (counter st)
    /\ side (flip d) st' = side (flip d) st
    /\ final_ok g source target st'.
Proof.
  intros [Hsides Hfinal] Hv Hvw Hbound.
  apply (sides_ok_sides d) in Hsides as [Hside Hother].
  pose proof (pushed_ok d _ pv v w len (counter st) Hside Hv Hvw Hbound) as Hpushed.
  unfold relaxing, mbind, result_bind, rbind, getitem. cbv zeta. rewrite Hv.
  unfold pushed in *.
  destruct d; cbn [side set_side flip fwd bwd counter finaldist finalpath dir seen paths] in *.
  - destruct (<[w:=len]> (seen (fwd st)) !! w) as [d0|] eqn:H0.
    2: { eexists. do 3 (split; [done|]). seen_only_at w Hfinal.
         right. split; [done|]. right. by left. }
    destruct (seen (bwd st) !! w) as [d1|] eqn:H1.
    2: { eexists. do 3 (split; [done|]). seen_only_at w Hfinal.
         right. split; [done|]. right. by right. }
    destruct (ok_seen Hpushed w) as [p0 Hp0]; [cbn [seen]; eauto|].
    destruct (ok_seen Hother w) as [p1 Hp1]; [eauto|].
    assert (is_path g source target (p0 ++ List.tl (rev p1))%list) as Hjoin.
    { apply (is_path_join g source target w);
        [apply (ok_walk Hpushed w p0); exact Hp0 | apply (ok_walk Hother w p1 Hp1)]. }
    cbn [paths] in Hp0. rewrite Hp0, Hp1.
    destruct (bool_decide (finalpath st = [])) eqn:Hnil; cbn [orb].
    { eexists. do 3 (split; [done|]). seen_only_at w Hfinal. by left. }
    apply bool_decide_eq_false in Hnil.
    destruct (qlt (d0 + d1) (finaldist st)); eexists; do 3 (split; [done|]);
      seen_only_at w Hfinal; [by left | right; split; [done | by left]].
  - destruct (seen (fwd st) !! w) as [d0|] eqn:H0.
    2: { eexists. do 3 (split; [done|]). seen_only_at w Hfinal.
         right. split; [done|]. right. by left. }
    destruct (<[w:=len]> (seen (bwd st)) !! w) as [d1|] eqn:H1.
    2: { eexists. do 3 (split; [done|]). seen_only_at w Hfinal.
         right. split; [done|]. right. by right. }
    destruct (ok_seen Hother w) as [p0 Hp0]; [eauto|].
    destruct (ok_seen Hpushed w) as [p1 Hp1]; [cbn [seen]; eauto|].
    assert (is_path g source target (p0 ++ List.tl (rev p1))%list) as Hjoin.
    { apply (is_path_join g source target w);
        [apply (ok_walk Hother w p0 Hp0) | apply (ok_walk Hpushed w p1); exact Hp1]. }
    cbn [paths] in Hp1. rewrite Hp0, Hp1.
    destruct (bool_decide (finalpath st = [])) eqn:Hnil; cbn [orb].
    { eexists. do 3 (split; [done|]). seen_only_at w Hfinal. by left. }
    apply bool_decide_eq_false in Hnil.
    destruct (qlt (d0 + d1) (finaldist st)); eexists; do 3 (split; [done|]);
      seen_only_at w Hfinal; [by left | right; split; [done | by left]].
Qed.

Lemma grown_refl (d : direction) (st : search) : grown d 0 st st.
Proof. unfold grown. repeat split; lia. Qed.

Lemma grown_trans (d : direction) (n1 n2 : nat) (st1 st2 st3 : search) :
  grown d n1 st1 st2 -> grown d n2 st2 st3 -> grown d (n1 + n2) st1 st3.
Proof.
  intros (Ha & Hb & Hc & Hd) (Ha' & Hb' & Hc' & Hd').
  unfold grown. repeat split; try congruence. lia.
Qed.

Lemma relax_spec (d : direction) (v : node) (dist : Q) (st : search)
    (nb : node * keydict) :
  relax_ready g source target d v dist st ->
  In nb (neighs g d v) ->
  exists st',
    relax wf d v dist st nb = Ok st'
    /\ relax_ready g source target d v dist st'
    /\ grown d 1 st st'.
Proof.
  intros (Hok & [pv Hv] & Hbound) Hnb. destruct nb as [w kd].
  apply neighs_In in Hnb as [Hvw Hkd].
  assert (exists c, match d with Forward => wf v w kd | Backward => wf w v kd end = Ok c
                    /\ 0 <= c) as (c & Hc & Hc0).
  { subst kd. destruct d; simpl in Hvw; by apply costs. }
  unfold relax. rewrite Hc. unfold mbind, result_bind, rbind.
  assert (relax_ready g source target d v dist st /\ grown d 1 st st) as Hsame.
  { split; [split; [exact Hok | split; [by exists pv | exact Hbound]]
           | unfold grown; repeat split; lia]. }
  destruct (dists (side d st) !! w) as [dw|] eqn:Hdw.
  - assert (qlt (dist + c) dw = false) as ->.
    { unfold qlt. apply negb_false_iff, Qle_bool_iff.
      specialize (Hbound w dw Hdw). lra. }
    by exists st.
  - assert (exists st', relaxing d v w (dist + c) st = Ok st'
                        /\ relax_ready g source target d v dist st' /\ grown d 1 st st') as Hrelaxing.
    { destruct (relaxing_spec d v w (dist + c) st pv Hok Hv Hvw)
        as (st' & Hst' & Hs & Ho & Hfinal').
      { intros m dm Hm. specialize (Hbound m dm Hm). lra. }
      exists st'. split; [done|].
      destruct Hok as [Hsides Hfinal].
      apply (sides_ok_sides d) in Hsides as [Hside Hother].
      assert (frontier_ok g source target d (side d st')) as Hside'.
      { rewrite Hs. apply (pushed_ok d _ pv v w); try done.
        intros m dm Hm. specialize (Hbound m dm Hm). lra. }
      split; [split; [|split]|].
      - split; [|done]. apply (sides_ok_sides d). split; [done | by rewrite Ho].
      - rewrite Hs. unfold pushed. cbn [paths]. apply lookup_insert_is_Some'. right. eauto.
      - intros m dm. rewrite Hs. unfold pushed. cbn [dists]. apply Hbound.
      - unfold grown. rewrite Ho, Hs. unfold pushed. cbn [dists fringe length].
        repeat split; lia. }
    destruct (seen (side d st) !! w) as [sw|]; [|done].
    destruct (qlt (dist + c) sw); [done | by exists st].
Qed.

Lemma foldM_relax_spec (d : direction) (v : node) (dist : Q) (l : list (node * keydict))
    (st : search) :
  relax_ready g source target d v dist st ->
  (forall nb, In nb l -> In nb (neighs g d v)) ->
  exists st',
    foldM (relax wf d v dist) st l = Ok st'
    /\ search_ok g source target st'
    /\ grown d (length l) st st'.
Proof.
  revert st. induction l as [|nb l IH]; intros st Hready Hl.
  - exists st. split; [done|]. split; [apply Hready | apply grown_refl].
  - destruct (relax_spec d v dist st nb Hready) as (st1 & Hst1 & Hready1 & Hg1).
    { apply Hl. by left. }
    destruct (IH st1 Hready1) as (st2 & Hst2 & Hok2 & Hg2).
    { intros nb' Hin. apply Hl. by right. }
    exists st2. split; [|split; [done|]].
    + cbn [foldM]. rewrite Hst1. exact Hst2.
    + apply (grown_trans d 1 (length l) st st1 st2 Hg1 Hg2).
Qed.

Lemma popped_ok (d : direction) (s : frontier) (rest : list entry) :
  frontier_ok g source target d s ->
  (forall x, In x rest -> In x (fringe s)) ->
  frontier_ok g source target d {| dists := dists s; paths := paths s; fringe := rest; seen := seen s |}.
Proof.
  intros [Hf Hd Hs Hk Hw Ho] Hrest. split; cbn [dists paths fringe seen]; eauto.
Qed.

Lemma settled_ok (d : direction) (s : frontier) (dist : Q) (c : nat) (v : node)
    (rest : list entry) :
  frontier_ok g source target d s ->
  In (dist, c, v) (fringe s) ->
  (forall x, In x rest -> In x (fringe s)) ->
  (forall x, In x rest -> dist <= entry_dist x) ->
  frontier_ok g source target d {| dists := <[v := dist]> (dists s); paths := paths s;
                   fringe := rest; seen := seen s |}.
Proof.
  intros [Hf Hd Hs Hk Hw Ho] Hv Hrest Hmin. split; cbn [dists paths fringe seen]; eauto.
  - intros n Hn. apply lookup_insert_is_Some' in Hn as [<- | Hn]; eauto.
  - intros x c' n m dm Hin Hm. apply lookup_insert_Some in Hm as [[<- <-] | [_ Hm]].
    + apply (Hmin _ Hin).
    + eauto.
Qed.

(** One turn of the loop never raises: it returns a path from the source
    to the target, or it goes on from a state that is again in order and
    of smaller measure. *)
Lemma step_spec (st : search) :
  search_ok g source target st ->
  fringe (fwd st) <> [] ->
  fringe (bwd st) <> [] ->
  (exists r, step g wf st = Ok (Return r) /\ is_path g source target (snd r))
  \/ (exists st',
        step g wf st = Ok (Continue st')
        /\ search_ok g source target st'
        /\ (search_measure g st' < search_measure g st)%nat).
Proof.
  intros Hok Hf Hb. unfold step. cbv zeta.
  set (d := flip (dir st)). clearbody d.
  assert (fringe (side d st) <> []) as Hne by (by destruct d).
  destruct (heappop (fringe (side d st))) as [[[[dist c] v] rest]|] eqn:Hpop;
    [|by apply heappop_None in Hpop].
  destruct (heappop_Some _ _ _ Hpop) as (Hin & Hlen & Hmin).
  destruct Hok as [Hsides Hfinal].
  apply (sides_ok_sides d) in Hsides as [Hside Hother].
  assert (In (dist, c, v) (fringe (side d st))) as Hv by (apply Hin; by left).
  assert (forall x, In x rest -> In x (fringe (side d st))) as Hrest
    by (intros x Hx; apply Hin; by right).
  cbn [dists paths fringe seen].
  rewrite (search_measure_sides g d st).
  destruct (dists (side d st) !! v) as [dv|] eqn:Hdv.
  - right. eexists. split; [done|]. split.
    + split.
      * apply (sides_ok_sides d). destruct d; cbn [side flip fwd bwd set_side] in *;
          (split; [by apply popped_ok | done]).
      * apply (final_ok_ext g source target st); [by destruct d .. | done].
    + rewrite (search_measure_sides g d).
      destruct d; cbn [side flip fwd bwd set_side] in *;
        unfold side_measure; cbn [dists fringe]; lia.
  - set (settled := {| dists := <[v := dist]> (dists (side d st));
                       paths := paths (side d st); fringe := rest;
                       seen := seen (side d st) |}).
    assert (frontier_ok g source target d settled) as Hsettled by (by apply (settled_ok d _ dist c v)).
    match goal with
    | |- context [set_side d settled ?x] => set (st1 := x)
    end.
    assert (side (flip d) (set_side d settled st1) = side (flip d) st) as Hflip
      by (by destruct d).
    assert (side d (set_side d settled st1) = settled) as Hd by apply side_set_side.
    rewrite Hflip.
    destruct (dists (side (flip d) st) !! v) as [dv|] eqn:Hdv'.
    { left. eexists. split; [done|]. cbn [snd].
      assert (finalpath (set_side d settled st1) = finalpath st) as -> by (by destruct d).
      destruct Hfinal as [[Hnil | Hpath] Hboth]; [exfalso | done].
      assert (is_Some (seen (side d st) !! v)) as Hseen
        by (by apply (ok_known Hside), (ok_fringe Hside dist c)).
      assert (is_Some (seen (side (flip d) st) !! v)) as Hseen'
        by (apply (ok_known Hother), (ok_dists Hother); eauto).
      apply (Hboth v); [by destruct d .. | done]. }
    right.
    assert (relax_ready g source target d v dist (set_side d settled st1)) as Hready.
    { split; [|split].
      - split.
        + apply (sides_ok_sides d). rewrite Hd, Hflip. by split.
        + apply (final_ok_ext g source target st); [by destruct d .. | done].
      - rewrite Hd. by apply (ok_fringe Hside dist c).
      - rewrite Hd. intros m dm Hm. cbn [settled dists] in Hm.
        apply lookup_insert_Some in Hm as [[_ <-] | [_ Hm]]; [lra|].
        by apply (ok_order Hside dist c v m dm). }
    destruct (foldM_relax_spec d v dist (neighs g d v) _ Hready)
      as (st3 & Hst3 & Hok3 & Hg1 & Hg2 & Hg3 & Hg4); [done|].
    rewrite Hst3. unfold mbind, result_bind, rbind.
    exists st3. split; [done|]. split; [done|].
    rewrite (search_measure_sides g d st3). unfold side_measure.
    rewrite Hg1, Hg2, Hg3, Hflip, Hd. cbn [settled dists fringe].
    rewrite Hd in Hg4. cbn [settled fringe] in Hg4.
    pose proof (settle_count d (dists (side d st)) v dist (g_edges g) Hdv) as Hcount.
    pose proof (neighs_length g d v) as Hneighs. unfold edges_at in Hneighs.
    lia.
Qed.

(** With fuel above the measure the loop finishes: it returns a path from
    the source to the target, or a heap runs empty and it raises
    [NetworkXNoPath]. *)
Lemma search_loop_finishes (fuel : nat) (st : search) :
  search_ok g source target st ->
  (search_measure g st < fuel)%nat ->
  (exists r, search_loop fuel g wf st = Some (Ok r) /\ is_path g source target (snd r))
  \/ (exists msg, search_loop fuel g wf st = Some (Raise (NetworkXNoPath msg))).
Proof.
  revert st. induction fuel as [|fuel IH]; intros st Hok Hfuel; [lia|].
  cbn [search_loop].
  destruct (fringe (fwd st)) as [|x0 f0] eqn:Hf; [right; by eexists|].
  destruct (fringe (bwd st)) as [|x1 f1] eqn:Hb; [right; by eexists|].
  destruct (step_spec st Hok) as [(r & Hstep & Hreach) | (st' & Hstep & Hok' & Hless)];
    [by rewrite Hf | by rewrite Hb | |]; rewrite Hstep.
  - left. by exists r.
  - apply IH; [done | lia].
Qed.

Lemma search_init_ok : search_ok g source target (search_init source target).
Proof.
  split.
  - split; split; cbn [search_init fwd bwd dists paths fringe seen].
    all: try (intros x c n [[= _ _ <-] | []]; rewrite lookup_singleton_eq; eauto).
    all: try (intros n [q Hn]; by rewrite lookup_empty in Hn).
    all: try (intros n [q Hn]; apply lookup_singleton_Some in Hn as [<- _];
              rewrite lookup_singleton_eq; eauto).
    all: try (intros n p Hn; apply lookup_singleton_Some in Hn as [<- <-];
              apply path_end).
    all: intros x c n m dm _ Hm; by rewrite lookup_empty in Hm.
  - split; cbn [search_init fwd bwd seen finalpath]; [by left|].
    intros n [q0 H0] [q1 H1].
    apply lookup_singleton_Some in H0 as [<- _].
    by apply lookup_singleton_Some in H1 as [<- _].
Qed.

Lemma search_init_measure :
  (search_measure g (search_init source target) < search_fuel g)%nat.
Proof.
  unfold search_measure, side_measure, search_fuel.
  cbn [search_init fwd bwd dists fringe length].
  pose proof (filter_length_bound (unsettled Forward ∅) (g_edges g)).
  pose proof (filter_length_bound (unsettled Backward ∅) (g_edges g)).
  lia.
Qed.

(** The search started by [bidirectional_dijkstra] finishes within its
    fuel. *)
Lemma search_finishes :
  (exists r, search_loop (search_fuel g) g wf (search_init source target) = Some (Ok r)
             /\ is_path g source target (snd r))
  \/ (exists msg, search_loop (search_fuel g) g wf (search_init source target)
                  = Some (Raise (NetworkXNoPath msg))).
Proof.
  apply search_loop_finishes; [apply search_init_ok | apply search_init_measure].
Qed.

Lemma search_no_path :
  ~ reachable g source target ->
  exists msg,
    search_loop (search_fuel g) g wf (search_init source target)
    = Some (Raise (NetworkXNoPath msg)).
Proof.
  intros Hapart. destruct search_finishes as [(r & _ & Hpath) | Hraise]; [|done].
  by apply is_path_reachable in Hpath.
Qed.

End Search.

(** ** Weights that are never negative *)

Lemma qmin_list_nonneg (x : Q) (l : list Q) :
  0 <= x -> (forall y, In y l -> 0 <= y) -> 0 <= qmin_list x l.
Proof.
  unfold qmin_list. revert x. induction l as [|y l IH]; intros x Hx Hl; [done|].
  cbn [fold_left]. apply IH.
  - unfold qmin. destruct (Qle_bool x y); [done | apply Hl; by left].
  - intros z Hz. apply Hl. by right.
Qed.

Lemma weight_function_costs (g : graph) (w : weight) :
  weight_nonneg g w ->
  forall u v, edge_rel g u v ->
  exists c, weight_function w u v (parallel_edges g u v) = Ok c /\ 0 <= c.
Proof.
  intros Hw u v Huv. destruct w as [name | f]; cbn [weight_function weight_nonneg] in *.
  - assert (forall it, In it (parallel_edges g u v) -> 0 <= attr_weight name (snd it)) as Hall.
    { intros it Hit. apply parallel_edges_In in Hit as (e & He & _ & _ & <-).
      unfold attr_weight, attr_get.
      destruct (e_data e !! name) as [q|] eqn:Hq; [by eapply Hw | lra]. }
    pose proof (parallel_edges_nonempty g u v Huv) as Hne.
    destruct (parallel_edges g u v) as [|it rest]; [done|]. cbn [map].
    eexists. split; [done|]. apply qmin_list_nonneg.
    + apply Hall. by left.
    + intros y Hy. apply in_map_iff in Hy as (it' & <- & Hit'). apply Hall. by right.
  - eexists. split; [done | apply Hw].
Qed.

(** ** What the library search and OSMnx return *)

(** With non-negative weights the search returns a path of the graph from
    the source to the target, or raises [NetworkXNoPath] or [NodeNotFound];
    it never runs out of fuel and never raises anything else. *)
Lemma bidirectional_dijkstra_outcome (g : graph) (source target : node) (w : weight) :
  weight_nonneg g w ->
  (exists r, bidirectional_dijkstra g source target w = Ok r
             /\ is_path g source target (snd r))
  \/ (exists msg, bidirectional_dijkstra g source target w = Raise (NetworkXNoPath msg))
  \/ (exists msg, bidirectional_dijkstra g source target w = Raise (NodeNotFound msg)).
Proof.
  intros Hw. unfold bidirectional_dijkstra.
  destruct (negb (has_node g source && has_node g target)); [right; right; by eexists|].
  destruct (Z.eqb_spec source target) as [-> | Hne].
  { left. eexists. split; [done | apply path_end]. }
  destruct (search_finishes g source target (weight_function w)
              (weight_function_costs g w Hw) Hne) as [(r & -> & Hpath) | (msg & ->)].
  - left. by exists r.
  - right. left. by exists msg.
Qed.

(** Whatever [ox.shortest_path] returns as a route is a path of the graph
    from the origin to the destination. *)
Lemma shortest_path_sound (g : graph) (orig dest : node) (w : weight) (p : route) :
  weight_nonneg g w ->
  shortest_path g orig dest w = Ok (Some p) ->
  is_path g orig dest p.
Proof.
  intros Hw. unfold shortest_path. destruct (g_edges g) as [|e0 es]; [done|].
  destruct (bidirectional_dijkstra_outcome g orig dest w Hw)
    as [([c q] & -> & Hpath) | [(msg & ->) | (msg & ->)]]; [|done..].
  by intros [= <-].
Qed.

Lemma bidirectional_dijkstra_no_path (g : graph) (source target : node) (w : weight) :
  has_node g source = true ->
  has_node g target = true ->
  weight_nonneg g w ->
  ~ reachable g source target ->
  exists msg, bidirectional_dijkstra g source target w = Raise (NetworkXNoPath msg).
Proof.
  intros Hs Ht Hw Hapart. unfold bidirectional_dijkstra. rewrite Hs, Ht. cbn [andb negb].
  destruct (Z.eqb_spec source target) as [-> | Hne].
  { exfalso. apply Hapart. apply rtc_refl. }
  destruct (search_no_path g source target (weight_function w)
              (weight_function_costs g w Hw) Hne Hapart) as [msg ->].
  by exists msg.
Qed.

Lemma shortest_path_no_path (g : graph) (orig dest : node) (w : weight) :
  g_edges g <> [] ->
  has_node g orig = true ->
  has_node g dest = true ->
  weight_nonneg g w ->
  ~ reachable g orig dest ->
  shortest_path g orig dest w = Ok None.
Proof.
  intros He Ho Hd Hw Hapart. unfold shortest_path.
  destruct (g_edges g) as [|e0 es] eqn:Hes; [done|].
  by destruct (bidirectional_dijkstra_no_path g orig dest w Ho Hd Hw Hapart) as [msg ->].
Qed.

(** ** Length defaulting keeps the shape of the graph *)

Lemma default_lengths_edge_rel (g : graph) (u v : node) :
  edge_rel (default_lengths g) u v <-> edge_rel g u v.
Proof.
  unfold edge_rel, default_lengths, map_edge_data. cbn [g_edges]. split.
  - intros (e & He & Hu & Hv). apply in_map_iff in He as (e0 & <- & He0).
    exists e0. by repeat split.
  - intros (e & He & Hu & Hv).
    exists {| e_u := e_u e; e_v := e_v e; e_key := e_key e;
              e_data := setdefault "length" 0 (e_data e) |}.
    split; [|done]. apply in_map_iff. by exists e.
Qed.

Lemma default_lengths_edges (g : graph) :
  g_edges g <> [] -> g_edges (default_lengths g) <> [].
Proof. destruct g as [ns [|e es]]; [done|]. intros _. discriminate. Qed.

Lemma default_lengths_reachable (g : graph) (u v : node) :
  reachable (default_lengths g) u v -> reachable g u v.
Proof.
  unfold reachable. apply rtc_subrel. intros x y. apply default_lengths_edge_rel.
Qed.

Lemma default_lengths_nonneg (name : string) (g : graph) :
  nonneg_attr name g -> nonneg_attr name (default_lengths g).
Proof.
  intros Hg e He q Hq. unfold default_lengths, map_edge_data in He. cbn [g_edges] in He.
  apply in_map_iff in He as (e0 & <- & He0). cbn [e_data] in Hq.
  unfold setdefault in Hq. destruct (e_data e0 !! "length") eqn:Hlen; [by eapply Hg|].
  apply lookup_insert_Some in Hq as [[_ <-] | [_ Hq]]; [lra | by eapply Hg].
Qed.

(** ** Route search: returned routes, and pairs with no connecting path *)

(** Once the lookups, the derivation and the choice of weight have gone
    through, the result is that of the path search on the defaulted graph. *)
Lemma find_best_route_run (ox : osmnx) (a b : Q * Q) (p : string) (w : world)
    (orig dest : node) (g' : graph) (wt : weight) :
  nearest_nodes ox (w_graph w) (snd a) (fst a) = Ok orig ->
  nearest_nodes ox (w_graph w) (snd b) (fst b) = Ok dest ->
  derive ox p (w_graph w) = Ok g' ->
  select_weight p = Ok wt ->
  exists tr,
    find_best_route ox a b p w
    = (shortest_path (default_lengths g') orig dest wt,
       {| w_graph := default_lengths g'; w_trace := tr |}).
Proof.
  intros Ha Hb Hg Hwt. unfold find_best_route, derive in *. rewrite Hwt.
  unfold mbind, M_bind, mret, M_ret, record, reading, updating, lift in *.
  cbn [w_graph w_trace]. rewrite Ha. cbn [w_graph w_trace]. rewrite Hb.
  destruct (String.eqb p "tempo").
  - cbn [w_graph w_trace]. unfold result_bind, rbind in Hg.
    destruct (add_edge_speeds ox (w_graph w)) as [g1|]; [|done].
    cbn [w_graph w_trace]. rewrite Hg. cbn [w_graph w_trace]. by eexists.
  - injection Hg as <-. cbn [w_graph w_trace]. by eexists.
Qed.

Lemma select_weight_nonneg (p : string) (wt : weight) (g : graph) :
  select_weight p = Ok wt ->
  nonneg_attr "length" g ->
  nonneg_attr "travel_time" g ->
  weight_nonneg g wt.
Proof.
  unfold select_weight. intros Hwt Hlen Htime.
  destruct (String.eqb p "distancia"); [by injection Hwt as <-|].
  destruct (String.eqb p "tempo"); [by injection Hwt as <-|].
  destruct (String.eqb p "combustivel"); [injection Hwt as <-|].
  { intros u v kd. by vm_compute. }
  destruct (String.eqb p "custo"); [injection Hwt as <- | done].
  intros u v kd. by vm_compute.
Qed.

Lemma select_weight_inside (p : string) :
  p ∈ criteria -> exists wt, select_weight p = Ok wt.
Proof.
  unfold criteria. intros Hp.
  repeat (apply elem_of_cons in Hp as [-> | Hp]; [by eexists|]).
  by apply elem_of_nil in Hp.
Qed.

(** A route the search returns is a path of the graph from the node the
    first point resolves to, to the node the second point resolves to: it
    is never empty and never stops short. *)
Lemma returned_route_is_path (ox : osmnx) (a b : Q * Q) (p : string) (w : world)
    (orig dest : node) (g' : graph) (r : route) :
  nearest_nodes ox (w_graph w) (snd a) (fst a) = Ok orig ->
  nearest_nodes ox (w_graph w) (snd b) (fst b) = Ok dest ->
  derive ox p (w_graph w) = Ok g' ->
  nonneg_attr "length" g' ->
  nonneg_attr "travel_time" g' ->
  fst (find_best_route ox a b p w) = Ok (Some r) ->
  is_path (default_lengths g') orig dest r.
Proof.
  intros Ha Hb Hg Hlen Htime Hr.
  destruct (select_weight p) as [wt|e] eqn:Hwt.
  - destruct (find_best_route_run ox a b p w orig dest g' wt Ha Hb Hg Hwt) as [tr Hrun].
    rewrite Hrun in Hr. cbn [fst] in Hr.
    apply (shortest_path_sound _ _ _ wt); [|done].
    apply (select_weight_nonneg p); [done | | ]; by apply default_lengths_nonneg.
  - exfalso. revert Hr. unfold find_best_route, derive in *. rewrite Hwt.
    unfold mbind, M_bind, mret, M_ret, record, reading, updating, lift in *.
    cbn [w_graph w_trace]. rewrite Ha. cbn [w_graph w_trace]. rewrite Hb.
    destruct (String.eqb p "tempo"); [|done].
    cbn [w_graph w_trace]. unfold result_bind, rbind in Hg.
    destruct (add_edge_speeds ox (w_graph w)) as [g1|]; [|done].
    cbn [w_graph w_trace]. by rewrite Hg.
Qed.

(** A set of nodes no edge leaves cuts the graph. *)
Lemma closed_set_apart (g : graph) (inside : node -> bool) (s t : node) :
  closed_set g inside = true ->
  inside s = true ->
  inside t = false ->
  ~ reachable g s t.
Proof.
  intros Hclosed Hs Ht Hreach.
  assert (inside t = true) as Ht'; [|congruence].
  induction Hreach as [x | x y z (e & He & <- & <-) _ IH]; [done|].
  apply IH; [|done]. unfold closed_set in Hclosed.
  rewrite forallb_forall in Hclosed. specialize (Hclosed e He).
  by rewrite Hs in Hclosed.
Qed.

(** C2, as stated, fails: between the two separate roads of
    [islands_graph] there is no path, and the search returns [None] to its
    caller; it raises nothing. *)
Lemma no_path_is_not_an_error :
  ~ reachable islands_graph 1 4
  /\ fst (find_best_route planar_osmnx (0, 0) (0, 6) "distancia" (fresh islands_graph))
     = Ok None
  /\ forall e,
       fst (find_best_route planar_osmnx (0, 0) (0, 6) "distancia" (fresh islands_graph))
       <> Raise e.
Proof.
  split; [|split].
  - apply (closed_set_apart islands_graph (fun n => (n <=? 2)%Z)); reflexivity.
  - vm_compute. reflexivity.
  - intros e. vm_compute. discriminate.
Qed.

(** C2, amended. For every criterion of [criteria], on a graph that has at
    least one edge, when the two points resolve to nodes of the graph
    between which there is no path (weights being non-negative), the search
    returns [None] to the caller: no error is raised, and no node sequence,
    empty or partial, is returned. *)
Theorem no_path_returns_none (ox : osmnx) (a b : Q * Q) (p : string) (w : world)
    (orig dest : node) (g' : graph) :
  p ∈ criteria ->
  nearest_nodes ox (w_graph w) (snd a) (fst a) = Ok orig ->
  nearest_nodes ox (w_graph w) (snd b) (fst b) = Ok dest ->
  derive ox p (w_graph w) = Ok g' ->
  g_edges g' <> [] ->
  has_node g' orig = true ->
  has_node g' dest = true ->
  nonneg_attr "length" g' ->
  nonneg_attr "travel_time" g' ->
  ~ reachable g' orig dest ->
  fst (find_best_route ox a b p w) = Ok None.
Proof.
  intros Hp Ha Hb Hg He Ho Hd Hlen Htime Hapart.
  destruct (select_weight_inside p Hp) as [wt Hwt].
  destruct (find_best_route_run ox a b p w orig dest g' wt Ha Hb Hg Hwt) as [tr ->].
  cbn [fst]. apply shortest_path_no_path; try done.
  - by apply default_lengths_edges.
  - apply (select_weight_nonneg p); [done | | ]; by apply default_lengths_nonneg.
  - intros Hreach. by apply Hapart, default_lengths_reachable.
Qed.

Lemma no_path_returns_none_witness :
  fst (find_best_route planar_osmnx (0, 0) (0, 6) "distancia" (fresh islands_graph))
  = Ok None.
Proof.
  apply (no_path_returns_none planar_osmnx (0, 0) (0, 6) "distancia"
           (fresh islands_graph) 1 4 islands_graph).
  - apply (bool_decide_unpack _). vm_compute. exact I.
  - reflexivity.
  - reflexivity.
  - reflexivity.
  - discriminate.
  - reflexivity.
  - reflexivity.
  - apply check_nonneg_attr_sound. reflexivity.
  - apply check_nonneg_attr_sound. reflexivity.
  - apply (closed_set_apart islands_graph (fun n => (n <=? 2)%Z)); reflexivity.
Defined.

(** ** The time criterion *)

(** C6, as stated, fails: no edge of [road_graph] has a [travel_time], and
    the time search raises nothing: lines 55-56 derive the travel times
    (120 s and 240 s) and the search returns the route. *)
Lemma time_weight_missing_attribute_no_error :
  Forall (fun e => e_data e !! "travel_time" = None) (g_edges road_graph)
  /\ fst (find_best_route planar_osmnx (0, 0) (0, 3) "tempo" (fresh road_graph))
     = Ok (Some [1; 2; 3]%Z)
  /\ map (fun e => Qred <$> e_data e !! "travel_time")
         (g_edges (w_graph (snd (find_best_route planar_osmnx (0, 0) (0, 3) "tempo"
                                   (fresh road_graph)))))
     = [Some 120; Some 240].
Proof.
  split; [repeat constructor|]. split; vm_compute; reflexivity.
Qed.

(** C6, amended. With the time criterion the search first derives speeds
    and travel times over the whole graph (lines 55-56), whether or not an
    edge has a [travel_time] already. If the derivation raises, the caller
    gets that exception, and neither the length defaulting nor a path
    search has been run. If it goes through, the result is that of the
    path search by [travel_time] on the derived graph. *)
Theorem time_search_derives_travel_times (ox : osmnx) (a b : Q * Q) (w : world)
    (orig dest : node) :
  nearest_nodes ox (w_graph w) (snd a) (fst a) = Ok orig ->
  nearest_nodes ox (w_graph w) (snd b) (fst b) = Ok dest ->
  match derive ox "tempo" (w_graph w) with
  | Raise e =>
      fst (find_best_route ox a b "tempo" w) = Raise e
      /\ exists calls,
           w_trace (snd (find_best_route ox a b "tempo" w)) = (w_trace w ++ calls)%list
           /\ Forall before_search calls
  | Ok g' =>
      fst (find_best_route ox a b "tempo" w)
        = shortest_path (default_lengths g') orig dest (WeightAttr "travel_time")
      /\ w_graph (snd (find_best_route ox a b "tempo" w)) = default_lengths g'
  end.
Proof.
  intros Ha Hb. destruct (derive ox "tempo" (w_graph w)) as [g'|e] eqn:Hg.
  - destruct (find_best_route_run ox a b "tempo" w orig dest g'
                (WeightAttr "travel_time") Ha Hb Hg eq_refl) as [tr ->]. done.
  - revert Hg. unfold find_best_route, derive.
    unfold mbind, M_bind, mret, M_ret, record, reading, updating, lift.
    cbn [w_graph w_trace]. rewrite Ha. cbn [w_graph w_trace]. rewrite Hb.
    change (String.eqb "tempo" "tempo") with true. cbn [w_graph w_trace].
    unfold result_bind, rbind.
    destruct (add_edge_speeds ox (w_graph w)) as [g1|e1].
    + cbn [w_graph w_trace]. intros ->. cbn [fst snd w_trace]. split; [done|].
      eexists. rewrite <- !app_assoc. split; [done|]. repeat constructor.
    + intros [= <-]. cbn [fst snd w_trace]. split; [done|].
      eexists. rewrite <- !app_assoc. split; [done|]. repeat constructor.
Qed.

Lemma time_search_derives_travel_times_witness :
  fst (find_best_route planar_osmnx (0, 0) (0, 3) "tempo" (fresh line_graph))
    = Raise (KeyError "highway")
  /\ exists g',
       derive planar_osmnx "tempo" road_graph = Ok g'
       /\ fst (find_best_route planar_osmnx (0, 0) (0, 3) "tempo" (fresh road_graph))
          = shortest_path (default_lengths g') 1 3 (WeightAttr "travel_time").
Proof.
  split.
  - apply (time_search_derives_travel_times planar_osmnx (0, 0) (0, 3)
             (fresh line_graph) 1 3 eq_refl eq_refl).
  - pose proof (time_search_derives_travel_times planar_osmnx (0, 0) (0, 3)
                  (fresh road_graph) 1 3 eq_refl eq_refl) as Hrun.
    change (w_graph (fresh road_graph)) with road_graph in Hrun.
    destruct (derive planar_osmnx "tempo" road_graph) as [g'|e] eqn:Hg.
    + exists g'. split; [reflexivity | apply Hrun].
    + exfalso. vm_compute in Hg. discriminate.
Defined.

(** ** Length defaulting, edge by edge *)

Lemma setdefault_lookup (k : string) (v : Q) (d : attrs) :
  setdefault k v d !! k = Some (attr_get d k v).
Proof.
  unfold setdefault, attr_get. destruct (d !! k) as [q|] eqn:Hk; [done|].
  by rewrite lookup_insert_eq.
Qed.

Lemma setdefault_lookup_ne (k k' : string) (v : Q) (d : attrs) :
  k' <> k -> setdefault k v d !! k' = d !! k'.
Proof.
  intros Hne. unfold setdefault. destruct (d !! k); [done|].
  by rewrite lookup_insert_ne.
Qed.

Lemma setdefault_present (k : string) (v : Q) (d : attrs) :
  is_Some (d !! k) -> setdefault k v d = d.
Proof. intros [q Hq]. unfold setdefault. by rewrite Hq. Qed.

Lemma default_lengths_has_lengths (g : graph) : has_lengths (default_lengths g).
Proof.
  intros e He. unfold default_lengths, map_edge_data in He. cbn [g_edges] in He.
  apply in_map_iff in He as (e0 & <- & _). cbn [e_data].
  rewrite setdefault_lookup. eauto.
Qed.

Lemma check_has_lengths_sound (g : graph) :
  check_has_lengths g = true -> has_lengths g.
Proof.
  unfold check_has_lengths. rewrite forallb_forall. intros Hall e He.
  apply (bool_decide_unpack _). apply Is_true_true, Hall, He.
Qed.

Lemma default_lengths_fixed (g : graph) : has_lengths g -> default_lengths g = g.
Proof.
  destruct g as [ns es]. unfold has_lengths, default_lengths, map_edge_data.
  cbn [g_nodes g_edges]. intros Hall. f_equal.
  induction es as [|e es IH]; [done|].
  cbn [map]. rewrite IH by (intros e' He'; apply Hall; by right).
  f_equal. destruct e as [u v k d]. cbn [e_u e_v e_key e_data]. f_equal.
  apply setdefault_present. apply (Hall {| e_u := u; e_v := v; e_key := k; e_data := d |}).
  by left.
Qed.

(** X1. The loop of lines 73-74 keeps the nodes, the edges with their
    endpoints and keys, and every attribute other than [length]; an edge
    with a length keeps it and an edge without one gets the length 0, so
    that afterwards every edge has a length. *)
Theorem default_lengths_adds_missing_lengths (g : graph) :
  g_nodes (default_lengths g) = g_nodes g
  /\ Forall2 defaulted (g_edges g) (g_edges (default_lengths g))
  /\ has_lengths (default_lengths g).
Proof.
  split; [done|]. split; [|apply default_lengths_has_lengths].
  unfold default_lengths, map_edge_data. cbn [g_edges].
  induction (g_edges g) as [|e es IH]; [constructor|].
  cbn [map]. constructor; [|exact IH].
  unfold defaulted. cbn [e_u e_v e_key e_data]. do 3 (split; [done|]). split.
  - intros k Hk. by apply setdefault_lookup_ne.
  - apply setdefault_lookup.
Qed.

(** X2. On a graph whose edges all have a length, as the script's graph has
    after [add_edge_lengths] (line 25), the loop of lines 73-74 changes
    nothing. *)
Theorem default_lengths_keeps_complete_graph (g : graph) :
  has_lengths g -> default_lengths g = g.
Proof. apply default_lengths_fixed. Qed.

Lemma default_lengths_keeps_complete_graph_witness :
  default_lengths line_graph = line_graph.
Proof.
  apply (default_lengths_keeps_complete_graph line_graph).
  apply check_has_lengths_sound. vm_compute. reflexivity.
Defined.

(** ** How a search that returns has run *)

Lemma find_best_route_inv (ox : osmnx) (a b : Q * Q) (p : string) (w : world)
    (found : option route) :
  fst (find_best_route ox a b p w) = Ok found ->
  exists orig dest g' wt,
    nearest_nodes ox (w_graph w) (snd a) (fst a) = Ok orig
    /\ nearest_nodes ox (w_graph w) (snd b) (fst b) = Ok dest
    /\ derive ox p (w_graph w) = Ok g'
    /\ select_weight p = Ok wt
    /\ shortest_path (default_lengths g') orig dest wt = Ok found
    /\ w_graph (snd (find_best_route ox a b p w)) = default_lengths g'.
Proof.
  intros Hfound.
  destruct (nearest_nodes ox (w_graph w) (snd a) (fst a)) as [orig|e] eqn:Ha.
  2: { exfalso. revert Hfound. unfold find_best_route.
       unfold mbind, M_bind, mret, M_ret, record, reading, updating, lift.
       cbn [w_graph w_trace]. by rewrite Ha. }
  destruct (nearest_nodes ox (w_graph w) (snd b) (fst b)) as [dest|e] eqn:Hb.
  2: { exfalso. revert Hfound. unfold find_best_route.
       unfold mbind, M_bind, mret, M_ret, record, reading, updating, lift.
       cbn [w_graph w_trace]. rewrite Ha. cbn [w_graph w_trace]. by rewrite Hb. }
  destruct (derive ox p (w_graph w)) as [g'|e] eqn:Hg.
  2: { exfalso. revert Hfound. unfold find_best_route, derive in *.
       unfold mbind, M_bind, mret, M_ret, record, reading, updating, lift in *.
       cbn [w_graph w_trace]. rewrite Ha. cbn [w_graph w_trace]. rewrite Hb.
       destruct (String.eqb p "tempo"); [|done].
       cbn [w_graph w_trace]. unfold result_bind, rbind in Hg.
       destruct (add_edge_speeds ox (w_graph w)) as [g1|]; [|done].
       cbn [w_graph w_trace]. by rewrite Hg. }
  destruct (select_weight p) as [wt|e] eqn:Hwt.
  2: { exfalso. revert Hfound. unfold find_best_route, derive in *. rewrite Hwt.
       unfold mbind, M_bind, mret, M_ret, record, reading, updating, lift in *.
       cbn [w_graph w_trace]. rewrite Ha. cbn [w_graph w_trace]. rewrite Hb.
       destruct (String.eqb p "tempo"); [|done].
       cbn [w_graph w_trace]. unfold result_bind, rbind in Hg.
       destruct (add_edge_speeds ox (w_graph w)) as [g1|]; [|done].
       cbn [w_graph w_trace]. by rewrite Hg. }
  destruct (find_best_route_run ox a b p w orig dest g' wt Ha Hb Hg Hwt) as [tr Hrun].
  rewrite Hrun in Hfound |- *. cbn [fst snd w_graph] in *.
  by exists orig, dest, g', wt.
Qed.

Lemma search_has_lengths (ox : osmnx) (a b : Q * Q) (p : string)
    (w : world) (found : option route) :
  fst (find_best_route ox a b p w) = Ok found ->
  has_lengths (w_graph (snd (find_best_route ox a b p w))).
Proof.
  intros Hfound.
  destruct (find_best_route_inv ox a b p w found Hfound)
    as (orig & dest & g' & wt & _ & _ & _ & _ & _ & ->).
  apply default_lengths_has_lengths.
Qed.

(** X3. Whenever a search returns, with a route or with [None], it has left
    a length on every edge of the shared graph. *)
Theorem search_leaves_lengths (ox : osmnx) (a b : Q * Q) (p : string)
    (w : world) (found : option route) :
  fst (find_best_route ox a b p w) = Ok found ->
  has_lengths (w_graph (snd (find_best_route ox a b p w))).
Proof. apply search_has_lengths. Qed.

(** The three-node graph with the lengths taken off its edges. *)
Lemma search_leaves_lengths_witness :
  has_lengths
    (w_graph (snd (find_best_route planar_osmnx (0, 0) (0, 3) "distancia"
                     (fresh (map_edge_data (fun d => delete "length" d) line_graph))))).
Proof.
  apply (search_leaves_lengths planar_osmnx (0, 0) (0, 3) "distancia"
           (fresh (map_edge_data (fun d => delete "length" d) line_graph))
           (Some [1; 2; 3]%Z)).
  vm_compute. reflexivity.
Defined.

(** ** The bidirectional search: a path that exists is found *)

Lemma dedup_complete (l : list node) (x : node) : In x l -> In x (dedup l).
Proof.
  induction l as [|a l IH]; [done|]. intros Hin. cbn [dedup].
  destruct (Z.eq_dec x a) as [-> | Hne]; [by left|]. right.
  apply filter_In. split.
  - apply IH. by destruct Hin as [-> | Hin].
  - apply negb_true_iff, Z.eqb_neq. exact Hne.
Qed.

Lemma neighs_covers (g : graph) (d : direction) (v w : node) :
  link g d v w -> exists kd, In (w, kd) (neighs g d v).
Proof.
  destruct d; cbn [link neighs]; intros (e & He & Hu & Hv).
  - exists (parallel_edges g v w). unfold successors.
    apply in_map_iff. exists w. split; [done|]. apply dedup_complete.
    apply in_map_iff. exists e. split; [done|]. apply filter_In. split; [done|].
    unfold edge_from. by apply Z.eqb_eq.
  - exists (parallel_edges g w v). unfold predecessors.
    apply in_map_iff. exists w. split; [done|]. apply dedup_complete.
    apply in_map_iff. exists e. split; [done|]. apply filter_In. split; [done|].
    unfold edge_to. by apply Z.eqb_eq.
Qed.

Lemma rtc_flip {A} (R : relation A) (x y : A) : rtc R x y -> rtc (fun a b => R b a) y x.
Proof.
  induction 1 as [|x y z Hxy _ IH]; [apply rtc_refl|].
  eapply rtc_r; [exact IH | exact Hxy].
Qed.

Lemma relaxing_dir (d : direction) (v w : node) (len : Q) (st st' : search) :
  relaxing d v w len st = Ok st' -> dir st' = dir st.
Proof.
  unfold relaxing, mbind, result_bind, rbind, getitem. cbv zeta.
  destruct (paths (side d st) !! v) as [pv|]; [|done].
  destruct d; cbn [side set_side flip fwd bwd counter finaldist finalpath dir seen paths].
  all: repeat match goal with
       | |- context [match ?x !! ?k with _ => _ end] => destruct (x !! k)
       | |- context [if ?c then _ else _] => destruct c
       end; by intros [= <-].
Qed.

Lemma in_fringe_pushed (s : frontier) (pv : route) (w : node) (len : Q) (c : nat)
    (n : node) :
  n = w \/ in_fringe s n -> in_fringe (pushed s pv w len c) n.
Proof.
  unfold in_fringe, pushed. cbn [fringe].
  intros [-> | (x & c' & Hin)]; [exists len, c; by left | exists x, c'; by right].
Qed.

Section Complete.

Variable g : graph.
Variables source target : node.
Variable wf : node -> node -> keydict -> result Q.

Hypothesis costs : forall u v, edge_rel g u v ->
  exists c, wf u v (parallel_edges g u v) = Ok c /\ 0 <= c.

Hypothesis distinct : source <> target.

(** What one turn of the [for] loop does to the two sides: the other side
    is left alone; this side is unchanged with the neighbour already seen,
    or the neighbour has been pushed. *)
Lemma relax_effect (d : direction) (v : node) (dist : Q) (st st' : search)
    (nb : node * keydict) :
  relax_ready g source target d v dist st ->
  In nb (neighs g d v) ->
  relax wf d v dist st nb = Ok st' ->
  side (flip d) st' = side (flip d) st
  /\ dir st' = dir st
  /\ ((side d st' = side d st /\ is_Some (seen (side d st) !! fst nb))
      \/ exists pv len c, side d st' = pushed (side d st) pv (fst nb) len c).
Proof.
  intros (Hok & [pv Hv] & Hbound) Hnb. destruct nb as [w kd].
  apply neighs_In in Hnb as [Hvw Hkd].
  assert (exists c, match d with Forward => wf v w kd | Backward => wf w v kd end = Ok c
                    /\ 0 <= c) as (c & Hc & Hc0).
  { subst kd. destruct d; simpl in Hvw; by apply costs. }
  unfold relax. rewrite Hc. unfold mbind, result_bind, rbind. cbn [fst].
  assert (forall st', relaxing d v w (dist + c) st = Ok st' ->
            side (flip d) st' = side (flip d) st
            /\ dir st' = dir st
            /\ ((side d st' = side d st /\ is_Some (seen (side d st) !! w))
                \/ exists pv len c, side d st' = pushed (side d st) pv w len c))
    as Hrelaxing.
  { intros st1 Hst1.
    destruct (relaxing_spec g source target d v w (dist + c) st pv Hok Hv Hvw)
      as (st2 & Hst2 & Hs & Ho & _).
    { intros m dm Hm. specialize (Hbound m dm Hm). lra. }
    rewrite Hst1 in Hst2. injection Hst2 as <-.
    split; [done|]. split; [by apply relaxing_dir in Hst1|]. right. eauto. }
  destruct Hok as [Hsides _].
  apply (sides_ok_sides g source target d) in Hsides as [Hside _].
  destruct (dists (side d st) !! w) as [dw|] eqn:Hdw.
  - destruct (qlt (dist + c) dw); [done|]. intros [= <-].
    do 2 (split; [done|]). left. split; [done|].
    apply (ok_known Hside), (ok_dists Hside). eauto.
  - destruct (seen (side d st) !! w) as [sw|] eqn:Hsw; [|apply Hrelaxing].
    destruct (qlt (dist + c) sw); [apply Hrelaxing|]. intros [= <-].
    do 2 (split; [done|]). left. split; [done|]. eauto.
Qed.

Lemma relax_full (d : direction) (start v : node) (dist : Q) (st st' : search)
    (nb : node * keydict) (pending : list node) :
  relax_ready g source target d v dist st ->
  frontier_full g d start v (fst nb :: pending) (side d st) ->
  In nb (neighs g d v) ->
  relax wf d v dist st nb = Ok st' ->
  frontier_full g d start v pending (side d st')
  /\ side (flip d) st' = side (flip d) st
  /\ dir st' = dir st
  /\ dists (side d st') = dists (side d st).
Proof.
  intros Hready [Hstart Hseen Hneighs] Hnb Hst'.
  destruct (relax_effect d v dist st st' nb Hready Hnb Hst')
    as (Ho & Hdir & [[Hs Hw] | (pv & len & c & Hs)]); rewrite Hs.
  - split; [|done]. split; [done | done |].
    intros n m Hn Hnm. destruct (Hneighs n m Hn Hnm) as [Hm | [-> [<- | Hm]]]; eauto.
  - split; [|done]. split; unfold pushed; cbn [dists seen].
    + apply lookup_insert_is_Some'. by right.
    + intros n Hn. apply lookup_insert_is_Some' in Hn.
      destruct Hn as [<- | Hn].
      * right. apply in_fringe_pushed. by left.
      * destruct (Hseen n Hn) as [Hd | Hf]; [by left|].
        right. apply in_fringe_pushed. by right.
    + intros n m Hn Hnm. destruct (Hneighs n m Hn Hnm) as [Hm | [-> [<- | Hm]]].
      * left. apply lookup_insert_is_Some'. by right.
      * left. apply lookup_insert_is_Some'. by left.
      * by right.
Qed.

Lemma foldM_relax_full (d : direction) (start v : node) (dist : Q)
    (l : list (node * keydict)) (st st' : search) :
  relax_ready g source target d v dist st ->
  frontier_full g d start v (map fst l) (side d st) ->
  (forall nb, In nb l -> In nb (neighs g d v)) ->
  foldM (relax wf d v dist) st l = Ok st' ->
  frontier_full g d start v [] (side d st')
  /\ side (flip d) st' = side (flip d) st
  /\ dir st' = dir st
  /\ dists (side d st') = dists (side d st).
Proof.
  revert st. induction l as [|nb l IH]; intros st Hready Hfull Hl.
  - by intros [= <-].
  - cbn [foldM]. unfold mbind, result_bind, rbind.
    destruct (relax_spec g source target wf costs d v dist st nb Hready)
      as (st1 & Hst1 & Hready1 & _).
    { apply Hl. by left. }
    rewrite Hst1. intros Hst'.
    destruct (relax_full d start v dist st st1 nb (map fst l) Hready Hfull)
      as (Hfull1 & Ho1 & Hdir1 & Hd1); [apply Hl; by left | done |].
    destruct (IH st1 Hready1 Hfull1) as (Hfull' & Ho' & Hdir' & Hd'); [|done|].
    { intros nb' Hin. apply Hl. by right. }
    split; [done|]. split; [congruence|]. split; congruence.
Qed.

Lemma popped_full (d : direction) (start v : node) (s : frontier) (m : entry)
    (rest : list entry) (x : Q) :
  frontier_full g d start v [] s ->
  (forall y, In y (fringe s) <-> y = m \/ In y rest) ->
  is_Some (dists s !! snd m) ->
  frontier_full g d start v []
    {| dists := dists s; paths := paths s; fringe := rest; seen := seen s |}.
Proof.
  intros [Hstart Hseen Hneighs] Hin Hm. split; cbn [dists seen]; [done| |done].
  intros n Hn. destruct (Hseen n Hn) as [Hd | (y & c & Hy)]; [by left|].
  apply Hin in Hy as [<- | Hy]; [by left|]. right. by exists y, c.
Qed.

Lemma settled_full (d : direction) (start v : node) (s : frontier) (dist : Q)
    (c : nat) (rest : list entry) :
  frontier_full g d start v [] s ->
  (forall y, In y (fringe s) <-> y = (dist, c, v) \/ In y rest) ->
  frontier_full g d start v (map fst (neighs g d v))
    {| dists := <[v := dist]> (dists s); paths := paths s; fringe := rest;
       seen := seen s |}.
Proof.
  intros [Hstart Hseen Hneighs] Hin. split; cbn [dists seen]; [done| |].
  - intros n Hn. destruct (Hseen n Hn) as [Hd | (y & c' & Hy)].
    + left. apply lookup_insert_is_Some'. by right.
    + apply Hin in Hy as [[= _ _ ->] | Hy].
      * left. apply lookup_insert_is_Some'. by left.
      * right. by exists y, c'.
  - intros n m Hn Hnm. apply lookup_insert_is_Some' in Hn.
    destruct (Z.eq_dec n v) as [-> | Hne].
    + right. split; [done|]. destruct (neighs_covers g d v m Hnm) as [kd Hkd].
      apply in_map_iff. by exists (m, kd).
    + destruct Hn as [<- | Hn]; [done|].
      destruct (Hneighs n m Hn Hnm) as [Hm | [_ []]]. by left.
Qed.

Lemma frontier_full_side (d : direction) (st : search) :
  search_full g source target st ->
  frontier_full g d (start_of source target d) (start_of source target d) []
    (side d st).
Proof. intros Hfull. destruct d; [apply (full_fwd Hfull) | apply (full_bwd Hfull)]. Qed.

Lemma frontier_full_any (d : direction) (start v v' : node) (s : frontier) :
  frontier_full g d start v [] s -> frontier_full g d start v' [] s.
Proof.
  intros [Hstart Hseen Hneighs]. split; [done | done |].
  intros n m Hn Hnm. destruct (Hneighs n m Hn Hnm) as [Hm | [_ []]]. by left.
Qed.

(** The node popped first on a side is the side's starting node. *)
Lemma started_pop (d : direction) (st : search) (dist : Q) (c : nat) (v : node)
    (rest : list entry) :
  started source target d st ->
  heappop (fringe (side d st)) = Some ((dist, c, v), rest) ->
  is_Some (dists (side d st) !! start_of source target d)
  \/ v = start_of source target d.
Proof.
  intros [Hs | Hs] Hpop; [by left|]. right.
  rewrite Hs in Hpop. cbn [heappop] in Hpop.
  by destruct d; injection Hpop as _ _ <- _.
Qed.

Lemma both_sides (P : direction -> Prop) (d : direction) :
  P d -> P (flip d) -> forall d0, P d0.
Proof. intros Hd Hf d0. by destruct d, d0. Qed.

Lemma search_full_other (d : direction) (st : search) :
  search_full g source target st ->
  dists (side d st) !! start_of source target (flip d) = None.
Proof. intros Hfull. destruct d; [apply (full_target Hfull) | apply (full_source Hfull)]. Qed.

(** The side whose turn it is has settled its starting node only if the
    other side has settled its own. *)
Lemma search_full_turn (st : search) :
  search_full g source target st ->
  let d := flip (dir st) in
  is_Some (dists (side d st) !! start_of source target d) ->
  is_Some (dists (side (flip d) st) !! start_of source target (flip d)).
Proof.
  intros Hfull d. subst d.
  destruct (dir st) eqn:Hdir; cbn [flip side start_of].
  - intros _. by apply (full_turn_fwd Hfull).
  - by apply (full_turn_bwd Hfull).
Qed.

Lemma search_full_intro (d : direction) (st : search) :
  (forall d0, frontier_full g d0 (start_of source target d0)
                (start_of source target d0) [] (side d0 st)) ->
  (forall d0, started source target d0 st) ->
  dir st = d ->
  is_Some (dists (side d st) !! start_of source target d) ->
  (forall d0, dists (side d0 st) !! start_of source target (flip d0) = None) ->
  search_full g source target st.
Proof.
  intros Hsides Hstarted Hdir Hstart Hother. split.
  - apply (Hsides Forward).
  - apply (Hsides Backward).
  - exact Hstarted.
  - intros Hfwd. rewrite Hfwd in Hdir. by subst d.
  - intros Hbwd _. rewrite Hbwd in Hdir. by subst d.
  - apply (Hother Forward).
  - apply (Hother Backward).
Qed.

Lemma settle_ready (d : direction) (st st2 : search) (dist : Q) (c : nat) (v : node)
    (rest : list entry) :
  search_ok g source target st ->
  heappop (fringe (side d st)) = Some ((dist, c, v), rest) ->
  side d st2 = {| dists := <[v := dist]> (dists (side d st));
                  paths := paths (side d st); fringe := rest;
                  seen := seen (side d st) |} ->
  side (flip d) st2 = side (flip d) st ->
  finalpath st2 = finalpath st ->
  relax_ready g source target d v dist st2.
Proof.
  intros [Hsides Hfinal] Hpop Hd Hflip Hpath.
  destruct (heappop_Some _ _ _ Hpop) as (Hin & _ & Hmin).
  apply (sides_ok_sides g source target d) in Hsides as [Hside Hother].
  assert (In (dist, c, v) (fringe (side d st))) as Hv by (apply Hin; by left).
  assert (forall x, In x rest -> In x (fringe (side d st))) as Hrest
    by (intros x Hx; apply Hin; by right).
  split; [|split].
  - split.
    + apply (sides_ok_sides g source target d). rewrite Hd, Hflip.
      split; [|done]. by apply (settled_ok g source target d _ dist c v).
    + apply (final_ok_ext g source target st); [| |done|done].
      * destruct d; cbn [side flip] in *; [by rewrite Hd | by rewrite Hflip].
      * destruct d; cbn [side flip] in *; [by rewrite Hflip | by rewrite Hd].
  - rewrite Hd. cbn [paths]. by apply (ok_fringe Hside dist c).
  - rewrite Hd. intros m dm Hm. cbn [dists] in Hm.
    apply lookup_insert_Some in Hm as [[_ <-] | [_ Hm]]; [lra|].
    by apply (ok_order Hside dist c v m dm).
Qed.

(** A turn of the loop that goes on keeps the exploration in order. *)
Lemma step_full (st st' : search) :
  search_ok g source target st ->
  search_full g source target st ->
  step g wf st = Ok (Continue st') ->
  search_full g source target st'.
Proof.
  intros Hok Hfull. unfold step. cbv zeta.
  pose proof (search_full_turn st Hfull) as Hturn. cbv zeta in Hturn.
  set (d := flip (dir st)) in *. clearbody d.
  destruct (heappop (fringe (side d st))) as [[[[dist c] v] rest]|] eqn:Hpop; [|done].
  destruct (heappop_Some _ _ _ Hpop) as (Hin & _ & _).
  pose proof (started_pop d st dist c v rest (full_started Hfull d) Hpop) as Hfirst.
  pose proof (frontier_full_side d st Hfull) as Hside.
  cbn [dists paths fringe seen].
  destruct (dists (side d st) !! v) as [dv|] eqn:Hdv.
  - intros [= <-]. apply (search_full_intro d).
    + apply (both_sides _ d).
      * assert (side d {| fwd := fwd (set_side d {| dists := dists (side d st);
                   paths := paths (side d st); fringe := rest;
                   seen := seen (side d st) |} st);
                 bwd := bwd (set_side d {| dists := dists (side d st);
                   paths := paths (side d st); fringe := rest;
                   seen := seen (side d st) |} st);
                 counter := counter st; finaldist := finaldist st;
                 finalpath := finalpath st; dir := d |}
                = {| dists := dists (side d st); paths := paths (side d st);
                     fringe := rest; seen := seen (side d st) |}) as Hd
          by (by destruct d).
        destruct d; cbn [side set_side fwd bwd counter finaldist finalpath] in *.
        -- apply (popped_full Forward _ _ _ (dist, c, v) rest dist Hside Hin).
           cbn [snd]. rewrite Hdv. eauto.
        -- apply (popped_full Backward _ _ _ (dist, c, v) rest dist Hside Hin).
           cbn [snd]. rewrite Hdv. eauto.
      * pose proof (frontier_full_side (flip d) st Hfull) as Hother.
        by destruct d.
    + apply (both_sides _ d).
      * left. destruct Hfirst as [Hs | ->].
        -- by destruct d.
        -- destruct d; cbn [side set_side fwd bwd dists] in *; rewrite Hdv; eauto.
      * pose proof (full_started Hfull (flip d)) as Hs. unfold started in *.
        by destruct d.
    + done.
    + destruct Hfirst as [Hs | ->].
      * by destruct d.
      * destruct d; cbn [side set_side fwd bwd dists] in *; rewrite Hdv; eauto.
    + apply (both_sides _ d).
      * pose proof (search_full_other d st Hfull) as Hs. by destruct d.
      * pose proof (search_full_other (flip d) st Hfull) as Hs. by destruct d.
  - set (settled := {| dists := <[v := dist]> (dists (side d st));
                       paths := paths (side d st); fringe := rest;
                       seen := seen (side d st) |}).
    match goal with
    | |- context [set_side d settled ?x] => set (st1 := x)
    end.
    assert (side (flip d) (set_side d settled st1) = side (flip d) st) as Hflip
      by (by destruct d).
    assert (side d (set_side d settled st1) = settled) as Hd by apply side_set_side.
    assert (dir (set_side d settled st1) = d) as Hdir by (by destruct d).
    assert (finalpath (set_side d settled st1) = finalpath st) as Hpath
      by (by destruct d).
    rewrite Hflip.
    destruct (dists (side (flip d) st) !! v) as [dv|] eqn:Hdv'; [done|].
    pose proof (settle_ready d st _ dist c v rest Hok Hpop Hd Hflip Hpath) as Hready.
    destruct (foldM (relax wf d v dist) (set_side d settled st1) (neighs g d v))
      as [st3|e] eqn:Hst3; [|done].
    unfold mbind, result_bind, rbind. intros [= <-].
    destruct (foldM_relax_full d (start_of source target d) v dist (neighs g d v)
                (set_side d settled st1) st3 Hready)
      as (Hfull3 & Hflip3 & Hdir3 & Hdists3); [| done | done |].
    { rewrite Hd. apply (settled_full d _ v _ dist c rest); [|done].
      by apply (frontier_full_any d _ (start_of source target d)). }
    rewrite Hflip in Hflip3. rewrite Hd in Hdists3. cbn [settled dists] in Hdists3.
    assert (v <> start_of source target (flip d)) as Hv.
    { intros ->. destruct Hfirst as [Hs | Hs].
      - apply Hturn in Hs. rewrite Hdv' in Hs. by destruct Hs.
      - by destruct d; cbn [flip start_of] in Hs. }
    apply (search_full_intro d).
    + apply (both_sides _ d).
      * by apply (frontier_full_any d _ v).
      * rewrite Hflip3. apply (frontier_full_side (flip d) st Hfull).
    + apply (both_sides _ d).
      * left. rewrite Hdists3. apply lookup_insert_is_Some'.
        destruct Hfirst as [Hs | ->]; [by right | by left].
      * pose proof (full_started Hfull (flip d)) as Hs. unfold started in *.
        by rewrite Hflip3.
    + congruence.
    + rewrite Hdists3. apply lookup_insert_is_Some'.
      destruct Hfirst as [Hs | ->]; [by right | by left].
    + apply (both_sides _ d).
      * rewrite Hdists3. rewrite lookup_insert_ne by done.
        apply (search_full_other d st Hfull).
      * rewrite Hflip3. apply (search_full_other (flip d) st Hfull).
Qed.

(** A side whose heap is empty has given a final distance to every node
    it can reach from its starting node. *)
Lemma empty_fringe_closed (d : direction) (start v : node) (s : frontier) (n : node) :
  frontier_full g d start v [] s ->
  fringe s = [] ->
  rtc (link g d) start n ->
  is_Some (dists s !! n).
Proof.
  intros [Hstart Hseen Hneighs] Hempty Hreach.
  assert (forall m, is_Some (seen s !! m) -> is_Some (dists s !! m)) as Hall.
  { intros m Hm. destruct (Hseen m Hm) as [Hd | (x & c & Hin)]; [done|].
    rewrite Hempty in Hin. destruct Hin. }
  revert n Hreach. apply rtc_ind_r.
  - by apply Hall.
  - intros m n _ Hmn Hm. apply Hall.
    destruct (Hneighs m n Hm Hmn) as [Hn | [_ []]]. exact Hn.
Qed.

(** With a path from the source to the target, neither heap can run
    empty while the loop is running. *)
Lemma fringes_last (st : search) :
  search_full g source target st ->
  reachable g source target ->
  fringe (fwd st) <> [] /\ fringe (bwd st) <> [].
Proof.
  intros Hfull Hreach. split; intros Hempty.
  - pose proof (empty_fringe_closed Forward source source (fwd st) target
                  (full_fwd Hfull) Hempty) as Hclosed.
    rewrite (full_target Hfull) in Hclosed. by destruct Hclosed.
  - pose proof (empty_fringe_closed Backward target target (bwd st) source
                  (full_bwd Hfull) Hempty) as Hclosed.
    rewrite (full_source Hfull) in Hclosed.
    destruct Hclosed; [|done]. by apply (rtc_flip (edge_rel g)).
Qed.

Lemma search_loop_complete (fuel : nat) (st : search) :
  search_ok g source target st ->
  search_full g source target st ->
  (search_measure g st < fuel)%nat ->
  reachable g source target ->
  exists r, search_loop fuel g wf st = Some (Ok r) /\ is_path g source target (snd r).
Proof.
  revert st. induction fuel as [|fuel IH]; intros st Hok Hfull Hfuel Hreach; [lia|].
  cbn [search_loop].
  destruct (fringes_last st Hfull Hreach) as [Hf Hb].
  destruct (step_spec g source target wf costs st Hok Hf Hb)
    as [(r & Hstep & Hpath) | (st' & Hstep & Hok' & Hless)].
  - destruct (fringe (fwd st)); [done|]. destruct (fringe (bwd st)); [done|].
    rewrite Hstep. by exists r.
  - destruct (fringe (fwd st)); [done|]. destruct (fringe (bwd st)); [done|].
    rewrite Hstep. apply IH; [done | by apply (step_full st) | lia | done].
Qed.

Lemma search_init_full : search_full g source target (search_init source target).
Proof.
  split; cbn [search_init fwd bwd dists seen dir].
  - split; cbn [dists seen fringe].
    + rewrite lookup_singleton_eq. eauto.
    + intros n [q Hn]. apply lookup_singleton_Some in Hn as [<- _].
      right. exists 0, 0%nat. by left.
    + intros n m [q Hn]. by rewrite lookup_empty in Hn.
  - split; cbn [dists seen fringe].
    + rewrite lookup_singleton_eq. eauto.
    + intros n [q Hn]. apply lookup_singleton_Some in Hn as [<- _].
      right. exists 0, 1%nat. by left.
    + intros n m [q Hn]. by rewrite lookup_empty in Hn.
  - intros d. right. by destruct d.
  - done.
  - intros _ [q Hq]. by rewrite lookup_empty in Hq.
  - apply lookup_empty.
  - apply lookup_empty.
Qed.

Lemma search_complete :
  reachable g source target ->
  exists r, search_loop (search_fuel g) g wf (search_init source target) = Some (Ok r)
            /\ is_path g source target (snd r).
Proof.
  apply search_loop_complete;
    [by apply search_init_ok | apply search_init_full | apply search_init_measure].
Qed.

End Complete.

(** ** Route search: what is returned, and when

    Before it searches, OSMnx looks over the weight attribute of all
    edges and warns about missing values; that check presumes there is an
    edge to look at. The statements that a search returns are therefore
    made for graphs with at least one edge. *)

Lemma is_path_pairs (g : graph) (u v : node) (p : route) :
  is_path g u v p ->
  head p = Some u /\ last p = Some v
  /\ Forall (fun uv => edge_rel g (fst uv) (snd uv)) (pairs p).
Proof.
  induction 1 as [u | u v w p Huv Hp (Hhd & Hlast & Hpairs)].
  - repeat split. constructor.
  - destruct p as [|x q]; [done|]. injection Hhd as ->.
    split; [done|]. split; [done|]. cbn [pairs]. by constructor.
Qed.

Lemma bidirectional_dijkstra_complete (g : graph) (source target : node) (w : weight) :
  has_node g source = true ->
  has_node g target = true ->
  weight_nonneg g w ->
  reachable g source target ->
  exists r, bidirectional_dijkstra g source target w = Ok r
            /\ is_path g source target (snd r).
Proof.
  intros Hs Ht Hw Hreach. unfold bidirectional_dijkstra. rewrite Hs, Ht. cbn [andb negb].
  destruct (Z.eqb_spec source target) as [-> | Hne].
  { eexists. split; [done | apply path_end]. }
  destruct (search_complete g source target (weight_function w)
              (weight_function_costs g w Hw) Hne Hreach) as (r & -> & Hpath).
  by exists r.
Qed.

Lemma shortest_path_complete (g : graph) (orig dest : node) (w : weight) :
  g_edges g <> [] ->
  has_node g orig = true ->
  has_node g dest = true ->
  weight_nonneg g w ->
  reachable g orig dest ->
  exists p, shortest_path g orig dest w = Ok (Some p) /\ is_path g orig dest p.
Proof.
  intros He Ho Hd Hw Hreach. unfold shortest_path.
  destruct (g_edges g) as [|e0 es] eqn:Hes; [done|].
  destruct (bidirectional_dijkstra_complete g orig dest w Ho Hd Hw Hreach)
    as ([c p] & -> & Hpath).
  by exists p.
Qed.

Lemma shortest_path_returns (g : graph) (orig dest : node) (w : weight) :
  g_edges g <> [] ->
  has_node g orig = true ->
  has_node g dest = true ->
  weight_nonneg g w ->
  exists found, shortest_path g orig dest w = Ok found.
Proof.
  intros He Ho Hd Hw. unfold shortest_path, bidirectional_dijkstra.
  destruct (g_edges g) as [|e0 es] eqn:Hes; [done|].
  rewrite Ho, Hd. cbn [andb negb].
  destruct (Z.eqb_spec orig dest) as [-> | Hne]; [by eexists|].
  destruct (search_finishes g orig dest (weight_function w)
              (weight_function_costs g w Hw) Hne) as [([c q] & -> & _) | (msg & ->)];
    by eexists.
Qed.

Lemma has_node_default_lengths (g : graph) (n : node) :
  has_node (default_lengths g) n = has_node g n.
Proof. reflexivity. Qed.

Lemma line_graph_reachable : reachable line_graph 1 3.
Proof.
  apply (is_path_reachable line_graph 1 3 [1; 2; 3]%Z).
  apply (path_edge _ 1 2 3); [eexists; split; [left; reflexivity | done]|].
  apply (path_edge _ 2 3 3); [eexists; split; [right; left; reflexivity | done]|].
  apply path_end.
Qed.

Lemma distancia_inside : "distancia" ∈ criteria.
Proof. apply (bool_decide_unpack _). vm_compute. exact I. Qed.

(** X4. A route the search returns is a path of the graph it leaves: it
    starts at the node nearest to the first point, ends at the node nearest
    to the second, and every two consecutive nodes are joined by an edge.
    Lengths and travel times are taken not to be negative. *)
Theorem returned_route_is_a_path (ox : osmnx) (a b : Q * Q) (p : string)
    (w : world) (r : route) :
  let after := w_graph (snd (find_best_route ox a b p w)) in
  nonneg_attr "length" after ->
  nonneg_attr "travel_time" after ->
  fst (find_best_route ox a b p w) = Ok (Some r) ->
  exists orig dest,
    nearest_nodes ox (w_graph w) (snd a) (fst a) = Ok orig
    /\ nearest_nodes ox (w_graph w) (snd b) (fst b) = Ok dest
    /\ is_path after orig dest r
    /\ head r = Some orig
    /\ last r = Some dest
    /\ Forall (fun uv => edge_rel after (fst uv) (snd uv)) (pairs r).
Proof.
  intros after Hlen Htime Hr. subst after.
  destruct (find_best_route_inv ox a b p w (Some r) Hr)
    as (orig & dest & g' & wt & Ha & Hb & Hg & Hwt & Hpath & Hafter).
  rewrite Hafter in *. exists orig, dest. do 2 (split; [done|]).
  assert (is_path (default_lengths g') orig dest r) as His.
  { apply (shortest_path_sound _ _ _ wt); [|done]. by apply (select_weight_nonneg p). }
  split; [done|]. by apply is_path_pairs.
Qed.

Lemma returned_route_is_a_path_witness :
  exists orig dest,
    is_path (w_graph (snd (find_best_route planar_osmnx (0, 0) (0, 3) "distancia"
                                           (fresh line_graph))))
            orig dest [1; 2; 3]%Z.
Proof.
  destruct (returned_route_is_a_path planar_osmnx (0, 0) (0, 3) "distancia"
              (fresh line_graph) [1; 2; 3]%Z)
    as (orig & dest & _ & _ & Hpath & _).
  - apply check_nonneg_attr_sound. vm_compute. reflexivity.
  - apply check_nonneg_attr_sound. vm_compute. reflexivity.
  - vm_compute. reflexivity.
  - by exists orig, dest.
Defined.

(** X5. Whenever the destination node can be reached from the origin node
    along directed edges, the search returns a route, and that route is a
    path from the one to the other. The criterion is one of the four, and
    no length or travel time is negative. *)
Theorem existing_path_is_found (ox : osmnx) (a b : Q * Q) (p : string) (w : world)
    (orig dest : node) (g' : graph) :
  p ∈ criteria ->
  nearest_nodes ox (w_graph w) (snd a) (fst a) = Ok orig ->
  nearest_nodes ox (w_graph w) (snd b) (fst b) = Ok dest ->
  derive ox p (w_graph w) = Ok g' ->
  has_node g' orig = true ->
  has_node g' dest = true ->
  g_edges g' <> [] ->
  nonneg_attr "length" g' ->
  nonneg_attr "travel_time" g' ->
  reachable g' orig dest ->
  exists r,
    fst (find_best_route ox a b p w) = Ok (Some r)
    /\ is_path (default_lengths g') orig dest r.
Proof.
  intros Hp Ha Hb Hg Ho Hd He Hlen Htime Hreach.
  destruct (select_weight_inside p Hp) as [wt Hwt].
  destruct (find_best_route_run ox a b p w orig dest g' wt Ha Hb Hg Hwt) as [tr ->].
  cbn [fst]. apply shortest_path_complete; [by apply default_lengths_edges | done | done | |].
  - apply (select_weight_nonneg p); [done | | ]; by apply default_lengths_nonneg.
  - apply rtc_subrel with (R1 := edge_rel g'); [|done].
    intros u v Huv. by apply default_lengths_edge_rel.
Qed.

Lemma existing_path_is_found_witness :
  exists r,
    fst (find_best_route planar_osmnx (0, 0) (0, 3) "distancia" (fresh line_graph))
    = Ok (Some r)
    /\ is_path (default_lengths line_graph) 1 3 r.
Proof.
  apply (existing_path_is_found planar_osmnx (0, 0) (0, 3) "distancia"
           (fresh line_graph) 1 3 line_graph).
  - apply distancia_inside.
  - reflexivity.
  - reflexivity.
  - reflexivity.
  - reflexivity.
  - reflexivity.
  - discriminate.
  - apply check_nonneg_attr_sound. vm_compute. reflexivity.
  - apply check_nonneg_attr_sound. vm_compute. reflexivity.
  - apply line_graph_reachable.
Defined.

(** When the derivation of lines 55-56 raises, the search raises the same
    exception; only the time criterion derives anything. *)
Lemma find_best_route_derive_raises (ox : osmnx) (a b : Q * Q) (p : string) (w : world)
    (orig dest : node) (e : exn) :
  nearest_nodes ox (w_graph w) (snd a) (fst a) = Ok orig ->
  nearest_nodes ox (w_graph w) (snd b) (fst b) = Ok dest ->
  derive ox p (w_graph w) = Raise e ->
  p = "tempo" /\ fst (find_best_route ox a b p w) = Raise e.
Proof.
  intros Ha Hb Hg. unfold find_best_route, derive in *.
  unfold mbind, M_bind, mret, M_ret, record, reading, updating, lift in *.
  cbn [w_graph w_trace]. rewrite Ha. cbn [w_graph w_trace]. rewrite Hb.
  destruct (String.eqb_spec p "tempo") as [-> | _]; [|done]. split; [done|].
  cbn [w_graph w_trace]. unfold result_bind, rbind in Hg.
  destruct (add_edge_speeds ox (w_graph w)) as [g1|e1]; [|by injection Hg as <-].
  cbn [w_graph w_trace]. by rewrite Hg.
Qed.

(** X6. With one of the four criteria and both points resolved, the search
    raises only when the speed and travel-time derivation of the time
    criterion raises, and then with that same exception. When the
    derivation goes through (as it does for the other three criteria, which
    derive nothing), the search returns a route or [None]: the graph is
    taken to have both nodes, at least one edge, and no negative length or
    travel time. *)
Theorem valid_search_returns (ox : osmnx) (a b : Q * Q) (p : string) (w : world)
    (orig dest : node) :
  p ∈ criteria ->
  nearest_nodes ox (w_graph w) (snd a) (fst a) = Ok orig ->
  nearest_nodes ox (w_graph w) (snd b) (fst b) = Ok dest ->
  match derive ox p (w_graph w) with
  | Raise e => p = "tempo" /\ fst (find_best_route ox a b p w) = Raise e
  | Ok g' =>
      has_node g' orig = true ->
      has_node g' dest = true ->
      g_edges g' <> [] ->
      nonneg_attr "length" g' ->
      nonneg_attr "travel_time" g' ->
      exists found, fst (find_best_route ox a b p w) = Ok found
  end.
Proof.
  intros Hp Ha Hb. destruct (derive ox p (w_graph w)) as [g'|e] eqn:Hg.
  - intros Ho Hd He Hlen Htime.
    destruct (select_weight_inside p Hp) as [wt Hwt].
    destruct (find_best_route_run ox a b p w orig dest g' wt Ha Hb Hg Hwt) as [tr ->].
    cbn [fst].
    apply shortest_path_returns; [by apply default_lengths_edges | done | done |].
    apply (select_weight_nonneg p); [done | | ]; by apply default_lengths_nonneg.
  - by apply (find_best_route_derive_raises ox a b p w orig dest).
Qed.

Lemma tempo_inside : "tempo" ∈ criteria.
Proof. apply (bool_decide_unpack _). vm_compute. exact I. Qed.

(** The time criterion on the three-node line: with road classes and speed
    limits the search returns; without them the derivation's [KeyError]
    comes back. *)
Lemma valid_search_returns_witness :
  (exists found,
     fst (find_best_route planar_osmnx (0, 0) (0, 3) "tempo" (fresh road_graph))
     = Ok found)
  /\ fst (find_best_route planar_osmnx (0, 0) (0, 3) "tempo" (fresh line_graph))
     = Raise (KeyError "highway").
Proof.
  split.
  - pose proof (valid_search_returns planar_osmnx (0, 0) (0, 3) "tempo"
                  (fresh road_graph) 1 3 tempo_inside eq_refl eq_refl) as Hrun.
    remember (derive planar_osmnx "tempo" (w_graph (fresh road_graph))) as derived
      eqn:Hderived.
    vm_compute in Hderived. subst derived. apply Hrun.
    + reflexivity.
    + reflexivity.
    + discriminate.
    + apply check_nonneg_attr_sound. vm_compute. reflexivity.
    + apply check_nonneg_attr_sound. vm_compute. reflexivity.
  - apply (valid_search_returns planar_osmnx (0, 0) (0, 3) "tempo"
             (fresh line_graph) 1 3 tempo_inside eq_refl eq_refl).
Defined.

(** ** Searches that cannot be told apart *)

Lemma qlt_same (a a' b b' : Q) : a == a' -> b == b' -> qlt a b = qlt a' b'.
Proof. intros Ha Hb. unfold qlt. by rewrite (Qleb_comp b b' Hb a a' Ha). Qed.

Lemma same_dist_refl (a : option Q) : same_dist a a.
Proof. destruct a; simpl; [reflexivity | done]. Qed.

Lemma same_dist_insert (m m' : gmap node Q) (k : node) (x x' : Q) :
  (forall n, same_dist (m !! n) (m' !! n)) -> x == x' ->
  forall n, same_dist (<[k := x]> m !! n) (<[k := x']> m' !! n).
Proof.
  intros Hm Hx n. destruct (decide (n = k)) as [-> | Hne].
  - by rewrite !lookup_insert_eq.
  - by rewrite !lookup_insert_ne.
Qed.

Lemma same_entry_le (a a' b b' : entry) :
  same_entry a a' -> same_entry b b' -> entry_le a b = entry_le a' b'.
Proof.
  destruct a as [[da ca] na], a' as [[da' ca'] na'], b as [[db cb] nb],
    b' as [[db' cb'] nb'].
  unfold same_entry, entry_dist. cbn [fst snd].
  intros (Ha & <- & <-) (Hb & <- & <-). unfold entry_le.
  by rewrite (qlt_same da da' db db' Ha Hb), (Qeqb_comp da da' Ha db db' Hb).
Qed.

Lemma heappop_same (h h' : list entry) :
  Forall2 same_entry h h' ->
  match heappop h, heappop h' with
  | None, None => True
  | Some (m, rest), Some (m', rest') =>
      same_entry m m' /\ Forall2 same_entry rest rest'
  | _, _ => False
  end.
Proof.
  induction 1 as [|x x' h h' Hx Hh IH]; [done|]. cbn [heappop].
  destruct (heappop h) as [[m rest]|], (heappop h') as [[m' rest']|]; try done.
  destruct IH as [Hm Hrest]. rewrite (same_entry_le x x' m m' Hx Hm).
  destruct (entry_le x' m'); split; try done. by constructor.
Qed.

Lemma same_frontier_pushed (s s' : frontier) (pv : route) (w : node) (len len' : Q)
    (c : nat) :
  same_frontier s s' -> len == len' ->
  same_frontier (pushed s pv w len c) (pushed s' pv w len' c).
Proof.
  intros [Hd Hp Hf Hs] Hlen. split; unfold pushed; cbn [dists paths fringe seen].
  - done.
  - by rewrite Hp.
  - by constructor.
  - by apply same_dist_insert.
Qed.

Lemma same_search_side (d : direction) (st st' : search) :
  same_search st st' -> same_frontier (side d st) (side d st').
Proof. intros Hst. destruct d; [apply (same_fwd Hst) | apply (same_bwd Hst)]. Qed.

Lemma same_search_set_side (d : direction) (f f' : frontier) (st st' : search) :
  same_search st st' -> same_frontier f f' ->
  same_search (set_side d f st) (set_side d f' st').
Proof. intros [] Hf. by destruct d; split. Qed.

Ltac same_fields :=
  cbn [fwd bwd counter finaldist finalpath dir dists paths fringe seen
       side set_side flip] in *.

Ltac same_frontiers :=
  split; same_fields;
  first [ done
        | by constructor
        | by apply same_dist_insert
        | by f_equal ].

Ltac same_searches :=
  split; same_fields; first [ done | by f_equal | same_frontiers ].

Lemma relaxing_same (d : direction) (v w : node) (len len' : Q) (st st' : search) :
  same_search st st' -> len == len' ->
  same_result same_search (relaxing d v w len st) (relaxing d v w len' st').
Proof.
  intros Hst Hlen.
  destruct st as [[fd1 fp1 ff1 fs1] [bd1 bp1 bf1 bs1] c1 x1 p1 r1].
  destruct st' as [[fd2 fp2 ff2 fs2] [bd2 bp2 bf2 bs2] c2 x2 p2 r2].
  destruct Hst as [[Hfd Hfp Hff Hfs] [Hbd Hbp Hbf Hbs] Hc Hx Hp Hr].
  same_fields. subst.
  unfold relaxing, mbind, result_bind, rbind, getitem. cbv zeta.
  destruct d; same_fields.
  - destruct (fp2 !! v) as [pv|]; [|done].
    pose proof (same_dist_insert fs1 fs2 w len len' Hfs Hlen w) as Hw.
    pose proof (Hbs w) as Hw'.
    destruct (<[w:=len]> fs1 !! w) as [d0|], (<[w:=len']> fs2 !! w) as [d0'|];
      try done; [|same_searches].
    destruct (bs1 !! w) as [d1|], (bs2 !! w) as [d1'|]; try done; [|same_searches].
    cbn [same_dist] in Hw, Hw'.
    assert (d0 + d1 == d0' + d1') as Htot by (by rewrite Hw, Hw').
    rewrite (qlt_same _ _ _ _ Htot Hx).
    destruct (bool_decide (p2 = []) || qlt (d0' + d1') x2); [|same_searches].
    destruct (<[w:=(pv ++ [w])%list]> fp2 !! w); [|done].
    destruct (bp2 !! w); [|done]. same_searches.
  - destruct (bp2 !! v) as [pv|]; [|done].
    pose proof (same_dist_insert bs1 bs2 w len len' Hbs Hlen w) as Hw'.
    pose proof (Hfs w) as Hw.
    destruct (fs1 !! w) as [d0|], (fs2 !! w) as [d0'|]; try done; [|same_searches].
    destruct (<[w:=len]> bs1 !! w) as [d1|], (<[w:=len']> bs2 !! w) as [d1'|];
      try done; [|same_searches].
    cbn [same_dist] in Hw, Hw'.
    assert (d0 + d1 == d0' + d1') as Htot by (by rewrite Hw, Hw').
    rewrite (qlt_same _ _ _ _ Htot Hx).
    destruct (bool_decide (p2 = []) || qlt (d0' + d1') x2); [|same_searches].
    destruct (fp2 !! w); [|done].
    destruct (<[w:=(pv ++ [w])%list]> bp2 !! w); [|done]. same_searches.
Qed.

Lemma same_result_bind {A B} (R : A -> A -> Prop) (S : B -> B -> Prop)
    (r r' : result A) (k k' : A -> result B) :
  same_result R r r' ->
  (forall a a', R a a' -> same_result S (k a) (k' a')) ->
  same_result S (rbind r k) (rbind r' k').
Proof. destruct r, r'; simpl; try done. intros Hr Hk. by apply Hk. Qed.

Lemma relax_same (wf wf' : node -> node -> keydict -> result Q) (d : direction)
    (v : node) (dist dist' : Q) (st st' : search) (nb nb' : node * keydict) :
  same_search st st' -> dist == dist' ->
  same_neighbour wf wf' d v nb nb' ->
  same_result same_search (relax wf d v dist st nb) (relax wf' d v dist' st' nb').
Proof.
  intros Hst Hdist [Hw Hcost]. destruct nb as [w kd], nb' as [w' kd'].
  cbn [fst] in Hw. subst w'. unfold relax, mbind, result_bind.
  apply (same_result_bind Qeq same_search).
  { by destruct d. }
  intros c c' Hc.
  assert (dist + c == dist' + c') as Hlen by (by rewrite Hdist, Hc).
  pose proof (same_search_side d st st' Hst) as Hside.
  pose proof (same_dists Hside w) as Hdw. pose proof (same_seen Hside w) as Hsw.
  destruct (dists (side d st) !! w) as [dw|], (dists (side d st') !! w) as [dw'|];
    try done.
  - cbn [same_dist] in Hdw. rewrite (qlt_same _ _ _ _ Hlen Hdw).
    by destruct (qlt (dist' + c') dw').
  - destruct (seen (side d st) !! w) as [sw|], (seen (side d st') !! w) as [sw'|];
      try done; [|by apply relaxing_same].
    cbn [same_dist] in Hsw. rewrite (qlt_same _ _ _ _ Hlen Hsw).
    destruct (qlt (dist' + c') sw'); [by apply relaxing_same | done].
Qed.

Lemma foldM_relax_same (wf wf' : node -> node -> keydict -> result Q) (d : direction)
    (v : node) (dist dist' : Q) (l l' : list (node * keydict)) (st st' : search) :
  same_search st st' -> dist == dist' ->
  Forall2 (same_neighbour wf wf' d v) l l' ->
  same_result same_search (foldM (relax wf d v dist) st l)
                          (foldM (relax wf' d v dist') st' l').
Proof.
  intros Hst Hdist Hl. revert st st' Hst.
  induction Hl as [|nb nb' l l' Hnb Hl IH]; intros st st' Hst; [done|].
  cbn [foldM]. unfold mbind, result_bind.
  apply (same_result_bind same_search same_search); [by apply relax_same | exact IH].
Qed.

Lemma step_same (g g' : graph) (wf wf' : node -> node -> keydict -> result Q)
    (st st' : search) :
  same_neighbours g g' wf wf' ->
  same_search st st' ->
  same_result same_turn (step g wf st) (step g' wf' st').
Proof.
  intros Hneighs Hst. unfold step. cbv zeta.
  rewrite <- (same_dir Hst). set (d := flip (dir st)). clearbody d.
  pose proof (same_search_side d st st' Hst) as Hside.
  pose proof (same_search_side (flip d) st st' Hst) as Hother.
  pose proof (heappop_same _ _ (same_fringe Hside)) as Hpop.
  destruct (heappop (fringe (side d st))) as [[[[dist c] v] rest]|],
    (heappop (fringe (side d st'))) as [[[[dist' c'] v'] rest']|]; try done.
  destruct Hpop as [(Hdist & Hc & Hv) Hrest].
  unfold entry_dist in Hdist. cbn [fst snd] in Hdist, Hc, Hv. subst c' v'.
  cbn [dists paths fringe seen].
  pose proof (same_dists Hside v) as Hdv.
  assert (same_frontier
            {| dists := dists (side d st); paths := paths (side d st);
               fringe := rest; seen := seen (side d st) |}
            {| dists := dists (side d st'); paths := paths (side d st');
               fringe := rest'; seen := seen (side d st') |}) as Hpopped.
  { destruct Hside. by split. }
  assert (same_frontier
            {| dists := <[v := dist]> (dists (side d st)); paths := paths (side d st);
               fringe := rest; seen := seen (side d st) |}
            {| dists := <[v := dist']> (dists (side d st')); paths := paths (side d st');
               fringe := rest'; seen := seen (side d st') |}) as Hsettled.
  { destruct Hside. split; cbn [dists paths fringe seen]; try done.
    by apply same_dist_insert. }
  pose proof (same_search_set_side d _ _ st st' Hst Hpopped) as Hst0.
  match goal with
  | |- same_result _ (match _ with Some _ => Ok (Continue ?a) | None => _ end)
                     (match _ with Some _ => Ok (Continue ?b) | None => _ end) =>
      assert (same_search a b) as Hst1
  end.
  { destruct Hst0. by split. }
  destruct (dists (side d st) !! v) as [dv|], (dists (side d st') !! v) as [dv'|];
    try done.
  pose proof (same_search_set_side d _ _ _ _ Hst1 Hsettled) as Hst2.
  match goal with
  | Hst2 : same_search ?a ?b |- _ => set (st2 := a) in *; set (st2' := b) in *
  end.
  assert (side (flip d) st2 = side (flip d) st) as -> by (by destruct d).
  assert (side (flip d) st2' = side (flip d) st') as -> by (by destruct d).
  pose proof (same_dists Hother v) as Hov.
  destruct (dists (side (flip d) st) !! v) as [ov|],
    (dists (side (flip d) st') !! v) as [ov'|]; try done.
  - split; [apply (same_finaldist Hst2) | apply (same_finalpath Hst2)].
  - unfold mbind, result_bind.
    apply (same_result_bind same_search same_turn); [|done].
    by apply foldM_relax_same.
Qed.

Lemma search_loop_same (g g' : graph) (wf wf' : node -> node -> keydict -> result Q)
    (fuel : nat) (st st' : search) :
  same_neighbours g g' wf wf' ->
  same_search st st' ->
  match search_loop fuel g wf st, search_loop fuel g' wf' st' with
  | Some r, Some r' =>
      same_result (fun x y => fst x == fst y /\ snd x = snd y) r r'
  | None, None => True
  | _, _ => False
  end.
Proof.
  intros Hneighs. revert st st'.
  induction fuel as [|fuel IH]; intros st st' Hst; [done|].
  cbn [search_loop].
  pose proof (same_fringe (same_fwd Hst)) as Hf.
  pose proof (same_fringe (same_bwd Hst)) as Hb.
  destruct Hf as [|x x' f f' Hx Hf]; [done|].
  destruct Hb as [|y y' b b' Hy Hb]; [done|].
  pose proof (step_same g g' wf wf' st st' Hneighs Hst) as Hstep.
  destruct (step g wf st) as [[st1|r]|e], (step g' wf' st') as [[st1'|r']|e'];
    try done.
  by apply IH.
Qed.

(** Two graphs with the same nodes and as many edges, weighted so that a
    search meets the same neighbours at the same costs, get the same
    answer from [ox.shortest_path]. *)
Lemma shortest_path_same (g g' : graph) (w w' : weight) (orig dest : node) :
  g_nodes g = g_nodes g' ->
  length (g_edges g) = length (g_edges g') ->
  same_neighbours g g' (weight_function w) (weight_function w') ->
  shortest_path g orig dest w = shortest_path g' orig dest w'.
Proof.
  intros Hnodes Hedges Hneighs. unfold shortest_path.
  match goal with
  | |- match _ with [] => _ | _ :: _ => ?x end = match _ with [] => _ | _ :: _ => ?y end =>
      assert (x = y) as Hsearch;
        [|destruct (g_edges g), (g_edges g'); try done; exact Hsearch]
  end.
  unfold bidirectional_dijkstra.
  unfold has_node, search_fuel. rewrite Hnodes, Hedges.
  destruct (negb _); [done|]. destruct (orig =? dest)%Z; [done|].
  assert (same_search (search_init orig dest) (search_init orig dest)) as Hinit.
  { split; cbn [search_init fwd bwd counter finaldist finalpath dir];
      try done; split; cbn [dists paths fringe seen]; try done;
      try (intros n; apply same_dist_refl);
      repeat constructor. }
  pose proof (search_loop_same g g' _ _ (3 + 2 * length (g_edges g')) _ _ Hneighs Hinit)
    as Hloop.
  destruct (search_loop _ g _ _) as [[[c p]|e]|], (search_loop _ g' _ _) as [[[c' p']|e']|];
    try done.
  - destruct Hloop as [_ Hp]. cbn [snd] in Hp. by subst.
  - cbn [same_result] in Hloop. by subst.
Qed.

(** ** The fuel and cost criteria *)

Lemma Forall2_fst {A B} (R : A * B -> A * B -> Prop) (l l' : list (A * B)) :
  map fst l = map fst l' ->
  (forall x y, fst x = fst y -> R x y) ->
  Forall2 R l l'.
Proof.
  intros Hfst HR. revert l' Hfst. induction l as [|x l IH]; intros [|y l'] Hfst;
    try done; try (by constructor).
  injection Hfst as Hx Hl. constructor; [by apply HR | by apply IH].
Qed.

(** Callables that look at nothing but dictionary entries with string
    names get the same value on every multigraph edge. *)
Lemma blind_weights_same_neighbours (g g' : graph)
    (f f' : node -> node -> pydict -> Q) :
  (forall u v kd kd', f u v (DictKeys kd) == f' u v (DictKeys kd')) ->
  (forall d v, map fst (neighs g d v) = map fst (neighs g' d v)) ->
  same_neighbours g g' (weight_function (WeightFn f)) (weight_function (WeightFn f')).
Proof.
  intros Hblind Hfst d v. apply Forall2_fst; [apply Hfst|].
  intros [w kd] [w' kd'] Hw. cbn [fst] in Hw. subst w'. split; [done|].
  destruct d; cbn [cost_of weight_function same_result fst snd]; apply Hblind.
Qed.

Lemma filter_map_edge_data (f : attrs -> attrs) (q : edge -> bool) (es : list edge) :
  (forall e, q {| e_u := e_u e; e_v := e_v e; e_key := e_key e; e_data := f (e_data e) |}
             = q e) ->
  List.filter q (map (fun e => {| e_u := e_u e; e_v := e_v e; e_key := e_key e;
                                   e_data := f (e_data e) |}) es)
  = map (fun e => {| e_u := e_u e; e_v := e_v e; e_key := e_key e;
                     e_data := f (e_data e) |}) (List.filter q es).
Proof.
  intros Hq. induction es as [|e es IH]; [done|]. cbn [map List.filter].
  rewrite Hq. destruct (q e); cbn [map]; by rewrite IH.
Qed.

Lemma neighs_map_edge_data (f : attrs -> attrs) (g : graph) (d : direction) (v : node) :
  map fst (neighs (map_edge_data f g) d v) = map fst (neighs g d v).
Proof.
  destruct d; cbn [neighs]; unfold successors, predecessors, map_edge_data;
    cbn [g_edges]; rewrite !map_map; cbn [fst]; rewrite !map_id;
    (rewrite filter_map_edge_data by done); by rewrite map_map.
Qed.

Lemma fuel_and_cost_blind (u v : node) (kd kd' : keydict) :
  combustivel_weight u v (DictKeys kd) == custo_weight u v (DictKeys kd').
Proof. reflexivity. Qed.

Lemma fuel_blind (u v : node) (kd kd' : keydict) :
  combustivel_weight u v (DictKeys kd) == combustivel_weight u v (DictKeys kd').
Proof. reflexivity. Qed.

Lemma cost_blind (u v : node) (kd kd' : keydict) :
  custo_weight u v (DictKeys kd) == custo_weight u v (DictKeys kd').
Proof. reflexivity. Qed.

Lemma fuel_search_is_cost_search (ox : osmnx) (a b : Q * Q) (w : world) :
  find_best_route ox a b "combustivel" w = find_best_route ox a b "custo" w.
Proof.
  unfold find_best_route.
  change (String.eqb "combustivel" "tempo") with false.
  change (String.eqb "custo" "tempo") with false.
  change (select_weight "combustivel") with (Ok (WeightFn combustivel_weight)).
  change (select_weight "custo") with (Ok (WeightFn custo_weight)).
  unfold mbind, M_bind, mret, M_ret, record, reading, updating, lift.
  cbn [w_graph w_trace].
  destruct (nearest_nodes ox (w_graph w) (snd a) (fst a)) as [orig|]; [|done].
  cbn [w_graph w_trace].
  destruct (nearest_nodes ox (w_graph w) (snd b) (fst b)) as [dest|]; [|done].
  cbn [w_graph w_trace]. f_equal.
  apply shortest_path_same; [done | done |].
  apply blind_weights_same_neighbours; [apply fuel_and_cost_blind | done].
Qed.

(** X7. The fuel search and the cost search are the same search: on every
    graph and for every pair of points they make the same calls, leave the
    same graph and return the same route. networkx hands a callable weight
    the dictionary of parallel edges, in which the lambdas of lines 65 and
    68 find neither [length] nor [grade_abs], so both weigh every edge 0. *)
Theorem fuel_and_cost_searches_coincide (ox : osmnx) (a b : Q * Q) (w : world) :
  find_best_route ox a b "combustivel" w = find_best_route ox a b "custo" w.
Proof. apply fuel_search_is_cost_search. Qed.

(** X8. The route the fuel search and the cost search return does not
    depend on any edge attribute: rewriting the attribute dictionaries of
    all edges, lengths and grades included, leaves the returned route the
    same as long as the two points still resolve to the same nodes. *)
Theorem fuel_and_cost_ignore_edge_attributes (ox : osmnx) (a b : Q * Q) (p : string)
    (w : world) (f : attrs -> attrs) (orig dest : node) :
  p = "combustivel" \/ p = "custo" ->
  nearest_nodes ox (w_graph w) (snd a) (fst a) = Ok orig ->
  nearest_nodes ox (w_graph w) (snd b) (fst b) = Ok dest ->
  nearest_nodes ox (map_edge_data f (w_graph w)) (snd a) (fst a) = Ok orig ->
  nearest_nodes ox (map_edge_data f (w_graph w)) (snd b) (fst b) = Ok dest ->
  fst (find_best_route ox a b p
         {| w_graph := map_edge_data f (w_graph w); w_trace := w_trace w |})
  = fst (find_best_route ox a b p w).
Proof.
  intros Hp Ha Hb Ha' Hb'.
  assert (exists wf, select_weight p = Ok (WeightFn wf)
                     /\ derive ox p (w_graph w) = Ok (w_graph w)
                     /\ derive ox p (map_edge_data f (w_graph w))
                        = Ok (map_edge_data f (w_graph w))
                     /\ forall u v kd kd', wf u v (DictKeys kd) == wf u v (DictKeys kd'))
    as (wf & Hwt & Hg & Hg' & Hblind).
  { destruct Hp as [-> | ->]; eexists; (split; [reflexivity|]);
      (split; [reflexivity|]); (split; [reflexivity|]);
      [apply fuel_blind | apply cost_blind]. }
  destruct (find_best_route_run ox a b p w orig dest _ _ Ha Hb Hg Hwt) as [tr ->].
  destruct (find_best_route_run ox a b p
              {| w_graph := map_edge_data f (w_graph w); w_trace := w_trace w |}
              orig dest _ _ Ha' Hb' Hg' Hwt) as [tr' ->].
  cbn [fst]. apply shortest_path_same.
  - done.
  - unfold default_lengths, map_edge_data. cbn [g_edges]. by rewrite !length_map.
  - apply blind_weights_same_neighbours; [done|]. intros d v.
    unfold default_lengths. by rewrite !neighs_map_edge_data.
Qed.

Lemma fuel_and_cost_ignore_edge_attributes_witness :
  fst (find_best_route planar_osmnx (0, 0) (0, 3) "combustivel"
         {| w_graph := map_edge_data (fun d => <["length" := 5]> d) line_graph;
            w_trace := [] |})
  = fst (find_best_route planar_osmnx (0, 0) (0, 3) "combustivel" (fresh line_graph)).
Proof.
  apply (fuel_and_cost_ignore_edge_attributes planar_osmnx (0, 0) (0, 3) "combustivel"
           (fresh line_graph) (fun d => <["length" := 5]> d) 1 3).
  - left. reflexivity.
  - reflexivity.
  - reflexivity.
  - reflexivity.
  - reflexivity.
Defined.

(** ** Route statistics: when they are defined *)

Lemma mapM_ok_all {A B} (f : A -> result B) (l : list A) :
  (forall a, In a l -> exists b, f a = Ok b) -> exists bs, mapM f l = Ok bs.
Proof.
  induction l as [|a l IH]; intros Hall; [by eexists|]. cbn [mapM].
  destruct (Hall a) as [b ->]; [by left|].
  destruct IH as [bs ->]; [intros a' Ha'; apply Hall; by right|].
  by eexists.
Qed.

Lemma mapM_ok_Forall2 {A B} (f : A -> result B) (l : list A) (bs : list B) :
  mapM f l = Ok bs -> Forall2 (fun a b => f a = Ok b) l bs.
Proof.
  revert bs. induction l as [|a l IH]; intros bs; cbn [mapM].
  - intros [= <-]. constructor.
  - unfold mbind, result_bind, rbind.
    destruct (f a) as [b|] eqn:Hb; [|done].
    destruct (mapM f l) as [bs'|]; [|done]. intros [= <-].
    constructor; [done | by apply IH].
Qed.

Lemma mapM_raise {A B} (f : A -> result B) (l : list A) (a : A) (P : exn -> Prop) :
  In a l ->
  (forall a' e, f a' = Raise e -> P e) ->
  (exists e, f a = Raise e) ->
  exists e, mapM f l = Raise e /\ P e.
Proof.
  intros Hin HP [e He]. induction l as [|a' l IH]; [done|]. cbn [mapM].
  unfold mbind, result_bind, rbind.
  destruct (f a') as [b|e'] eqn:Ha'; [|exists e'; split; [done | by apply (HP a')]].
  destruct Hin as [-> | Hin]; [congruence|].
  destruct (IH Hin) as (e'' & -> & He''). by exists e''.
Qed.

Lemma item_weights_ok (name : string) (kd : keydict) :
  (forall it, In it kd -> is_Some (snd it !! name)) ->
  item_weights name kd = Ok (map (fun it => attr_get (snd it) name 0) kd).
Proof.
  induction kd as [|[k d] kd IH]; intros Hall; [done|]. cbn [item_weights map snd].
  destruct (Hall (k, d)) as [q Hq]; [by left|]. cbn [snd] in Hq.
  unfold attr_get at 1. rewrite Hq.
  rewrite IH by (intros it Hit; apply Hall; by right). done.
Qed.

Lemma item_weights_inv (name : string) (kd : keydict) (ws : list Q) :
  item_weights name kd = Ok ws ->
  ws = map (fun it => attr_get (snd it) name 0) kd.
Proof.
  revert ws. induction kd as [|[k d] kd IH]; intros ws; cbn [item_weights map snd].
  - by intros [= <-].
  - unfold attr_get at 1. destruct (d !! name) as [q|]; [|done].
    unfold mbind, result_bind, rbind.
    destruct (item_weights name kd) as [ws'|]; [|done]. intros [= <-].
    by rewrite (IH ws').
Qed.

(** The item [min] picks has the least weight. *)
Lemma min_item_weight (name : string) (best : Z * attrs) (kd : keydict) :
  attr_get (snd (min_item best (attr_get (snd best) name 0) kd
                   (map (fun it => attr_get (snd it) name 0) kd))) name 0
  = qmin_list (attr_get (snd best) name 0)
              (map (fun it => attr_get (snd it) name 0) kd).
Proof.
  revert best. induction kd as [|it kd IH]; intros best; [done|].
  cbn [map min_item qmin_list fold_left]. unfold qmin at 2.
  destruct (Qle_bool _ _); apply IH.
Qed.

Lemma parallel_edges_edge_rel (g : graph) (u v : node) :
  parallel_edges g u v <> [] -> edge_rel g u v.
Proof.
  destruct (parallel_edges g u v) as [|it kd] eqn:Hkd; [done|]. intros _.
  destruct (parallel_edges_In g u v it) as (e & He & Hu & Hv & _).
  { rewrite Hkd. by left. }
  by exists e.
Qed.

Lemma min_parallel_edge_ok (g : graph) (uv : node * node) :
  has_lengths g -> edge_rel g (fst uv) (snd uv) ->
  exists it, min_parallel_edge g "length" uv = Ok it.
Proof.
  intros Hlen Huv. unfold min_parallel_edge.
  pose proof (parallel_edges_nonempty g _ _ Huv) as Hne.
  destruct (parallel_edges g (fst uv) (snd uv)) as [|it kd] eqn:Hkd; [done|].
  rewrite item_weights_ok.
  - cbn [map]. unfold mbind, result_bind, rbind. by eexists.
  - intros it' Hit'. rewrite <- Hkd in Hit'.
    destruct (parallel_edges_In g _ _ it' Hit') as (e & He & _ & _ & <-).
    by apply Hlen.
Qed.

(** What a chosen edge contributes to the length column. *)
Lemma min_parallel_edge_length (g : graph) (uv : node * node) (it : Z * attrs) :
  min_parallel_edge g "length" uv = Ok it ->
  parallel_edges g (fst uv) (snd uv) <> []
  /\ attr_get (snd it) "length" 0 = shortest_parallel g uv.
Proof.
  unfold min_parallel_edge, shortest_parallel.
  destruct (parallel_edges g (fst uv) (snd uv)) as [|best kd]; [done|].
  unfold mbind, result_bind, rbind.
  destruct (item_weights "length" (best :: kd)) as [ws|] eqn:Hws; [|done].
  apply item_weights_inv in Hws. subst ws. cbn [map]. intros [= <-].
  split; [done|]. apply min_item_weight.
Qed.

Lemma pairs_is_path (g : graph) (u : node) (q : route) :
  Forall (fun uv => edge_rel g (fst uv) (snd uv)) (pairs (u :: q)) ->
  exists v, is_path g u v (u :: q).
Proof.
  revert u. induction q as [|x q IH]; intros u Hall.
  - exists u. apply path_end.
  - cbn [pairs] in Hall. apply Forall_cons in Hall as [Hux Hall]. cbn [fst snd] in Hux.
    destruct (IH x Hall) as [v Hv]. exists v. by apply (path_edge g u x v).
Qed.

Lemma subgraph_edges_nil (g : graph) : subgraph_edges g [] = [].
Proof.
  unfold subgraph_edges. induction (g_edges g) as [|e es IH]; [done|].
  cbn [List.filter]. unfold on_route at 1. by cbn [existsb andb].
Qed.

Lemma columns_of_has (es : list edge) (name : string) :
  es <> [] ->
  (forall e, In e es -> is_Some (e_data e !! name)) ->
  name ∈ columns_of es.
Proof.
  destruct es as [|e es]; [done|]. intros _ Hall. unfold columns_of. cbn [foldr].
  apply elem_of_union_l, elem_of_dom. apply Hall. by left.
Qed.

Lemma route_to_gdf_ok (g : graph) (r : route) (t : geodataframe) :
  route_to_gdf g r = Ok t ->
  subgraph_edges g r <> []
  /\ gdf_columns t = columns_of (subgraph_edges g r)
  /\ Forall2 (fun uv d => parallel_edges g (fst uv) (snd uv) <> []
                          /\ attr_get d "length" 0 = shortest_parallel g uv)
       (pairs r) (gdf_rows t).
Proof.
  unfold route_to_gdf.
  destruct (subgraph_edges g r) as [|e es] eqn:Hes; [done|].
  unfold mbind, result_bind, rbind.
  destruct (mapM (min_parallel_edge g "length") (pairs r)) as [chosen|] eqn:Hchosen;
    [|done].
  intros [= <-]. cbn [gdf_columns gdf_rows]. split; [done|]. split; [done|].
  apply mapM_ok_Forall2 in Hchosen.
  induction Hchosen as [|uv it l chosen Hit _ IH]; [constructor|].
  cbn [map]. constructor; [|exact IH]. by apply min_parallel_edge_length.
Qed.

Lemma statistics_of_table (g : graph) (r : route) (t : geodataframe) :
  route_to_gdf g r = Ok t ->
  "length" ∈ gdf_columns t ->
  exists st, calculate_route_statistics g r = Ok st.
Proof.
  intros Ht Hlen. unfold calculate_route_statistics. rewrite Ht.
  unfold mbind, result_bind, rbind, column_sum.
  destruct (decide ("length" ∈ gdf_columns t)); [|done].
  destruct (decide ("grade_abs" ∈ gdf_columns t)); by eexists.
Qed.

Lemma statistics_need_a_path (g : graph) (r : route) (st : route_statistics) :
  calculate_route_statistics g r = Ok st ->
  subgraph_edges g r <> [] /\ exists u v, is_path g u v r.
Proof.
  intros Hst.
  destruct (calculate_route_statistics_inv g r st Hst) as (t & s & Ht & _).
  destruct (route_to_gdf_ok g r t Ht) as (Hne & _ & Hrows). split; [done|].
  destruct r as [|u q]; [by rewrite subgraph_edges_nil in Hne|].
  exists u. apply pairs_is_path.
  clear Hne Ht. induction Hrows as [|uv d l rows [Huv _] _ IH]; [constructor|].
  constructor; [by apply parallel_edges_edge_rel | exact IH].
Qed.

Lemma statistics_of_path (g : graph) (u v : node) (r : route) :
  has_lengths g ->
  subgraph_edges g r <> [] ->
  is_path g u v r ->
  exists st, calculate_route_statistics g r = Ok st.
Proof.
  intros Hlen Hne Hpath.
  assert (exists chosen, mapM (min_parallel_edge g "length") (pairs r) = Ok chosen)
    as [chosen Hchosen].
  { apply mapM_ok_all. intros uv Huv. apply min_parallel_edge_ok; [done|].
    apply is_path_pairs in Hpath as (_ & _ & Hall).
    rewrite List.Forall_forall in Hall. by apply Hall. }
  assert (exists t, route_to_gdf g r = Ok t
                    /\ gdf_columns t = columns_of (subgraph_edges g r))
    as (t & Ht & Hcols).
  { unfold route_to_gdf. rewrite Hchosen.
    destruct (subgraph_edges g r) as [|e es]; [done|].
    eexists. split; reflexivity. }
  apply (statistics_of_table g r t Ht). rewrite Hcols.
  apply columns_of_has; [done|]. intros e He. apply Hlen.
  unfold subgraph_edges in He. by apply filter_In in He as [He _].
Qed.

(** X9. On a graph with a length on every edge, the statistics of a route
    are defined exactly when the route is a path of the graph and some
    edge joins two of its nodes; in every other case the call raises. *)
Theorem statistics_defined_for_paths (g : graph) (r : route) :
  has_lengths g ->
  (exists st, calculate_route_statistics g r = Ok st)
  <-> (subgraph_edges g r <> [] /\ exists u v, is_path g u v r).
Proof.
  intros Hlen. split.
  - intros [st Hst]. by apply (statistics_need_a_path g r st).
  - intros (Hne & u & v & Hpath). by apply (statistics_of_path g u v).
Qed.

Lemma line_graph_subgraph : subgraph_edges line_graph [1; 2; 3]%Z <> [].
Proof. vm_compute. discriminate. Qed.

Lemma line_graph_is_path : is_path line_graph 1 3 [1; 2; 3]%Z.
Proof.
  apply (path_edge _ 1 2 3); [eexists; split; [left; reflexivity | done]|].
  apply (path_edge _ 2 3 3); [eexists; split; [right; left; reflexivity | done]|].
  apply path_end.
Qed.

Lemma statistics_defined_for_paths_witness :
  exists st, calculate_route_statistics line_graph [1; 2; 3]%Z = Ok st.
Proof.
  apply (statistics_defined_for_paths line_graph [1; 2; 3]%Z).
  - apply check_has_lengths_sound. vm_compute. reflexivity.
  - split; [apply line_graph_subgraph|]. exists 1%Z, 3%Z. apply line_graph_is_path.
Defined.

Lemma is_path_subgraph (g : graph) (u v : node) (r : route) :
  is_path g u v r -> (2 <= length r)%nat -> subgraph_edges g r <> [].
Proof.
  intros Hpath Hlen. destruct Hpath as [u | u x v p (e & He & Hu & Hv) Hp];
    [cbn [length] in Hlen; lia|].
  apply is_path_head in Hp as [q ->].
  assert (In e (subgraph_edges g (u :: x :: q))) as Hin.
  { apply filter_In. split; [done|]. unfold on_route. rewrite Hu, Hv.
    cbn [existsb]. rewrite !Z.eqb_refl. by rewrite orb_true_r. }
  intros Hnil. by rewrite Hnil in Hin.
Qed.

Lemma qsum_map_ext {A B} (f : A -> Q) (h : B -> Q) (l : list A) (l' : list B) :
  Forall2 (fun a b => h b = f a) l l' -> qsum (map h l') = qsum (map f l).
Proof.
  induction 1 as [|a b l l' Hab _ IH]; [done|].
  cbn [map]. unfold qsum in *. cbn [fold_right]. by rewrite Hab, IH.
Qed.

Lemma statistics_distance (g : graph) (r : route) (st : route_statistics) :
  calculate_route_statistics g r = Ok st ->
  distancia_km st = py_round (route_length g r / 1000) 4.
Proof.
  intros Hst.
  destruct (calculate_route_statistics_inv g r st Hst) as (t & s & Ht & Hs & -> & _).
  destruct (route_to_gdf_ok g r t Ht) as (_ & _ & Hrows).
  unfold column_sum in Hs. destruct (decide _); [|done]. injection Hs as <-.
  unfold route_length. f_equal. f_equal.
  apply qsum_map_ext. eapply Forall2_impl; [exact Hrows|]. by intros uv d [_ Hd].
Qed.

Lemma float_statistics_distance (g : graph) (r : route) (st : Float64.route_statistics) :
  Float64.calculate_route_statistics g r = Ok st ->
  Float64.distancia_km st = Float64.round (Float64.sum (route_lengths g r) / 1000) 4.
Proof.
  intros Hst.
  destruct (float_statistics_inv g r st Hst) as (t & s & Ht & Hs & -> & _).
  destruct (route_to_gdf_ok g r t Ht) as (_ & _ & Hrows).
  unfold Float64.column_sum in Hs. destruct (decide _); [|done]. injection Hs as <-.
  unfold route_lengths. do 3 f_equal.
  induction Hrows as [|uv d uvs ds [_ Hd] _ IH]; [done|].
  cbn [map]. f_equal; [|exact IH]. unfold Float64.cell. by rewrite Hd.
Qed.





(** ** Route statistics: how they fail *)

Lemma item_weights_raise (name : string) (kd : keydict) (e : exn) :
  item_weights name kd = Raise e -> e = KeyError name.
Proof.
  induction kd as [|[k d] kd IH]; [done|]. cbn [item_weights].
  destruct (d !! name); [|by intros [= <-]].
  unfold mbind, result_bind, rbind.
  destruct (item_weights name kd); [done|]. intros [= <-]. by apply IH.
Qed.

Lemma min_parallel_edge_raise (g : graph) (name : string) (uv : node * node) (e : exn) :
  min_parallel_edge g name uv = Raise e -> exists k, e = KeyError k.
Proof.
  unfold min_parallel_edge.
  destruct (parallel_edges g (fst uv) (snd uv)) as [|it kd]; [intros [= <-]; by eexists|].
  unfold mbind, result_bind, rbind.
  destruct (item_weights name (it :: kd)) as [[|w ws]|e'] eqn:Hws.
  - intros [= <-]. by eexists.
  - done.
  - intros [= <-]. apply item_weights_raise in Hws. by eexists.
Qed.

(** X12. A route with two consecutive nodes that no edge joins has no
    statistics: the call raises a [KeyError], or the [ValueError] of a
    route none of whose nodes are joined by an edge. It never reports a
    distance that skips the gap. *)
Theorem route_with_a_gap_raises (g : graph) (r : route) :
  has_gap g r ->
  calculate_route_statistics g r = Raise (ValueError "graph contains no edges")
  \/ exists k, calculate_route_statistics g r = Raise (KeyError k).
Proof.
  intros (uv & Huv & Hnone). unfold calculate_route_statistics, route_to_gdf.
  destruct (subgraph_edges g r) as [|e es]; [by left|]. right.
  destruct (mapM_raise (min_parallel_edge g "length") (pairs r) uv
              (fun e => exists k, e = KeyError k) Huv) as (e' & -> & k & ->).
  - apply min_parallel_edge_raise.
  - unfold min_parallel_edge. rewrite Hnone. by eexists.
  - by exists k.
Qed.

Lemma route_with_a_gap_raises_witness :
  calculate_route_statistics line_graph [1; 3]%Z
    = Raise (ValueError "graph contains no edges")
  \/ exists k, calculate_route_statistics line_graph [1; 3]%Z = Raise (KeyError k).
Proof.
  apply (route_with_a_gap_raises line_graph [1; 3]%Z).
  exists (1%Z, 3%Z). split; [left; reflexivity | reflexivity].
Defined.

Lemma subgraph_edges_one (g : graph) (n : node) :
  ~ edge_rel g n n -> subgraph_edges g [n] = [].
Proof.
  intros Hloop. unfold subgraph_edges.
  assert (forall e, In e (g_edges g) -> on_route [n] e = false) as Hall.
  { intros e He. unfold on_route. cbn [existsb]. rewrite !orb_false_r.
    apply andb_false_iff.
    destruct (Z.eqb_spec (e_u e) n) as [Hu|]; [|by left].
    destruct (Z.eqb_spec (e_v e) n) as [Hv|]; [|by right].
    exfalso. apply Hloop. by exists e. }
  induction (g_edges g) as [|e es IH]; [done|]. cbn [List.filter].
  rewrite Hall by (by left). apply IH. intros e' He'. apply Hall. by right.
Qed.

(** X13. The empty route and a route of one node without a loop edge have
    no statistics: the call raises [ValueError]. *)
Theorem route_without_edges_raises (g : graph) (r : route) :
  r = [] \/ (exists n, r = [n] /\ ~ edge_rel g n n) ->
  calculate_route_statistics g r = Raise (ValueError "graph contains no edges").
Proof.
  intros [-> | (n & -> & Hloop)]; unfold calculate_route_statistics, route_to_gdf.
  - by rewrite subgraph_edges_nil.
  - by rewrite subgraph_edges_one.
Qed.

Lemma no_loop_at (g : graph) (n : node) :
  forallb (fun e => negb ((e_u e =? n)%Z && (e_v e =? n)%Z)) (g_edges g) = true ->
  ~ edge_rel g n n.
Proof.
  rewrite forallb_forall. intros Hall (e & He & Hu & Hv).
  specialize (Hall e He). rewrite Hu, Hv, !Z.eqb_refl in Hall. done.
Qed.

Lemma route_without_edges_raises_witness :
  calculate_route_statistics line_graph [2]%Z
  = Raise (ValueError "graph contains no edges").
Proof.
  apply (route_without_edges_raises line_graph [2]%Z).
  right. exists 2%Z. split; [reflexivity|]. apply no_loop_at. reflexivity.
Defined.

(** ** Rounding keeps the order *)

Lemma rint_mono (x y : Q) : x <= y -> (rint x <= rint y)%Z.
Proof.
  intros Hxy. pose proof (Qfloor_resp_le x y Hxy) as Hfloor.
  pose proof (Qfloor_le x) as Hx0. pose proof (Qlt_floor x) as Hx1.
  pose proof (Qfloor_le y) as Hy0. pose proof (Qlt_floor y) as Hy1.
  rewrite inject_Z_succ in Hx1, Hy1. unfold rint. cbv zeta.
  destruct (Z.eq_dec (Qfloor x) (Qfloor y)) as [Heq | Hne].
  - rewrite <- Heq in *.
    destruct (Qcompare_spec (x - inject_Z (Qfloor x)) (1 # 2)) as [Hx | Hx | Hx],
      (Qcompare_spec (y - inject_Z (Qfloor x)) (1 # 2)) as [Hy | Hy | Hy];
      try (destruct (Z.even (Qfloor x))); try lia; exfalso; lra.
  - destruct (Qcompare (x - inject_Z (Qfloor x)) (1 # 2)),
      (Qcompare (y - inject_Z (Qfloor y)) (1 # 2));
      try (destruct (Z.even (Qfloor x))); try (destruct (Z.even (Qfloor y))); lia.
Qed.

Lemma py_round_4_mono (x y : Q) : x <= y -> py_round x 4 <= py_round y 4.
Proof.
  intros Hxy. rewrite !py_round_4.
  assert (x * 10000 <= y * 10000) as Hscaled by lra.
  apply rint_mono in Hscaled. rewrite Zle_Qle in Hscaled.
  apply Qle_shift_div_l; [reflexivity|].
  assert (inject_Z (rint (x * 10000)) / 10000 * 10000 == inject_Z (rint (x * 10000)))
    as -> by field.
  exact Hscaled.
Qed.

Lemma statistics_follow_distance (g g' : graph) (r r' : route)
    (st st' : route_statistics) :
  calculate_route_statistics g r = Ok st ->
  calculate_route_statistics g' r' = Ok st' ->
  distancia_km st <= distancia_km st' ->
  tempo_min st <= tempo_min st'
  /\ consumo_combustivel_litros st <= consumo_combustivel_litros st'
  /\ custo_rs st <= custo_rs st'.
Proof.
  intros Hst Hst' Hle.
  destruct (calculate_route_statistics_inv g r st Hst)
    as (t & s & _ & _ & _ & Htime & Hfuel & Hcost & _).
  destruct (calculate_route_statistics_inv g' r' st' Hst')
    as (t' & s' & _ & _ & _ & Htime' & Hfuel' & Hcost' & _).
  assert (consumo_combustivel_litros st <= consumo_combustivel_litros st') as Hfuel_le.
  { rewrite Hfuel, Hfuel'. apply py_round_4_mono.
    unfold FUEL_CONSUMPTION_PER_KM. lra. }
  split; [|split; [done|]].
  - rewrite Htime, Htime'. apply py_round_4_mono.
    assert (forall d, d / AVERAGE_SPEED_KMH * 60 == 2 * d) as Htwo
      by (intros d; unfold AVERAGE_SPEED_KMH; field).
    rewrite !Htwo. lra.
  - rewrite Hcost, Hcost'. apply py_round_4_mono. unfold FUEL_COST_PER_LITER. lra.
Qed.

(** X14. The reported time, fuel and cost follow the reported distance: of
    two routes, the one with the greater distance never has the smaller
    time, fuel use or cost, whatever criterion either was found with. *)
Theorem longer_route_costs_no_less (g g' : graph) (r r' : route)
    (st st' : route_statistics) :
  calculate_route_statistics g r = Ok st ->
  calculate_route_statistics g' r' = Ok st' ->
  distancia_km st <= distancia_km st' ->
  tempo_min st <= tempo_min st'
  /\ consumo_combustivel_litros st <= consumo_combustivel_litros st'
  /\ custo_rs st <= custo_rs st'.
Proof. apply statistics_follow_distance. Qed.

Lemma longer_route_costs_no_less_witness :
  exists st st',
    calculate_route_statistics short_graph [1; 2]%Z = Ok st
    /\ calculate_route_statistics line_graph [1; 2; 3]%Z = Ok st'
    /\ tempo_min st <= tempo_min st'
    /\ consumo_combustivel_litros st <= consumo_combustivel_litros st'
    /\ custo_rs st <= custo_rs st'.
Proof.
  eexists. eexists. split; [vm_compute; reflexivity|].
  split; [vm_compute; reflexivity|].
  apply (longer_route_costs_no_less short_graph line_graph [1; 2]%Z [1; 2; 3]%Z).
  - vm_compute. reflexivity.
  - vm_compute. reflexivity.
  - vm_compute. discriminate.
Defined.

(** ** The map of a route *)

Lemma qmin_le (a b : Q) : qmin a b <= a /\ qmin a b <= b.
Proof.
  unfold qmin. destruct (Qle_bool a b) eqn:Hab.
  - apply Qle_bool_iff in Hab. lra.
  - assert (~ a <= b) by (intros H; apply Qle_bool_iff in H; congruence). lra.
Qed.

Lemma qmax_ge (a b : Q) : a <= qmax a b /\ b <= qmax a b.
Proof.
  unfold qmax. destruct (qlt a b) eqn:Hab.
  - apply qlt_true in Hab. lra.
  - apply qlt_false in Hab. lra.
Qed.

Lemma qmin_list_le (x : Q) (l : list Q) (y : Q) :
  In y (x :: l) -> qmin_list x l <= y.
Proof.
  revert x y. induction l as [|a l IH]; intros x y Hy.
  - destruct Hy as [<- | []]. cbn. lra.
  - unfold qmin_list in *. cbn [fold_left].
    pose proof (qmin_le x a) as [Hx Ha].
    pose proof (IH (qmin x a) (qmin x a)) as Hhead.
    destruct Hy as [<- | [<- | Hy]].
    + specialize (Hhead (or_introl eq_refl)). lra.
    + specialize (Hhead (or_introl eq_refl)). lra.
    + apply IH. by right.
Qed.

Lemma qmax_list_ge (x : Q) (l : list Q) (y : Q) :
  In y (x :: l) -> y <= qmax_list x l.
Proof.
  revert x y. induction l as [|a l IH]; intros x y Hy.
  - destruct Hy as [<- | []]. cbn. lra.
  - unfold qmax_list in *. cbn [fold_left].
    pose proof (qmax_ge x a) as [Hx Ha].
    pose proof (IH (qmax x a) (qmax x a)) as Hhead.
    destruct Hy as [<- | [<- | Hy]].
    + specialize (Hhead (or_introl eq_refl)). lra.
    + specialize (Hhead (or_introl eq_refl)). lra.
    + apply IH. by right.
Qed.

Lemma py_min_le (l : list Q) (m y : Q) : py_min l = Ok m -> In y l -> m <= y.
Proof. destruct l as [|x l]; [done|]. intros [= <-]. apply qmin_list_le. Qed.

Lemma py_max_ge (l : list Q) (m y : Q) : py_max l = Ok m -> In y l -> y <= m.
Proof. destruct l as [|x l]; [done|]. intros [= <-]. apply qmax_list_ge. Qed.

Lemma save_route_map_inv (px : plotting) (g : graph) (r : route) (filename : string)
    (m : route_map) :
  save_route_map px g r filename = Ok m ->
  exists route_nodes x_min x_max y_min y_max,
    mapM (node_attrs g) r = Ok route_nodes
    /\ py_min (map node_x route_nodes) = Ok x_min
    /\ py_max (map node_x route_nodes) = Ok x_max
    /\ py_min (map node_y route_nodes) = Ok y_min
    /\ py_max (map node_y route_nodes) = Ok y_max
    /\ m = {| map_file := filename;
              map_xlim := (x_min - 0.01, x_max + 0.01);
              map_ylim := (y_min - 0.01, y_max + 0.01);
              map_title := "Rota de A para B | Santo André" |}.
Proof.
  unfold save_route_map, mbind, result_bind, rbind.
  destruct (plot_graph_route px g r); [|done].
  destruct (mapM (node_attrs g) r) as [route_nodes|] eqn:Hnodes; [|done].
  destruct (py_min (map node_x route_nodes)) as [x_min|] eqn:Hx0; [|done].
  destruct (py_max (map node_x route_nodes)) as [x_max|] eqn:Hx1; [|done].
  destruct (py_min (map node_y route_nodes)) as [y_min|] eqn:Hy0; [|done].
  destruct (py_max (map node_y route_nodes)) as [y_max|] eqn:Hy1; [|done].
  intros [= <-]. by exists route_nodes, x_min, x_max, y_min, y_max.
Qed.

Lemma mapM_In {A B} (f : A -> result B) (l : list A) (bs : list B) (a : A) :
  mapM f l = Ok bs -> In a l -> exists b, f a = Ok b /\ In b bs.
Proof.
  intros Hbs. apply mapM_ok_Forall2 in Hbs.
  induction Hbs as [|a' b l bs Hab _ IH]; [done|].
  intros [<- | Hin]; [exists b; split; [done | by left]|].
  destruct (IH Hin) as (b' & Hb' & Hin'). exists b'. split; [done | by right].
Qed.



Lemma node_attrs_missing (g : graph) (n : node) :
  has_node g n = false -> node_attrs g n = Raise (KeyError "node").
Proof.
  unfold has_node, node_attrs. induction (g_nodes g) as [|d ds IH]; [done|].
  cbn [existsb List.find]. destruct (node_id d =? n)%Z; [done | exact IH].
Qed.

Lemma node_attrs_raise (g : graph) (n : node) (e : exn) :
  node_attrs g n = Raise e -> e = KeyError "node".
Proof. unfold node_attrs. destruct (List.find _ _); [done | by intros [= <-]]. Qed.

(** X16. An empty route, or a route naming a node the graph does not have,
    never gets a map: [save_route_map] raises and no file is written. When
    [ox.plot_graph_route] rejects the route, it is the plot's exception the
    caller sees; were the plot to go through, it would be the [ValueError]
    of [min] for the empty route and the [KeyError] of [graph.nodes[node]]
    for the missing node. *)
Theorem map_of_a_bad_route_raises (px : plotting) (g : graph) (r : route)
    (filename : string) :
  r = [] \/ (exists n, In n r /\ has_node g n = false) ->
  exists e,
    save_route_map px g r filename = Raise e
    /\ (plot_graph_route px g r = Raise e
        \/ (plot_graph_route px g r = Ok tt
            /\ (r = [] -> exists msg, e = ValueError msg)
            /\ (r <> [] -> exists k, e = KeyError k))).
Proof.
  intros Hbad. unfold save_route_map, mbind, result_bind, rbind.
  destruct (plot_graph_route px g r) as [[]|e] eqn:Hplot.
  - destruct Hbad as [-> | (n & Hn & Hmissing)].
    + cbn [mapM map py_min]. eexists. split; [done|]. right.
      split; [done|]. split; [by eexists | done].
    + destruct (mapM_raise (node_attrs g) r n (fun e => e = KeyError "node") Hn)
        as (e & -> & ->).
      * apply node_attrs_raise.
      * rewrite node_attrs_missing by done. by eexists.
      * eexists. split; [done|]. right. split; [done|].
        split; [by intros -> | by eexists].
  - exists e. split; [done | by left].
Qed.

Lemma map_of_a_bad_route_raises_witness :
  exists e, save_route_map checked_plotting line_graph [1; 7]%Z "map.png" = Raise e.
Proof.
  destruct (map_of_a_bad_route_raises checked_plotting line_graph [1; 7]%Z "map.png")
    as (e & He & _).
  - right. exists 7%Z. split; [right; left; reflexivity | reflexivity].
  - by exists e.
Defined.

(** ** The script's loop *)

Lemma route_for_run (ox : osmnx) (px : plotting) (a b : Q * Q) (crit : string)
    (out : outputs) (w : world) :
  route_for ox px a b crit out w =
  match find_best_route ox a b crit w with
  | (Raise e, w') => (Raise e, w')
  | (Ok None, w') => (Raise none_route, w')
  | (Ok (Some r), w') =>
      match calculate_route_statistics (w_graph w') r with
      | Raise e => (Raise e, w')
      | Ok stats =>
          match save_route_map px (w_graph w') r (map_filename crit) with
          | Raise e => (Raise e, w')
          | Ok saved =>
              (Ok {| stats_list := (stats_list out ++ [stats])%list;
                     route_map_paths := (route_map_paths out ++ [map_filename crit])%list;
                     saved_maps := (saved_maps out ++ [saved])%list |}, w')
          end
      end
  end.
Proof.
  unfold route_for. unfold mbind at 1. unfold M_bind at 1.
  destruct (find_best_route ox a b crit w) as [[[r|]|e] w']; [|done..].
  unfold mbind, M_bind, mret, M_ret, reading.
  destruct (calculate_route_statistics (w_graph w') r); [|done].
  by destruct (save_route_map px (w_graph w') r (map_filename crit)).
Qed.

Lemma find_best_route_graph_only (ox : osmnx) (a b : Q * Q) (p : string) (w w' : world) :
  w_graph w = w_graph w' ->
  fst (find_best_route ox a b p w) = fst (find_best_route ox a b p w')
  /\ w_graph (snd (find_best_route ox a b p w))
     = w_graph (snd (find_best_route ox a b p w')).
Proof.
  destruct w as [g tr], w' as [g' tr']. cbn [w_graph]. intros <-.
  unfold find_best_route.
  unfold mbind, M_bind, mret, M_ret, record, reading, updating, lift.
  cbn [w_graph w_trace].
  destruct (nearest_nodes ox g (snd a) (fst a)) as [orig|]; [|done].
  cbn [w_graph w_trace].
  destruct (nearest_nodes ox g (snd b) (fst b)) as [dest|]; [|done].
  destruct (String.eqb p "tempo"); cbn [w_graph w_trace].
  - destruct (add_edge_speeds ox g) as [g1|]; [|done]. cbn [w_graph w_trace].
    destruct (add_edge_travel_times ox g1) as [g2|]; [|done]. cbn [w_graph w_trace].
    destruct (select_weight p); done.
  - destruct (select_weight p); done.
Qed.

Lemma select_weight_valid (p : string) (wt : weight) :
  select_weight p = Ok wt -> p ∈ criteria.
Proof.
  unfold select_weight, criteria.
  destruct (String.eqb_spec p "distancia") as [-> | _]; [set_solver|].
  destruct (String.eqb_spec p "tempo") as [-> | _]; [set_solver|].
  destruct (String.eqb_spec p "combustivel") as [-> | _]; [set_solver|].
  destruct (String.eqb_spec p "custo") as [-> | _]; [set_solver | done].
Qed.

Lemma route_for_inv (ox : osmnx) (px : plotting) (a b : Q * Q) (crit : string)
    (out out' : outputs) (w : world) :
  fst (route_for ox px a b crit out w) = Ok out' ->
  exists r stats saved,
    let w' := snd (find_best_route ox a b crit w) in
    fst (find_best_route ox a b crit w) = Ok (Some r)
    /\ snd (route_for ox px a b crit out w) = w'
    /\ calculate_route_statistics (w_graph w') r = Ok stats
    /\ save_route_map px (w_graph w') r (map_filename crit) = Ok saved
    /\ out' = {| stats_list := (stats_list out ++ [stats])%list;
                 route_map_paths := (route_map_paths out ++ [map_filename crit])%list;
                 saved_maps := (saved_maps out ++ [saved])%list |}.
Proof.
  rewrite route_for_run.
  destruct (find_best_route ox a b crit w) as [[[r|]|e] w']; [|done..].
  cbn [fst snd].
  destruct (calculate_route_statistics (w_graph w') r) as [stats|] eqn:Hstats; [|done].
  destruct (save_route_map px (w_graph w') r (map_filename crit)) as [saved|] eqn:Hsaved;
    [|done].
  cbn [fst snd]. intros [= <-]. by exists r, stats, saved.
Qed.

Lemma route_loop_cons (ox : osmnx) (px : plotting) (a b : Q * Q) (crit : string)
    (rest : list string) (out : outputs) (w : world) :
  route_loop ox px a b (crit :: rest) out w =
  match route_for ox px a b crit out w with
  | (Ok out', w') => route_loop ox px a b rest out' w'
  | (Raise e, w') => (Raise e, w')
  end.
Proof. reflexivity. Qed.

Lemma route_loop_outputs (ox : osmnx) (px : plotting) (a b : Q * Q)
    (crits : list string) (out out' : outputs) (w : world) :
  fst (route_loop ox px a b crits out w) = Ok out' ->
  (exists stats, stats_list out' = (stats_list out ++ stats)%list
                 /\ length stats = length crits)
  /\ route_map_paths out' = (route_map_paths out ++ map map_filename crits)%list
  /\ map map_file (saved_maps out')
     = (map map_file (saved_maps out) ++ map map_filename crits)%list
  /\ Forall (fun crit => crit ∈ criteria) crits.
Proof.
  revert out w. induction crits as [|crit rest IH]; intros out w.
  - cbn [route_loop]. intros [= <-]. cbn [map]. rewrite !app_nil_r.
    split; [exists []; by rewrite app_nil_r|]. done.
  - rewrite route_loop_cons.
    destruct (route_for ox px a b crit out w) as [[out1|e] w1] eqn:Hfor; [|done].
    intros Hloop.
    destruct (route_for_inv ox px a b crit out out1 w) as
      (r & stats & saved & Hr & _ & _ & Hsaved & ->); [by rewrite Hfor|].
    destruct (IH _ _ Hloop) as ((sts & Hsts & Hlen) & Hpaths & Hfiles & Hvalid).
    cbn [stats_list route_map_paths saved_maps] in *.
    split; [|split; [|split]].
    + exists (stats :: sts). split; [by rewrite Hsts, <- app_assoc|].
      cbn [length]. by rewrite Hlen.
    + by rewrite Hpaths, <- app_assoc.
    + rewrite Hfiles, map_app, <- app_assoc. cbn [map].
      apply save_route_map_inv in Hsaved
        as (ns & x0 & x1 & y0 & y1 & _ & _ & _ & _ & _ & ->).
      done.
    + constructor; [|done].
      destruct (find_best_route_inv ox a b crit w (Some r) Hr)
        as (orig & dest & g' & wt & _ & _ & _ & Hwt & _).
      by apply (select_weight_valid crit wt).
Qed.

Lemma route_loop_rows (ox : osmnx) (px : plotting) (a b : Q * Q)
    (crits : list string) (out out' : outputs) (w : world) :
  fst (route_loop ox px a b crits out w) = Ok out' ->
  exists sts ms,
    stats_list out' = (stats_list out ++ sts)%list
    /\ saved_maps out' = (saved_maps out ++ ms)%list
    /\ rows_in_order ox px a b w crits sts ms.
Proof.
  revert out w. induction crits as [|crit rest IH]; intros out w.
  - cbn [route_loop]. intros [= <-]. exists [], []. rewrite !app_nil_r.
    do 2 (split; [done|]). constructor.
  - rewrite route_loop_cons.
    destruct (route_for ox px a b crit out w) as [[out1|e] w1] eqn:Hfor; [|done].
    intros Hloop.
    destruct (route_for_inv ox px a b crit out out1 w) as
      (r & st & m & Hr & Hw1 & Hst & Hm & ->); [by rewrite Hfor|].
    rewrite Hfor in Hw1. cbn [snd] in Hw1. subst w1.
    destruct (IH _ _ Hloop) as (sts & ms & Hsts & Hms & Hrows).
    cbn [stats_list saved_maps] in Hsts, Hms.
    exists (st :: sts), (m :: ms).
    split; [by rewrite Hsts, <- app_assoc|].
    split; [by rewrite Hms, <- app_assoc|].
    by apply (rows_next ox px a b w crit rest r).
Qed.

(** X17. A loop over criteria that runs to its end has used only the four
    valid criteria, and has produced one statistics record and one map per
    criterion, in the order of the criteria: the i-th record and the i-th
    map are those of the route found for the i-th criterion, on the graph
    as that search left it. Every map was written under the name
    [route_map_<criterion>.png] that the list of paths holds. *)
Theorem completed_loop_outputs (ox : osmnx) (px : plotting) (a b : Q * Q)
    (crits : list string) (out : outputs) (w : world) :
  fst (route_loop ox px a b crits no_outputs w) = Ok out ->
  rows_in_order ox px a b w crits (stats_list out) (saved_maps out)
  /\ length (stats_list out) = length crits
  /\ route_map_paths out = map map_filename crits
  /\ map map_file (saved_maps out) = route_map_paths out
  /\ Forall (fun crit => crit ∈ criteria) crits.
Proof.
  intros Hloop.
  destruct (route_loop_outputs ox px a b crits no_outputs out w Hloop)
    as ((sts & Hsts & Hlen) & Hpaths & Hfiles & Hvalid).
  destruct (route_loop_rows ox px a b crits no_outputs out w Hloop)
    as (sts' & ms & Hsts' & Hms & Hrows).
  cbn [no_outputs stats_list route_map_paths saved_maps map app] in *.
  split; [by rewrite Hsts', Hms|].
  rewrite Hsts, Hpaths. by rewrite Hlen.
Qed.

Lemma completed_loop_outputs_witness :
  exists out,
    fst (script planar_osmnx checked_plotting (fresh towns_graph)) = Ok out
    /\ rows_in_order planar_osmnx checked_plotting POINT_A POINT_B (fresh towns_graph)
         criteria (stats_list out) (saved_maps out)
    /\ length (stats_list out) = 4%nat
    /\ route_map_paths out = ["route_map_distancia.png"; "route_map_tempo.png";
                              "route_map_combustivel.png"; "route_map_custo.png"].
Proof.
  eexists. split; [vm_compute; reflexivity|].
  match goal with
  | |- rows_in_order _ _ _ _ _ _ (stats_list ?o) _ /\ _ =>
      assert (fst (route_loop planar_osmnx checked_plotting POINT_A POINT_B criteria
                     no_outputs (fresh towns_graph)) = Ok o) as Hrun
        by (vm_compute; reflexivity)
  end.
  destruct (completed_loop_outputs planar_osmnx checked_plotting POINT_A POINT_B criteria
              _ (fresh towns_graph) Hrun) as (Hrows & Hlen & Hpaths & _).
  split; [exact Hrows|]. split; [exact Hlen | exact Hpaths].
Defined.

Lemma loop_stops_without_route (ox : osmnx) (px : plotting) (a b : Q * Q)
    (crit : string) (rest : list string) (out : outputs) (w : world) :
  fst (find_best_route ox a b crit w) = Ok None ->
  fst (route_loop ox px a b (crit :: rest) out w) = Raise none_route.
Proof.
  intros Hnone. rewrite route_loop_cons, route_for_run.
  by destruct (find_best_route ox a b crit w) as [[[r|]|e] w']; cbn [fst] in Hnone.
Qed.

(** X18. When the node nearest to point B cannot be reached from the node
    nearest to point A, the script stops in its first turn: the search
    returns [None], and [calculate_route_statistics] raises the
    [TypeError] of slicing [None]. No statistics and no map are produced.
    The graph is taken to have an edge and no negative length. *)
Theorem script_stops_without_a_path (ox : osmnx) (px : plotting) (w : world)
    (orig dest : node) :
  nearest_nodes ox (w_graph w) (snd POINT_A) (fst POINT_A) = Ok orig ->
  nearest_nodes ox (w_graph w) (snd POINT_B) (fst POINT_B) = Ok dest ->
  has_node (w_graph w) orig = true ->
  has_node (w_graph w) dest = true ->
  g_edges (w_graph w) <> [] ->
  nonneg_attr "length" (w_graph w) ->
  ~ reachable (w_graph w) orig dest ->
  fst (find_best_route ox POINT_A POINT_B "distancia" w) = Ok None
  /\ fst (script ox px w) = Raise none_route.
Proof.
  intros Ha Hb Ho Hd He Hlen Hapart.
  assert (fst (find_best_route ox POINT_A POINT_B "distancia" w) = Ok None) as Hnone.
  { destruct (find_best_route_run ox POINT_A POINT_B "distancia" w orig dest
                (w_graph w) (WeightAttr "length") Ha Hb eq_refl eq_refl) as [tr ->].
    cbn [fst].
    apply shortest_path_no_path; [by apply default_lengths_edges | done | done | |].
    - by apply default_lengths_nonneg.
    - intros Hreach. by apply Hapart, default_lengths_reachable. }
  split; [done|]. by apply loop_stops_without_route.
Qed.

Lemma one_way_graph_apart : ~ reachable one_way_graph 1 2.
Proof.
  apply (closed_set_apart one_way_graph (fun n => (n =? 1)%Z)); reflexivity.
Qed.

Lemma script_stops_without_a_path_witness :
  fst (script planar_osmnx checked_plotting (fresh one_way_graph)) = Raise none_route.
Proof.
  apply (script_stops_without_a_path planar_osmnx checked_plotting (fresh one_way_graph) 1 2).
  - vm_compute. reflexivity.
  - vm_compute. reflexivity.
  - reflexivity.
  - reflexivity.
  - discriminate.
  - apply check_nonneg_attr_sound. vm_compute. reflexivity.
  - apply one_way_graph_apart.
Defined.

Lemma default_lengths_twice (g : graph) :
  default_lengths (default_lengths g) = default_lengths g.
Proof. apply default_lengths_fixed, default_lengths_has_lengths. Qed.

(** A fuel or cost search on a graph that a search has already gone over
    leaves the graph as it is. *)
Lemma later_search_keeps_graph (ox : osmnx) (a b : Q * Q) (p : string) (w : world)
    (found : option route) :
  has_lengths (w_graph w) ->
  String.eqb p "tempo" = false ->
  fst (find_best_route ox a b p w) = Ok found ->
  w_graph (snd (find_best_route ox a b p w)) = w_graph w.
Proof.
  intros Hlen Hp Hfound.
  destruct (find_best_route_inv ox a b p w found Hfound)
    as (orig & dest & g' & wt & _ & _ & Hg & _ & _ & ->).
  unfold derive in Hg. rewrite Hp in Hg. injection Hg as <-.
  by apply default_lengths_fixed.
Qed.

(** X19. In a run of the script that completes, the statistics recorded for
    the fuel criterion and for the cost criterion are the same record, and
    the two maps differ in nothing but their file names: both searches
    weigh every edge 0 and run on the same graph, so they return the same
    route. *)
Theorem script_fuel_and_cost_rows_coincide (ox : osmnx) (px : plotting) (w : world)
    (out : outputs) :
  fst (script ox px w) = Ok out ->
  exists s1 s2 s3 m1 m2 m3 m4,
    stats_list out = [s1; s2; s3; s3]
    /\ saved_maps out = [m1; m2; m3; m4]
    /\ map_xlim m3 = map_xlim m4
    /\ map_ylim m3 = map_ylim m4.
Proof.
  unfold script, criteria. rewrite route_loop_cons.
  destruct (route_for ox px POINT_A POINT_B "distancia" no_outputs w)
    as [[out1|] w1] eqn:H1; [|done].
  rewrite route_loop_cons.
  destruct (route_for ox px POINT_A POINT_B "tempo" out1 w1)
    as [[out2|] w2] eqn:H2; [|done].
  rewrite route_loop_cons.
  destruct (route_for ox px POINT_A POINT_B "combustivel" out2 w2)
    as [[out3|] w3] eqn:H3; [|done].
  rewrite route_loop_cons.
  destruct (route_for ox px POINT_A POINT_B "custo" out3 w3)
    as [[out4|] w4] eqn:H4; [|done].
  cbn [route_loop]. intros [= <-].
  destruct (route_for_inv ox px POINT_A POINT_B "distancia" no_outputs out1 w) as
    (r1 & s1 & m1 & _ & _ & _ & _ & Hout1); [by rewrite H1|].
  destruct (route_for_inv ox px POINT_A POINT_B "tempo" out1 out2 w1) as
    (r2 & s2 & m2 & Hr2 & Hw2 & _ & _ & Hout2); [by rewrite H2|].
  destruct (route_for_inv ox px POINT_A POINT_B "combustivel" out2 out3 w2) as
    (r3 & s3 & m3 & Hr3 & Hw3 & Hs3 & Hm3 & Hout3); [by rewrite H3|].
  destruct (route_for_inv ox px POINT_A POINT_B "custo" out3 out4 w3) as
    (r4 & s4 & m4 & Hr4 & Hw4 & Hs4 & Hm4 & Hout4); [by rewrite H4|].
  rewrite Hout4, Hout3, Hout2, Hout1. clear Hout1 Hout2 Hout3 Hout4.
  rewrite H2 in Hw2. rewrite H3 in Hw3. cbn [snd] in Hw2, Hw3.
  cbn [no_outputs stats_list route_map_paths saved_maps app].
  assert (has_lengths (w_graph w2)) as Hlen2.
  { rewrite Hw2. by apply (search_has_lengths ox _ _ _ _ (Some r2)). }
  assert (w_graph w3 = w_graph w2) as Hg3.
  { rewrite Hw3. by apply (later_search_keeps_graph ox _ _ _ _ (Some r3)). }
  rewrite <- fuel_search_is_cost_search in Hr4, Hs4, Hm4.
  destruct (find_best_route_graph_only ox POINT_A POINT_B "combustivel" w3 w2 Hg3)
    as [Hfst Hsnd].
  rewrite Hfst, Hr3 in Hr4. injection Hr4 as <-.
  rewrite Hsnd in Hs4, Hm4. rewrite <- Hw3 in Hs3, Hm3, Hs4, Hm4.
  rewrite Hs3 in Hs4. injection Hs4 as <-.
  exists s1, s2, s3, m1, m2, m3, m4. do 2 (split; [done|]).
  apply save_route_map_inv in Hm3
    as (ns & x0 & x1 & y0 & y1 & Hns & Hx0 & Hx1 & Hy0 & Hy1 & ->).
  apply save_route_map_inv in Hm4
    as (ns' & x0' & x1' & y0' & y1' & Hns' & Hx0' & Hx1' & Hy0' & Hy1' & ->).
  cbn [map_xlim map_ylim]. rewrite Hns in Hns'. injection Hns' as <-.
  split; congruence.
Qed.

Lemma script_fuel_and_cost_rows_coincide_witness :
  exists out s1 s2 s3,
    fst (script planar_osmnx checked_plotting (fresh towns_graph)) = Ok out
    /\ stats_list out = [s1; s2; s3; s3].
Proof.
  assert (exists out, fst (script planar_osmnx checked_plotting (fresh towns_graph)) = Ok out)
    as [out Hout] by (eexists; vm_compute; reflexivity).
  destruct (script_fuel_and_cost_rows_coincide planar_osmnx checked_plotting
              (fresh towns_graph) out Hout) as (s1 & s2 & s3 & _ & _ & _ & _ & Hstats & _).
  exists out, s1, s2, s3. split; [exact Hout | exact Hstats].
Defined.

(** X20. When both points resolve to the same node, the search returns the
    route of that one node; unless the node has a loop edge, the turn of
    the loop then stops with the [ValueError] of a route without edges. *)
Theorem points_on_one_node (ox : osmnx) (px : plotting) (a b : Q * Q) (p : string)
    (w : world) (n : node) (g' : graph) (out : outputs) :
  p ∈ criteria ->
  nearest_nodes ox (w_graph w) (snd a) (fst a) = Ok n ->
  nearest_nodes ox (w_graph w) (snd b) (fst b) = Ok n ->
  derive ox p (w_graph w) = Ok g' ->
  has_node g' n = true ->
  g_edges g' <> [] ->
  fst (find_best_route ox a b p w) = Ok (Some [n])
  /\ (~ edge_rel g' n n ->
      fst (route_for ox px a b p out w) = Raise (ValueError "graph contains no edges")).
Proof.
  intros Hp Ha Hb Hg Hn He.
  destruct (select_weight_inside p Hp) as [wt Hwt].
  destruct (find_best_route_run ox a b p w n n g' wt Ha Hb Hg Hwt) as [tr Hrun].
  assert (shortest_path (default_lengths g') n n wt = Ok (Some [n])) as Hroute.
  { unfold shortest_path, bidirectional_dijkstra.
    pose proof (default_lengths_edges g' He) as He'.
    destruct (g_edges (default_lengths g')) as [|e0 es]; [done|].
    rewrite has_node_default_lengths, Hn, Z.eqb_refl. done. }
  rewrite Hroute in Hrun. split; [by rewrite Hrun|].
  intros Hloop. rewrite route_for_run, Hrun. cbn [w_graph].
  unfold calculate_route_statistics, route_to_gdf.
  rewrite subgraph_edges_one; [done|].
  intros Hloop'. by apply Hloop, default_lengths_edge_rel.
Qed.

Lemma points_on_one_node_witness :
  fst (find_best_route planar_osmnx (0, 1) (0, 1) "distancia" (fresh line_graph))
  = Ok (Some [2]%Z).
Proof.
  apply (points_on_one_node planar_osmnx checked_plotting (0, 1) (0, 1) "distancia"
           (fresh line_graph) 2 line_graph no_outputs).
  - apply distancia_inside.
  - vm_compute. reflexivity.
  - vm_compute. reflexivity.
  - vm_compute. reflexivity.
  - vm_compute. reflexivity.
  - discriminate.
Defined.

(** ** Walks and their costs *)

Lemma link_flip (g : graph) (d : direction) (u v : node) :
  link g (flip d) v u <-> link g d u v.
Proof. by destruct d. Qed.

Lemma link_cost_flip (g : graph) (wf : node -> node -> keydict -> result Q)
    (d : direction) (u v : node) :
  link_cost g wf (flip d) v u = link_cost g wf d u v.
Proof. by destruct d. Qed.

Lemma is_path_walk (g : graph) (u v : node) (p : route) :
  is_path g u v p <-> walk g Forward u v p.
Proof.
  split; induction 1; try (by constructor).
  - by apply (walk_step g Forward u v w).
  - by apply (path_edge g u v w).
Qed.

Lemma walk_snoc (g : graph) (d : direction) (u v w : node) (p : route) :
  walk g d u v p -> link g d v w -> walk g d u w (p ++ [w])%list.
Proof.
  induction 1 as [u | u x v p Hux Hp IH]; intros Hvw.
  - apply (walk_step g d u w w); [done | apply walk_end].
  - cbn [app]. apply (walk_step g d u x w); [done | by apply IH].
Qed.

Lemma walk_rev (g : graph) (d : direction) (u v : node) (p : route) :
  walk g d u v p -> walk g (flip d) v u (rev p).
Proof.
  induction 1 as [u | u x v p Hux Hp IH]; [apply walk_end|].
  cbn [rev]. apply (walk_snoc g (flip d) v x u); [done | by apply link_flip].
Qed.

Lemma walk_ends (g : graph) (d : direction) (u v : node) (p : route) :
  walk g d u v p -> head p = Some u /\ last p = Some v.
Proof.
  induction 1 as [u | u x v p Hux Hp [Hhd Hlast]]; [done|].
  split; [done|]. destruct p as [|y q]; [done | exact Hlast].
Qed.

Lemma flip_flip (d : direction) : flip (flip d) = d.
Proof. by destruct d. Qed.

Lemma path_dir_walk (g : graph) (source target : node) (d : direction)
    (n : node) (p : route) :
  path_dir g source target d n p <-> walk g d (start_of source target d) n p.
Proof.
  destruct d; cbn [path_dir start_of]; [apply is_path_walk|].
  rewrite is_path_walk. split; intros Hw.
  - apply walk_rev in Hw. by rewrite rev_involutive in Hw.
  - by apply walk_rev in Hw.
Qed.

Lemma qsum_cons (x : Q) (l : list Q) : qsum (x :: l) = x + qsum l.
Proof. reflexivity. Qed.

Lemma qsum_one (x : Q) : qsum [x] == x.
Proof. unfold qsum. cbn [fold_right]. lra. Qed.

Lemma qsum_app (l l' : list Q) : qsum (l ++ l') == qsum l + qsum l'.
Proof.
  induction l as [|x l IH]; cbn [app]; [unfold qsum at 2; cbn; lra|].
  rewrite !qsum_cons, IH. lra.
Qed.

Lemma qsum_rev (l : list Q) : qsum (rev l) == qsum l.
Proof.
  induction l as [|x l IH]; [reflexivity|]. cbn [rev].
  rewrite qsum_app, IH, !qsum_cons. unfold qsum at 2. cbn. lra.
Qed.

Lemma pairs_snoc (p : route) (v w : node) :
  last p = Some v -> pairs (p ++ [w]) = (pairs p ++ [(v, w)])%list.
Proof.
  induction p as [|a p IH]; [done|]. destruct p as [|b p].
  - by intros [= ->].
  - intros Hlast. cbn [app pairs]. f_equal. by apply IH.
Qed.

Lemma last_rev_head (p : route) : last (rev p) = head p.
Proof. destruct p as [|a p]; [done|]. cbn [rev head]. by rewrite last_snoc. Qed.

Lemma pairs_rev (p : route) :
  pairs (rev p) = rev (map (fun nm => (snd nm, fst nm)) (pairs p)).
Proof.
  induction p as [|a p IH]; [done|]. destruct p as [|b p]; [done|].
  change (rev (a :: b :: p)) with (rev (b :: p) ++ [a])%list.
  rewrite (pairs_snoc _ b a) by (by rewrite last_rev_head).
  rewrite IH. by cbn [pairs map rev fst snd].
Qed.

Section Costs.

Variable g : graph.
Variable wf : node -> node -> keydict -> result Q.

Hypothesis costs : forall u v, edge_rel g u v ->
  exists c, wf u v (parallel_edges g u v) = Ok c /\ 0 <= c.

Lemma dcost_cons (d : direction) (u v : node) (p : route) :
  dcost g wf d (u :: v :: p) = link_cost g wf d u v + dcost g wf d (v :: p).
Proof. reflexivity. Qed.

Lemma dcost_one (d : direction) (u : node) : dcost g wf d [u] = 0.
Proof. reflexivity. Qed.

Lemma dcost_snoc (d : direction) (p : route) (v w : node) :
  last p = Some v ->
  dcost g wf d (p ++ [w]) == dcost g wf d p + link_cost g wf d v w.
Proof.
  intros Hlast. unfold dcost. rewrite (pairs_snoc p v w Hlast), map_app, qsum_app.
  cbn [map fst snd]. rewrite qsum_one. reflexivity.
Qed.

Lemma dcost_rev (d : direction) (p : route) :
  dcost g wf (flip d) (rev p) == dcost g wf d p.
Proof.
  unfold dcost. rewrite pairs_rev, map_rev, qsum_rev, map_map. cbn [fst snd].
  induction (pairs p) as [|[a b] l IH]; [reflexivity|].
  cbn [map fst snd]. rewrite !qsum_cons, IH, link_cost_flip. reflexivity.
Qed.

Lemma walk_cost_join (p0 q : route) (w : node) :
  last p0 = Some w -> head q = Some w ->
  walk_cost g wf (p0 ++ List.tl q) == walk_cost g wf p0 + walk_cost g wf q.
Proof.
  intros Hlast Hhead. destruct q as [|w' q]; [done|]. injection Hhead as ->.
  cbn [List.tl]. unfold walk_cost.
  induction p0 as [|a p0 IH]; [done|]. destruct p0 as [|b p0].
  - injection Hlast as ->. cbn [app]. rewrite dcost_one. lra.
  - cbn [app]. rewrite !dcost_cons. cbn [app] in IH. rewrite IH by done. lra.
Qed.

(** The cost [relax] computes for a step is the cost of that step, and
    it is not negative. *)
Lemma link_cost_ok (d : direction) (v w : node) :
  link g d v w ->
  match d with
  | Forward => wf v w (parallel_edges g v w)
  | Backward => wf w v (parallel_edges g w v)
  end = Ok (link_cost g wf d v w)
  /\ 0 <= link_cost g wf d v w.
Proof.
  destruct d; cbn [link link_cost]; intros Hvw;
    destruct (costs _ _ Hvw) as (c & Hc & Hc0); unfold edge_cost; by rewrite Hc.
Qed.

Lemma dcost_nonneg (d : direction) (u v : node) (p : route) :
  walk g d u v p -> 0 <= dcost g wf d p.
Proof.
  induction 1 as [u | u x v p Hux Hp IH]; [by rewrite dcost_one|].
  apply walk_ends in Hp as [Hhd _]. destruct p as [|y q]; [done|].
  injection Hhd as ->. rewrite dcost_cons.
  pose proof (link_cost_ok d u x Hux) as [_ Hc]. lra.
Qed.

End Costs.

(** ** The bidirectional search: the path returned is a cheapest one *)

Lemma head_rev_last (p : route) : head (rev p) = last p.
Proof. rewrite <- (rev_involutive p) at 2. by rewrite last_rev_head. Qed.

(** What [# relaxing] does to the best complete path: it keeps it, and
    then it is no worse than meeting at [w]; or it replaces it by the
    better path through [w]. *)
Lemma relaxing_final (d : direction) (v w : node) (len : Q) (st st' : search) :
  relaxing d v w len st = Ok st' ->
  (finalpath st' = finalpath st /\ finaldist st' = finaldist st
   /\ match seen (fwd st') !! w, seen (bwd st') !! w with
      | Some d0, Some d1 => finalpath st <> [] /\ finaldist st <= d0 + d1
      | _, _ => True
      end)
  \/ (exists d0 d1 p0 p1,
        seen (fwd st') !! w = Some d0 /\ seen (bwd st') !! w = Some d1
        /\ paths (fwd st') !! w = Some p0 /\ paths (bwd st') !! w = Some p1
        /\ finaldist st' = d0 + d1
        /\ finalpath st' = (p0 ++ List.tl (rev p1))%list
        /\ (finalpath st = [] \/ d0 + d1 < finaldist st)).
Proof.
  unfold relaxing, mbind, result_bind, rbind, getitem. cbv zeta.
  destruct (paths (side d st) !! v) as [pv|]; [|done].
  destruct d; cbn [side set_side flip fwd bwd counter finaldist finalpath dir seen paths].
  - destruct (<[w:=len]> (seen (fwd st)) !! w) as [d0|] eqn:H0.
    2: { intros [= <-]. left. cbn [fwd bwd seen finalpath finaldist]. by rewrite H0. }
    destruct (seen (bwd st) !! w) as [d1|] eqn:H1.
    2: { intros [= <-]. left. cbn [fwd bwd seen finalpath finaldist]. by rewrite H0, H1. }
    destruct (bool_decide (finalpath st = [])) eqn:Hnil; cbn [orb].
    + apply bool_decide_eq_true in Hnil.
      destruct (<[w:=(pv ++ [w])%list]> (paths (fwd st)) !! w) as [p0|] eqn:Hp0; [|done].
      destruct (paths (bwd st) !! w) as [p1|] eqn:Hp1; [|done].
      intros [= <-]. right. exists d0, d1, p0, p1.
      cbn [fwd bwd seen paths finalpath finaldist]. by repeat split; try done; left.
    + apply bool_decide_eq_false in Hnil.
      destruct (qlt (d0 + d1) (finaldist st)) eqn:Hlt.
      * apply qlt_true in Hlt.
        destruct (<[w:=(pv ++ [w])%list]> (paths (fwd st)) !! w) as [p0|] eqn:Hp0; [|done].
        destruct (paths (bwd st) !! w) as [p1|] eqn:Hp1; [|done].
        intros [= <-]. right. exists d0, d1, p0, p1.
        cbn [fwd bwd seen paths finalpath finaldist]. by repeat split; try done; right.
      * apply qlt_false in Hlt. intros [= <-]. left.
        cbn [fwd bwd seen finalpath finaldist]. by rewrite H0, H1.
  - destruct (seen (fwd st) !! w) as [d0|] eqn:H0.
    2: { intros [= <-]. left. cbn [fwd bwd seen finalpath finaldist]. by rewrite H0. }
    destruct (<[w:=len]> (seen (bwd st)) !! w) as [d1|] eqn:H1.
    2: { intros [= <-]. left. cbn [fwd bwd seen finalpath finaldist]. by rewrite H0, H1. }
    destruct (bool_decide (finalpath st = [])) eqn:Hnil; cbn [orb].
    + apply bool_decide_eq_true in Hnil.
      destruct (paths (fwd st) !! w) as [p0|] eqn:Hp0; [|done].
      destruct (<[w:=(pv ++ [w])%list]> (paths (bwd st)) !! w) as [p1|] eqn:Hp1; [|done].
      intros [= <-]. right. exists d0, d1, p0, p1.
      cbn [fwd bwd seen paths finalpath finaldist]. by repeat split; try done; left.
    + apply bool_decide_eq_false in Hnil.
      destruct (qlt (d0 + d1) (finaldist st)) eqn:Hlt.
      * apply qlt_true in Hlt.
        destruct (paths (fwd st) !! w) as [p0|] eqn:Hp0; [|done].
        destruct (<[w:=(pv ++ [w])%list]> (paths (bwd st)) !! w) as [p1|] eqn:Hp1; [|done].
        intros [= <-]. right. exists d0, d1, p0, p1.
        cbn [fwd bwd seen paths finalpath finaldist]. by repeat split; try done; right.
      * apply qlt_false in Hlt. intros [= <-]. left.
        cbn [fwd bwd seen finalpath finaldist]. by rewrite H0, H1.
Qed.

Lemma search_opt_ext (g : graph) (wf : node -> node -> keydict -> result Q)
    (st st' : search) :
  seen (fwd st') = seen (fwd st) ->
  seen (bwd st') = seen (bwd st) ->
  finalpath st' = finalpath st ->
  finaldist st' = finaldist st ->
  search_opt g wf st -> search_opt g wf st'.
Proof. intros Hf Hb Hp Hd [Hfinal Hmeet]. split; rewrite ?Hf, ?Hb, Hp, Hd; done. Qed.

Lemma frontier_opt_any (g : graph) (wf : node -> node -> keydict -> result Q)
    (d : direction) (start v v' : node) (s : frontier) :
  frontier_opt g wf d start v [] s -> frontier_opt g wf d start v' [] s.
Proof.
  intros [H1 H2 H3 H4 H5 H6 H7]. split; try done.
  intros n m x Hn Hnm. destruct (H6 n m x Hn Hnm) as [Hm | [_ []]]. by left.
Qed.

Section Optimal.

Variable g : graph.
Variables source target : node.
Variable wf : node -> node -> keydict -> result Q.

Hypothesis costs : forall u v, edge_rel g u v ->
  exists c, wf u v (parallel_edges g u v) = Ok c /\ 0 <= c.

Hypothesis distinct : source <> target.

Lemma pushed_opt (d : direction) (start v : node) (pending : list node) (s : frontier)
    (pv : route) (w : node) (dist len : Q) (c : nat) :
  frontier_opt g wf d start v (w :: pending) s ->
  paths s !! v = Some pv ->
  last pv = Some v ->
  dists s !! v = Some dist ->
  len == dist + link_cost g wf d v w ->
  dists s !! w = None ->
  (seen s !! w = None \/ exists sw, seen s !! w = Some sw /\ len < sw) ->
  frontier_opt g wf d start v pending (pushed s pv w len c).
Proof.
  intros [Hstart Hseen Hdists Hfringe Hwait Hrelaxed Hleast] Hpv Hlast Hdv Hlen Hdw Hsw.
  split; unfold pushed; cbn [dists paths fringe seen].
  - destruct Hstart as (x & Hx & Hx0). destruct (decide (start = w)) as [-> | Hne].
    + exists len. rewrite lookup_insert_eq. split; [done|].
      destruct Hsw as [Hnone | (sw & Hsw & Hlt)]; [congruence|].
      rewrite Hx in Hsw. injection Hsw as <-. lra.
    + exists x. by rewrite lookup_insert_ne.
  - intros n x Hn. destruct (decide (n = w)) as [-> | Hne].
    + rewrite lookup_insert_eq in Hn. injection Hn as <-.
      exists (pv ++ [w])%list. rewrite lookup_insert_eq. split; [done|].
      rewrite (dcost_snoc g wf d pv v w Hlast).
      destruct (Hdists v dist Hdv) as (sx & Hsx & Heq).
      destruct (Hseen v sx Hsx) as (p & Hp & Hcost).
      rewrite Hpv in Hp. injection Hp as <-. lra.
    + rewrite lookup_insert_ne in Hn by done. rewrite lookup_insert_ne by done.
      by apply Hseen.
  - intros n x Hn. assert (n <> w) by congruence.
    rewrite lookup_insert_ne by done. by apply Hdists.
  - intros x c' n [[= <- <- <-] | Hin] Hn.
    + exists len. rewrite lookup_insert_eq. split; [done | lra].
    + destruct (Hfringe x c' n Hin Hn) as (sx & Hsx & Hle).
      destruct (decide (n = w)) as [-> | Hne].
      * exists len. rewrite lookup_insert_eq. split; [done|].
        destruct Hsw as [Hnone | (sw & Hsw & Hlt)]; [congruence|].
        rewrite Hsx in Hsw. injection Hsw as <-. lra.
      * exists sx. by rewrite lookup_insert_ne.
  - intros n sx Hn Hnd. destruct (decide (n = w)) as [-> | Hne].
    + rewrite lookup_insert_eq in Hn. injection Hn as <-.
      exists len, c. split; [by left | reflexivity].
    + rewrite lookup_insert_ne in Hn by done.
      destruct (Hwait n sx Hn Hnd) as (x & c' & Hin & Heq).
      exists x, c'. split; [by right | done].
  - intros n m x Hn Hnm.
    destruct (Hrelaxed n m x Hn Hnm) as [(sm & Hsm & Hle) | [-> [<- | Hm]]].
    + left. destruct (decide (m = w)) as [-> | Hne].
      * exists len. rewrite lookup_insert_eq. split; [done|].
        destruct Hsw as [Hnone | (sw & Hsw & Hlt)]; [congruence|].
        rewrite Hsm in Hsw. injection Hsw as <-. lra.
      * exists sm. by rewrite lookup_insert_ne.
    + left. exists len. rewrite lookup_insert_eq. split; [done|].
      rewrite Hdv in Hn. injection Hn as <-. lra.
    + by right.
  - done.
Qed.

Lemma relaxed_opt (d : direction) (start v : node) (pending : list node) (s : frontier)
    (w : node) (dist : Q) :
  frontier_opt g wf d start v (w :: pending) s ->
  dists s !! v = Some dist ->
  (exists sw, seen s !! w = Some sw /\ sw <= dist + link_cost g wf d v w) ->
  frontier_opt g wf d start v pending s.
Proof.
  intros [Hstart Hseen Hdists Hfringe Hwait Hrelaxed Hleast] Hdv (sw & Hsw & Hle).
  split; try done.
  intros n m x Hn Hnm.
  destruct (Hrelaxed n m x Hn Hnm) as [Hm | [-> [<- | Hm]]]; [by left | | by right].
  left. exists sw. split; [done|]. rewrite Hdv in Hn. injection Hn as <-. done.
Qed.

Lemma search_opt_relaxed (st st' : search) (w : node) :
  search_opt g wf st ->
  (forall d0 n x, seen (side d0 st') !! n = Some x ->
     exists p, paths (side d0 st') !! n = Some p /\ x == dcost g wf d0 p
               /\ last p = Some n) ->
  (forall d0 n, n <> w -> seen (side d0 st') !! n = seen (side d0 st) !! n) ->
  (finalpath st' = finalpath st /\ finaldist st' = finaldist st
   /\ match seen (fwd st') !! w, seen (bwd st') !! w with
      | Some d0, Some d1 => finalpath st <> [] /\ finaldist st <= d0 + d1
      | _, _ => True
      end)
  \/ (exists d0 d1 p0 p1,
        seen (fwd st') !! w = Some d0 /\ seen (bwd st') !! w = Some d1
        /\ paths (fwd st') !! w = Some p0 /\ paths (bwd st') !! w = Some p1
        /\ finaldist st' = d0 + d1
        /\ finalpath st' = (p0 ++ List.tl (rev p1))%list
        /\ (finalpath st = [] \/ d0 + d1 < finaldist st)) ->
  search_opt g wf st'.
Proof.
  intros [Hfinal Hmeet] Hcost Hkeep
    [(Hp & Hd & Hw) | (d0 & d1 & p0 & p1 & H0 & H1 & Hp0 & Hp1 & Hd & Hp & Hbetter)].
  - split.
    + by rewrite Hp, Hd.
    + intros n x y Hx Hy. rewrite Hp, Hd. destruct (decide (n = w)) as [-> | Hne].
      * by rewrite Hx, Hy in Hw.
      * pose proof (Hkeep Forward n Hne) as Hkf. pose proof (Hkeep Backward n Hne) as Hkb.
        cbn [side] in Hkf, Hkb. rewrite Hkf in Hx. rewrite Hkb in Hy.
        by apply (Hmeet n).
  - destruct (Hcost Forward w d0 H0) as (q0 & Hq0 & Hc0 & Hl0).
    destruct (Hcost Backward w d1 H1) as (q1 & Hq1 & Hc1 & Hl1).
    cbn [side] in Hq0, Hq1. rewrite Hp0 in Hq0. rewrite Hp1 in Hq1.
    injection Hq0 as <-. injection Hq1 as <-.
    assert (finalpath st' <> []) as Hne.
    { rewrite Hp. destruct p0; [done | done]. }
    split.
    + intros _. rewrite Hd, Hp.
      rewrite (walk_cost_join g wf p0 (rev p1) w Hl0) by (by rewrite head_rev_last).
      pose proof (dcost_rev g wf Backward p1) as Hrev. cbn [flip] in Hrev.
      unfold walk_cost. lra.
    + intros n x y Hx Hy. split; [done|]. rewrite Hd.
      destruct (decide (n = w)) as [-> | Hnw].
      * rewrite H0 in Hx. rewrite H1 in Hy. injection Hx as <-. injection Hy as <-. lra.
      * pose proof (Hkeep Forward n Hnw) as Hkf. pose proof (Hkeep Backward n Hnw) as Hkb.
        cbn [side] in Hkf, Hkb. rewrite Hkf in Hx. rewrite Hkb in Hy.
        destruct (Hmeet n x y Hx Hy) as [Hold Hle].
        destruct Hbetter as [Hnil | Hlt]; [done | lra].
Qed.

(** Relaxing towards a neighbour that is worth it keeps the books. *)
Lemma relaxing_opt (d : direction) (v w : node) (dist : Q) (st st' : search)
    (pending : list node) :
  relax_ready g source target d v dist st ->
  dists (side d st) !! v = Some dist ->
  frontier_opt g wf d (start_of source target d) v (w :: pending) (side d st) ->
  frontier_opt g wf (flip d) (start_of source target (flip d))
    (start_of source target (flip d)) [] (side (flip d) st) ->
  search_opt g wf st ->
  link g d v w ->
  dists (side d st) !! w = None ->
  (seen (side d st) !! w = None
   \/ exists sw, seen (side d st) !! w = Some sw
                 /\ dist + link_cost g wf d v w < sw) ->
  relaxing d v w (dist + link_cost g wf d v w) st = Ok st' ->
  frontier_opt g wf d (start_of source target d) v pending (side d st')
  /\ side (flip d) st' = side (flip d) st
  /\ search_opt g wf st'
  /\ dists (side d st') = dists (side d st)
  /\ dir st' = dir st.
Proof.
  intros (Hok & [pv Hv] & Hbound) Hdv Hopt Hother Hsopt Hvw Hdw Hsw Hst'.
  pose proof (link_cost_ok g wf costs d v w Hvw) as [_ Hc0].
  destruct (relaxing_spec g source target d v w (dist + link_cost g wf d v w)
              st pv Hok Hv Hvw)
    as (st1 & Hst1 & Hs & Ho & _).
  { intros m dm Hm. specialize (Hbound m dm Hm). lra. }
  rewrite Hst' in Hst1. injection Hst1 as <-.
  pose proof Hok as [Hsides _].
  apply (sides_ok_sides g source target d) in Hsides as [Hside Hoside].
  assert (last pv = Some v) as Hlast.
  { apply (ok_walk Hside), path_dir_walk, walk_ends in Hv. apply Hv. }
  assert (frontier_ok g source target d (side d st')) as Hside'.
  { rewrite Hs. apply (pushed_ok g source target d _ pv v w); try done.
    intros m dm Hm. specialize (Hbound m dm Hm). lra. }
  assert (frontier_opt g wf d (start_of source target d) v pending (side d st'))
    as Hopt'.
  { rewrite Hs. by apply (pushed_opt d _ v pending _ pv w dist). }
  split; [done|]. split; [done|]. split; [|split].
  - apply (search_opt_relaxed st st' w Hsopt).
    + intros d0. pattern d0. apply (both_sides _ d).
      * intros n x Hn. destruct (opt_seen Hopt' n x Hn) as (p & Hp & Hcost).
        exists p. split; [done|]. split; [done|].
        apply (ok_walk Hside'), path_dir_walk, walk_ends in Hp. apply Hp.
      * rewrite Ho. intros n x Hn. destruct (opt_seen Hother n x Hn) as (p & Hp & Hcost).
        exists p. split; [done|]. split; [done|].
        apply (ok_walk Hoside), path_dir_walk, walk_ends in Hp. apply Hp.
    + intros d0. pattern d0. apply (both_sides _ d).
      * intros n Hn. rewrite Hs. unfold pushed. cbn [seen]. by rewrite lookup_insert_ne.
      * intros n Hn. by rewrite Ho.
    + by apply (relaxing_final d v w (dist + link_cost g wf d v w) st).
  - rewrite Hs. done.
  - by apply (relaxing_dir d v w (dist + link_cost g wf d v w) st).
Qed.

Lemma relax_opt (d : direction) (v : node) (dist : Q) (st st' : search)
    (nb : node * keydict) (pending : list node) :
  relax_ready g source target d v dist st ->
  dists (side d st) !! v = Some dist ->
  frontier_opt g wf d (start_of source target d) v (fst nb :: pending) (side d st) ->
  frontier_opt g wf (flip d) (start_of source target (flip d))
    (start_of source target (flip d)) [] (side (flip d) st) ->
  search_opt g wf st ->
  In nb (neighs g d v) ->
  relax wf d v dist st nb = Ok st' ->
  frontier_opt g wf d (start_of source target d) v pending (side d st')
  /\ side (flip d) st' = side (flip d) st
  /\ search_opt g wf st'
  /\ dists (side d st') = dists (side d st)
  /\ dir st' = dir st.
Proof.
  intros Hready Hdv Hopt Hother Hsopt Hnb. destruct nb as [w kd]. cbn [fst] in Hopt.
  apply neighs_In in Hnb as [Hvw Hkd].
  pose proof (link_cost_ok g wf costs d v w Hvw) as [Hc Hc0].
  assert (match d with Forward => wf v w kd | Backward => wf w v kd end
          = Ok (link_cost g wf d v w)) as Hcost.
  { subst kd. by destruct d. }
  unfold relax. rewrite Hcost. unfold mbind, result_bind, rbind.
  destruct (dists (side d st) !! w) as [dw|] eqn:Hdw.
  - destruct (qlt (dist + link_cost g wf d v w) dw) eqn:Hlt; [done|].
    apply qlt_false in Hlt. intros [= <-]. split; [|done].
    apply (relaxed_opt d _ v pending _ w dist); [done | done |].
    destruct (opt_dists Hopt w dw Hdw) as (sx & Hsx & Heq).
    exists sx. split; [done | lra].
  - destruct (seen (side d st) !! w) as [sw|] eqn:Hsw.
    + destruct (qlt (dist + link_cost g wf d v w) sw) eqn:Hlt.
      * apply qlt_true in Hlt. intros Hst'.
        apply (relaxing_opt d v w dist st st' pending); try done.
        right. by exists sw.
      * apply qlt_false in Hlt. intros [= <-]. split; [|done].
        apply (relaxed_opt d _ v pending _ w dist); [done | done |].
        by exists sw.
    + intros Hst'. apply (relaxing_opt d v w dist st st' pending); try done. by left.
Qed.

Lemma foldM_relax_opt (d : direction) (v : node) (dist : Q)
    (l : list (node * keydict)) (st st' : search) :
  relax_ready g source target d v dist st ->
  dists (side d st) !! v = Some dist ->
  frontier_opt g wf d (start_of source target d) v (map fst l) (side d st) ->
  frontier_opt g wf (flip d) (start_of source target (flip d))
    (start_of source target (flip d)) [] (side (flip d) st) ->
  search_opt g wf st ->
  (forall nb, In nb l -> In nb (neighs g d v)) ->
  foldM (relax wf d v dist) st l = Ok st' ->
  frontier_opt g wf d (start_of source target d) v [] (side d st')
  /\ side (flip d) st' = side (flip d) st
  /\ search_opt g wf st'
  /\ dists (side d st') = dists (side d st)
  /\ dir st' = dir st.
Proof.
  revert st. induction l as [|nb l IH]; intros st Hready Hdv Hopt Hother Hsopt Hl.
  - by intros [= <-].
  - cbn [foldM]. unfold mbind, result_bind, rbind.
    destruct (relax_spec g source target wf costs d v dist st nb Hready)
      as (st1 & Hst1 & Hready1 & _).
    { apply Hl. by left. }
    rewrite Hst1. intros Hst'.
    destruct (relax_opt d v dist st st1 nb (map fst l) Hready Hdv Hopt Hother Hsopt)
      as (Hopt1 & Ho1 & Hsopt1 & Hd1 & Hdir1); [apply Hl; by left | done |].
    destruct (IH st1 Hready1) as (Hopt' & Ho' & Hsopt' & Hd' & Hdir'); try done.
    { by rewrite Hd1. }
    { by rewrite Ho1. }
    { intros nb' Hin. apply Hl. by right. }
    split; [done|]. split; [congruence|]. split; [done|]. split; congruence.
Qed.

End Optimal.

Section Cheapest.

Variable g : graph.
Variables source target : node.
Variable wf : node -> node -> keydict -> result Q.

Hypothesis costs : forall u v, edge_rel g u v ->
  exists c, wf u v (parallel_edges g u v) = Ok c /\ 0 <= c.

Hypothesis distinct : source <> target.

(** On a walk to a node without a final distance, some node waits in the
    heap under a key that is at most the cost of the walk. *)
Lemma least_key_from (d : direction) (start v0 : node) (s : frontier)
    (u n : node) (p : route) (acc : Q) :
  frontier_opt g wf d start v0 [] s ->
  walk g d u n p ->
  (exists su, seen s !! u = Some su /\ su <= acc) ->
  dists s !! n = None ->
  exists x c y, In (x, c, y) (fringe s) /\ x <= acc + dcost g wf d p.
Proof.
  intros Hopt Hwalk. revert acc.
  induction Hwalk as [u | u x n p Hux Hp IH]; intros acc (su & Hsu & Hle) Hn.
  - destruct (opt_waiting Hopt u su Hsu Hn) as (k & c & Hin & Heq).
    exists k, c, u. split; [done|]. rewrite dcost_one. lra.
  - pose proof (dcost_nonneg g wf costs d u n (u :: p)
                  (walk_step g d u x n p Hux Hp)) as Hpos.
    destruct (dists s !! u) as [du|] eqn:Hdu.
    + destruct (opt_dists Hopt u du Hdu) as (sx & Hsx & Heq).
      rewrite Hsu in Hsx. injection Hsx as <-.
      destruct (opt_relaxed Hopt u x du Hdu Hux) as [(sm & Hsm & Hsm_le) | [_ []]].
      destruct (IH (acc + link_cost g wf d u x)) as (k & c & y & Hin & Hk); [|done|].
      { exists sm. split; [done | lra]. }
      exists k, c, y. split; [done|].
      pose proof (walk_ends g d x n p Hp) as [Hhd _].
      destruct p as [|x' q]; [done|]. injection Hhd as ->.
      rewrite dcost_cons. lra.
    + destruct (opt_waiting Hopt u su Hsu Hdu) as (k & c & Hin & Heq).
      exists k, c, u. split; [done | lra].
Qed.

Lemma least_key (d : direction) (start v0 : node) (s : frontier) (n : node) (p : route) :
  frontier_opt g wf d start v0 [] s ->
  walk g d start n p ->
  dists s !! n = None ->
  exists x c y, In (x, c, y) (fringe s) /\ x <= dcost g wf d p.
Proof.
  intros Hopt Hwalk Hn.
  destruct (least_key_from d start v0 s start n p 0 Hopt Hwalk (opt_start Hopt) Hn)
    as (x & c & y & Hin & Hle).
  exists x, c, y. split; [done | lra].
Qed.

Lemma popped_opt (d : direction) (start v : node) (s : frontier) (m : entry)
    (rest : list entry) :
  frontier_opt g wf d start v [] s ->
  (forall y, In y (fringe s) <-> y = m \/ In y rest) ->
  is_Some (dists s !! snd m) ->
  frontier_opt g wf d start v []
    {| dists := dists s; paths := paths s; fringe := rest; seen := seen s |}.
Proof.
  intros [Hstart Hseen Hdists Hfringe Hwait Hrelaxed Hleast] Hin [dm Hm].
  split; cbn [dists paths fringe seen]; try done.
  - intros x c n Hx Hn. apply (Hfringe x c n); [apply Hin; by right | done].
  - intros n sx Hn Hnd. destruct (Hwait n sx Hn Hnd) as (x & c & Hx & Heq).
    apply Hin in Hx as [<- | Hx]; [cbn [snd] in Hm; congruence|].
    by exists x, c.
Qed.

Lemma settled_opt (d : direction) (start v : node) (s : frontier) (dist : Q)
    (c : nat) (rest : list entry) :
  frontier_opt g wf d start v [] s ->
  (forall y, In y (fringe s) <-> y = (dist, c, v) \/ In y rest) ->
  (forall y, In y rest -> dist <= entry_dist y) ->
  dists s !! v = None ->
  frontier_opt g wf d start v (map fst (neighs g d v))
    {| dists := <[v := dist]> (dists s); paths := paths s; fringe := rest;
       seen := seen s |}.
Proof.
  intros Hopt Hin Hmin Hv.
  assert (forall x c' y, In (x, c', y) (fringe s) -> dist <= x) as Hleast_key.
  { intros x c' y Hy. apply Hin in Hy as [[= -> _ _] | Hy]; [lra|].
    apply (Hmin _ Hy). }
  pose proof Hopt as [Hstart Hseen Hdists Hfringe Hwait Hrelaxed Hleast].
  split; cbn [dists paths fringe seen]; try done.
  - intros n x Hn. apply lookup_insert_Some in Hn as [[<- <-] | [Hne Hn]]; [|by apply Hdists].
    destruct (Hfringe dist c v) as (sx & Hsx & Hle); [apply Hin; by left | done |].
    destruct (Hwait v sx Hsx Hv) as (k & c' & Hk & Heq).
    specialize (Hleast_key k c' v Hk). exists sx. split; [done | lra].
  - intros x c' n Hx Hn. apply lookup_insert_None in Hn as [Hn Hne].
    apply (Hfringe x c' n); [apply Hin; by right | done].
  - intros n sx Hn Hnd. apply lookup_insert_None in Hnd as [Hnd Hne].
    destruct (Hwait n sx Hn Hnd) as (x & c' & Hx & Heq).
    apply Hin in Hx as [[= _ _ ->] | Hx]; [done|]. by exists x, c'.
  - intros n m x Hn Hnm. destruct (decide (n = v)) as [-> | Hne].
    + right. split; [done|]. destruct (neighs_covers g d v m Hnm) as [kd Hkd].
      apply in_map_iff. by exists (m, kd).
    + rewrite lookup_insert_ne in Hn by done.
      destruct (Hrelaxed n m x Hn Hnm) as [Hm | [_ []]]. by left.
  - intros n x p Hn Hp. apply lookup_insert_Some in Hn as [[<- <-] | [Hne Hn]];
      [|by apply (Hleast n)].
    destruct (least_key d start v s v p Hopt Hp Hv) as (k & c' & y & Hk & Hle).
    specialize (Hleast_key k c' y Hk). lra.
Qed.

Lemma sides_opt_side (d : direction) (st : search) :
  sides_opt g wf source target st ->
  frontier_opt g wf d (start_of source target d) (start_of source target d) []
    (side d st).
Proof. intros Hopt. apply Hopt. Qed.

(** A turn of the loop that goes on keeps the books on both sides. *)
Lemma step_opt (st st' : search) :
  search_ok g source target st ->
  sides_opt g wf source target st ->
  search_opt g wf st ->
  step g wf st = Ok (Continue st') ->
  sides_opt g wf source target st' /\ search_opt g wf st'.
Proof.
  intros Hok Hopt Hsopt. unfold step. cbv zeta.
  set (d := flip (dir st)) in *. clearbody d.
  destruct (heappop (fringe (side d st))) as [[[[dist c] v] rest]|] eqn:Hpop; [|done].
  destruct (heappop_Some _ _ _ Hpop) as (Hin & _ & Hmin).
  pose proof (sides_opt_side d st Hopt) as Hside.
  pose proof (sides_opt_side (flip d) st Hopt) as Hother.
  cbn [dists paths fringe seen].
  destruct (dists (side d st) !! v) as [dv|] eqn:Hdv.
  - intros [= <-]. split.
    + intros d0. pattern d0. apply (both_sides _ d).
      * assert (side d {| fwd := fwd (set_side d {| dists := dists (side d st);
                   paths := paths (side d st); fringe := rest;
                   seen := seen (side d st) |} st);
                 bwd := bwd (set_side d {| dists := dists (side d st);
                   paths := paths (side d st); fringe := rest;
                   seen := seen (side d st) |} st);
                 counter := counter st; finaldist := finaldist st;
                 finalpath := finalpath st; dir := d |}
                = {| dists := dists (side d st); paths := paths (side d st);
                     fringe := rest; seen := seen (side d st) |}) as Hd
          by (by destruct d).
        destruct d; cbn [side set_side fwd bwd counter finaldist finalpath] in *.
        -- apply (popped_opt Forward _ _ _ (dist, c, v) rest Hside Hin).
           cbn [snd]. rewrite Hdv. eauto.
        -- apply (popped_opt Backward _ _ _ (dist, c, v) rest Hside Hin).
           cbn [snd]. rewrite Hdv. eauto.
      * by destruct d.
    + apply (search_opt_ext g wf st); [by destruct d .. | done].
  - set (settled := {| dists := <[v := dist]> (dists (side d st));
                       paths := paths (side d st); fringe := rest;
                       seen := seen (side d st) |}).
    match goal with
    | |- context [set_side d settled ?x] => set (st1 := x)
    end.
    assert (side (flip d) (set_side d settled st1) = side (flip d) st) as Hflip
      by (by destruct d).
    assert (side d (set_side d settled st1) = settled) as Hd by apply side_set_side.
    assert (finalpath (set_side d settled st1) = finalpath st) as Hpath
      by (by destruct d).
    assert (finaldist (set_side d settled st1) = finaldist st) as Hdist
      by (by destruct d).
    rewrite Hflip.
    destruct (dists (side (flip d) st) !! v) as [dv|] eqn:Hdv'; [done|].
    pose proof (settle_ready g source target d st _ dist c v rest Hok Hpop Hd Hflip Hpath)
      as Hready.
    destruct (foldM (relax wf d v dist) (set_side d settled st1) (neighs g d v))
      as [st3|e] eqn:Hst3; [|done].
    unfold mbind, result_bind, rbind. intros [= <-].
    destruct (foldM_relax_opt g source target wf costs d v dist (neighs g d v)
                (set_side d settled st1) st3 Hready)
      as (Hopt3 & Hflip3 & Hsopt3 & _ & _); try done.
    { rewrite Hd. cbn [settled dists]. by rewrite lookup_insert_eq. }
    { rewrite Hd. apply (settled_opt d _ v _ dist c rest); try done.
      by apply (frontier_opt_any g wf d _ (start_of source target d)). }
    { by rewrite Hflip. }
    { apply (search_opt_ext g wf st); try done.
      - destruct d; cbn [side flip] in *; [by rewrite Hd | by rewrite Hflip].
      - destruct d; cbn [side flip] in *; [by rewrite Hflip | by rewrite Hd]. }
    split; [|done].
    intros d0. pattern d0. apply (both_sides _ d).
    + by apply (frontier_opt_any g wf d _ v).
    + rewrite Hflip3, Hflip. exact Hother.
Qed.

(** From a node the forward side has seen but not settled, no path to the
    target beats the best complete path. *)
Lemma meet_unsettled (st : search) (tf tb : Q) (u : node) (q : route) (acc : Q) :
  sides_opt g wf source target st ->
  search_opt g wf st ->
  (forall x c y, In (x, c, y) (fringe (fwd st)) -> tf <= x) ->
  (forall x c y, In (x, c, y) (fringe (bwd st)) -> tb <= x) ->
  finaldist st <= tf + tb ->
  is_path g u target q ->
  (exists su, seen (fwd st) !! u = Some su /\ su <= acc) ->
  dists (fwd st) !! u = None ->
  finaldist st <= acc + walk_cost g wf q.
Proof.
  intros Hopt Hsopt Htf Htb Htop Hpath (su & Hsu & Hle) Hu.
  pose proof (sides_opt_side Forward st Hopt) as Hf.
  pose proof (sides_opt_side Backward st Hopt) as Hb.
  cbn [side start_of] in Hf, Hb.
  destruct (opt_waiting Hf u su Hsu Hu) as (k & c & Hk & Heq).
  specialize (Htf k c u Hk).
  assert (walk g Backward target u (rev q)) as Hwalk.
  { apply is_path_walk, walk_rev in Hpath. exact Hpath. }
  pose proof (dcost_rev g wf Forward q) as Hrev. cbn [flip] in Hrev.
  unfold walk_cost.
  destruct (dists (bwd st) !! u) as [y|] eqn:Hy.
  - destruct (opt_dists Hb u y Hy) as (sy & Hsy & Hyeq).
    pose proof (opt_least Hb u y (rev q) Hy Hwalk) as Hleast.
    destruct (opt_meet Hsopt u su sy Hsu Hsy) as [_ Hmeet]. lra.
  - destruct (least_key Backward target target (bwd st) u (rev q) Hb Hwalk Hy)
      as (x & c' & n & Hx & Hxle).
    specialize (Htb x c' n Hx). lra.
Qed.

Lemma meet_bound (st : search) (tf tb : Q) (u t : node) (q : route) :
  search_full g source target st ->
  sides_opt g wf source target st ->
  search_opt g wf st ->
  (forall x c y, In (x, c, y) (fringe (fwd st)) -> tf <= x) ->
  (forall x c y, In (x, c, y) (fringe (bwd st)) -> tb <= x) ->
  finaldist st <= tf + tb ->
  is_path g u t q ->
  t = target ->
  forall acc,
    (exists su, seen (fwd st) !! u = Some su /\ su <= acc) ->
    finaldist st <= acc + walk_cost g wf q.
Proof.
  intros Hfull Hopt Hsopt Htf Htb Htop Hpath.
  pose proof (sides_opt_side Forward st Hopt) as Hf. cbn [side start_of] in Hf.
  induction Hpath as [u | u y t q Huy Hq IH]; intros -> acc Hu.
  - apply (meet_unsettled st tf tb target [target] acc); try done; [apply path_end|].
    apply (full_target Hfull).
  - destruct (dists (fwd st) !! u) as [du|] eqn:Hdu.
    2: { apply (meet_unsettled st tf tb u (u :: q) acc); try done.
         by apply (path_edge g u y). }
    destruct Hu as (su & Hsu & Hle).
    destruct (opt_dists Hf u du Hdu) as (sx & Hsx & Heq).
    rewrite Hsu in Hsx. injection Hsx as <-.
    destruct (opt_relaxed Hf u y du Hdu Huy) as [(sm & Hsm & Hsm_le) | [_ []]].
    specialize (IH eq_refl (acc + edge_cost g wf u y)).
    pose proof (is_path_head g y target q Hq) as [q' ->].
    unfold walk_cost in *. rewrite dcost_cons. cbn [link_cost] in *.
    assert (finaldist st <= acc + edge_cost g wf u y + dcost g wf Forward (y :: q'))
      as Hgoal; [|lra].
    apply IH. exists sm. split; [done | lra].
Qed.

(** When the loop returns, what it returns costs what it says and no
    path from the source to the target costs less. *)
Lemma step_return_opt (st : search) (r : Q * route) :
  search_ok g source target st ->
  search_full g source target st ->
  sides_opt g wf source target st ->
  search_opt g wf st ->
  step g wf st = Ok (Return r) ->
  fst r == walk_cost g wf (snd r)
  /\ forall p, is_path g source target p -> fst r <= walk_cost g wf p.
Proof.
  intros Hok Hfull Hopt Hsopt. unfold step. cbv zeta.
  set (d := flip (dir st)) in *. clearbody d.
  destruct (heappop (fringe (side d st))) as [[[[dist c] v] rest]|] eqn:Hpop; [|done].
  destruct (heappop_Some _ _ _ Hpop) as (Hin & _ & Hmin).
  pose proof (sides_opt_side d st Hopt) as Hside.
  pose proof (sides_opt_side (flip d) st Hopt) as Hother.
  destruct Hok as [Hsides _].
  apply (sides_ok_sides g source target d) in Hsides as [_ Hoside].
  cbn [dists paths fringe seen].
  destruct (dists (side d st) !! v) as [dv|] eqn:Hdv; [done|].
  match goal with
  | |- context [set_side d ?f ?x] => set (settled := f); set (st1 := x)
  end.
  assert (side (flip d) (set_side d settled st1) = side (flip d) st) as Hflip
    by (by destruct d).
  assert (finalpath (set_side d settled st1) = finalpath st) as Hpath
    by (by destruct d).
  assert (finaldist (set_side d settled st1) = finaldist st) as Hdist
    by (by destruct d).
  rewrite Hflip, Hpath, Hdist.
  destruct (dists (side (flip d) st) !! v) as [dv'|] eqn:Hdv'.
  2: { by destruct (foldM _ _ _). }
  intros [= <-]. cbn [fst snd].
  assert (forall x c' y, In (x, c', y) (fringe (side d st)) -> dist <= x) as Hkeys.
  { intros x c' y Hy. apply Hin in Hy as [[= -> _ _] | Hy]; [lra|]. apply (Hmin _ Hy). }
  assert (forall x c' y, In (x, c', y) (fringe (side (flip d) st)) -> dv' <= x) as Hkeys'.
  { intros x c' y Hy. by apply (ok_order Hoside x c' y v dv'). }
  destruct (opt_fringe Hside dist c v) as (sx & Hsx & Hsx_le); [apply Hin; by left | done |].
  destruct (opt_dists Hother v dv' Hdv') as (sy & Hsy & Hsy_eq).
  assert (finalpath st <> [] /\ finaldist st <= dist + dv') as [Hne Htop].
  { destruct d; cbn [side flip] in *.
    - destruct (opt_meet Hsopt v sx sy Hsx Hsy) as [Hne Hle]. split; [done | lra].
    - destruct (opt_meet Hsopt v sy sx Hsy Hsx) as [Hne Hle]. split; [done | lra]. }
  split; [by apply (opt_final Hsopt)|].
  intros p Hp.
  assert (finaldist st <= 0 + walk_cost g wf p) as Hgoal; [|lra].
  pose proof (opt_start (sides_opt_side Forward st Hopt)) as Hstart.
  cbn [side start_of] in Hstart.
  destruct d; cbn [side flip] in *.
  - apply (meet_bound st dist dv' source target p); try done; lra.
  - apply (meet_bound st dv' dist source target p); try done; lra.
Qed.

Lemma search_loop_opt (fuel : nat) (st : search) (r : Q * route) :
  search_ok g source target st ->
  search_full g source target st ->
  sides_opt g wf source target st ->
  search_opt g wf st ->
  search_loop fuel g wf st = Some (Ok r) ->
  fst r == walk_cost g wf (snd r)
  /\ forall p, is_path g source target p -> fst r <= walk_cost g wf p.
Proof.
  revert st. induction fuel as [|fuel IH]; intros st Hok Hfull Hopt Hsopt; [done|].
  cbn [search_loop].
  destruct (fringe (fwd st)) as [|x0 f0] eqn:Hf; [done|].
  destruct (fringe (bwd st)) as [|x1 f1] eqn:Hb; [done|].
  destruct (step g wf st) as [[st'|r']|e] eqn:Hstep; [| |done].
  - intros Hloop.
    destruct (step_spec g source target wf costs st Hok)
      as [(r0 & Hr0 & _) | (st0 & Hst0 & Hok' & _)];
      [by rewrite Hf | by rewrite Hb | congruence |].
    rewrite Hstep in Hst0. injection Hst0 as <-.
    destruct (step_opt st st' Hok Hopt Hsopt Hstep) as [Hopt' Hsopt'].
    apply (IH st'); try done. by apply (step_full g source target wf costs distinct st).
  - intros [= <-]. by apply (step_return_opt st).
Qed.

Lemma search_init_opt :
  sides_opt g wf source target (search_init source target)
  /\ search_opt g wf (search_init source target).
Proof.
  split.
  - intros d. destruct d; cbn [side search_init fwd bwd start_of];
      split; cbn [dists paths fringe seen].
    all: try (intros n x Hn; by rewrite lookup_empty in Hn).
    all: try (intros n m x Hn; by rewrite lookup_empty in Hn).
    all: try (intros n x p Hn; by rewrite lookup_empty in Hn).
    all: try (exists 0; rewrite lookup_singleton_eq; split; [done | lra]).
    all: try (intros n x Hn; apply lookup_singleton_Some in Hn as [<- <-];
              eexists; rewrite lookup_singleton_eq; split; [done | reflexivity]).
    all: try (intros x c n [[= <- <- <-] | []] _; exists 0;
              rewrite lookup_singleton_eq; split; [done | lra]).
    all: intros n sx Hn _; apply lookup_singleton_Some in Hn as [<- <-];
      eexists _, _; split; [by left | reflexivity].
  - split; cbn [search_init fwd bwd seen finalpath finaldist]; [done|].
    intros w x y Hx Hy.
    apply lookup_singleton_Some in Hx as [<- _].
    by apply lookup_singleton_Some in Hy as [<- _].
Qed.

Lemma search_cheapest (r : Q * route) :
  search_loop (search_fuel g) g wf (search_init source target) = Some (Ok r) ->
  fst r == walk_cost g wf (snd r)
  /\ forall p, is_path g source target p -> fst r <= walk_cost g wf p.
Proof.
  destruct search_init_opt as [Hopt Hsopt].
  apply search_loop_opt; try done.
  - by apply search_init_ok.
  - apply search_init_full.
Qed.

End Cheapest.

(** ** Route search: the route returned is a cheapest one *)

Lemma bidirectional_dijkstra_cheapest (g : graph) (source target : node) (w : weight)
    (r : Q * route) :
  weight_nonneg g w ->
  bidirectional_dijkstra g source target w = Ok r ->
  fst r == route_weight g w (snd r)
  /\ forall p, is_path g source target p ->
       route_weight g w (snd r) <= route_weight g w p.
Proof.
  intros Hw. unfold bidirectional_dijkstra.
  destruct (negb (has_node g source && has_node g target)); [done|].
  pose proof (weight_function_costs g w Hw) as Hcosts.
  destruct (Z.eqb_spec source target) as [-> | Hne].
  - intros [= <-]. cbn [fst snd]. split; [reflexivity|].
    intros p Hp. apply is_path_walk in Hp.
    apply (dcost_nonneg g (weight_function w) Hcosts Forward target target p Hp).
  - destruct (search_loop _ _ _ _) as [[r'|e]|] eqn:Hloop; try done.
    intros [= <-].
    destruct (search_cheapest g source target (weight_function w) Hcosts Hne r' Hloop)
      as [Hcost Hleast].
    split; [done|]. intros p Hp. specialize (Hleast p Hp). unfold route_weight. lra.
Qed.

Lemma shortest_path_cheapest (g : graph) (orig dest : node) (w : weight) (r : route) :
  weight_nonneg g w ->
  shortest_path g orig dest w = Ok (Some r) ->
  forall p, is_path g orig dest p -> route_weight g w r <= route_weight g w p.
Proof.
  intros Hw. unfold shortest_path. destruct (g_edges g) as [|e0 es]; [done|].
  destruct (bidirectional_dijkstra g orig dest w) as [[c q]|e] eqn:Hsearch.
  - intros [= <-].
    by destruct (bidirectional_dijkstra_cheapest g orig dest w (c, q) Hw Hsearch).
  - by destruct e.
Qed.

Lemma edge_cost_length (g : graph) (u v : node) :
  has_lengths g ->
  edge_cost g (weight_function (WeightAttr "length")) u v = shortest_parallel g (u, v).
Proof.
  intros Hlen. unfold edge_cost, shortest_parallel, weight_function. cbn [fst snd].
  assert (map (fun it => attr_weight "length" (snd it)) (parallel_edges g u v)
          = map (fun it => attr_get (snd it) "length" 0) (parallel_edges g u v)) as ->.
  { apply map_ext_in. intros it Hit.
    destruct (parallel_edges_In g u v it Hit) as (e & He & _ & _ & <-).
    destruct (Hlen e He) as [q Hq]. unfold attr_weight, attr_get. by rewrite Hq. }
  by destruct (map _ _).
Qed.

Lemma route_weight_length (g : graph) (r : route) :
  has_lengths g -> route_weight g (WeightAttr "length") r = route_length g r.
Proof.
  intros Hlen. unfold route_weight, walk_cost, dcost, route_length. f_equal.
  apply map_ext. intros [u v]. cbn [link_cost fst snd]. by apply edge_cost_length.
Qed.




